(** * The merge engine of sd-webui-bayesian-merger ([merger.py])

    A shallow embedding of [sd_webui_bayesian_merger/merger.py] and the
    properties of its specification.

    Conventions of the embedding:
    - Python strings are lists of characters ([pystr]); keys are byte strings,
      so the class [\d] of the regular expressions is the ten ASCII digits.
    - A Python [dict] is the array of its entries in insertion order, a deleted
      entry leaving a hole, as in CPython.  Where the code adds and deletes
      keys of a dictionary that it iterates over ([fix_nai_keys]), the
      dictionary is the object of CPython: the entries with the number of
      free slots of its key table, an insertion into a full table closing the
      holes; [for k in d] is then CPython's iterator, and the list of the
      live keys where the loop body leaves the keys alone.
    - Exceptions are the [Raise] results of an error monad; a function that
      changes a dictionary in place gives the dictionary as it leaves it,
      also when it raises.
    - A tensor is its dtype and its flattened values, as exact rationals;
      rounding appears only where the code asks for it ([.half()]), through a
      function of the [Kernels] interface, as do the floating-point kernels
      of torch and scipy whose values no property here depends on. *)

From Stdlib Require Import String Ascii List ZArith QArith Lia Lqa Bool Arith Sorted.
From Stdlib Require DecimalString DecimalPos DecimalZ.
Import ListNotations.
Local Close Scope Q_scope.
Local Open Scope list_scope.

(** ** Python strings *)

Definition pystr := list ascii.

Definition str (s : string) : pystr := list_ascii_of_string s.

Fixpoint str_eqb (a b : pystr) : bool :=
  match a, b with
  | [], [] => true
  | x :: a', y :: b' => Ascii.eqb x y && str_eqb a' b'
  | _, _ => false
  end.

(** [s.startswith(p)] *)
Fixpoint startswith (p s : pystr) : bool :=
  match p, s with
  | [], _ => true
  | _ :: _, [] => false
  | a :: p', b :: s' => Ascii.eqb a b && startswith p' s'
  end.

(** [p in s] *)
Fixpoint contains (p s : pystr) : bool :=
  startswith p s ||
  match s with
  | [] => false
  | _ :: s' => contains p s'
  end.

(** [s.replace(old, new)]: every occurrence of [old], left to right, without
    overlap.  [skip] counts the characters of a replaced occurrence that are
    still to be dropped. *)
Fixpoint replace_from (skip : nat) (old new s : pystr) : pystr :=
  match s with
  | [] => []
  | c :: s' =>
      match skip with
      | S k => replace_from k old new s'
      | O =>
          if startswith old s
          then new ++ replace_from (length old - 1) old new s'
          else c :: replace_from 0 old new s'
      end
  end.

Definition replace (old new s : pystr) : pystr :=
  match old with
  | [] => new ++ flat_map (fun c => c :: new) s
  | _ :: _ => replace_from 0 old new s
  end.

(** *** The regular expressions [\.<name>\.(\d+)\.] *)

Definition is_digit (c : ascii) : bool :=
  let n := nat_of_ascii c in (48 <=? n)%nat && (n <=? 57)%nat.

Fixpoint span_digits (s : pystr) : pystr * pystr :=
  match s with
  | [] => ([], [])
  | c :: s' =>
      if is_digit c
      then let (d, r) := span_digits s' in (c :: d, r)
      else ([], s)
  end.

(** [int(ds)] on a run of decimal digits *)
Definition int_of_digits (ds : pystr) : Z :=
  fold_left (fun acc c => (10 * acc + Z.of_nat (nat_of_ascii c - 48))%Z) ds 0%Z.

(** A match of [lit(\d+)\.] at the very beginning of [s], giving [int] of
    the group.  The greedy [\d+] takes the whole run of digits; giving some
    back can never help, since the next character would be a digit and not
    the dot. *)
Definition match_block_at (lit s : pystr) : option Z :=
  if startswith lit s then
    match span_digits (skipn (length lit) s) with
    | (d :: ds, c :: _) =>
        if Ascii.eqb c "."%char then Some (int_of_digits (d :: ds)) else None
    | _ => None
    end
  else None.

(** [re.search]: the leftmost position with a match *)
Fixpoint re_search (lit s : pystr) : option Z :=
  match match_block_at lit s with
  | Some n => Some n
  | None =>
      match s with
      | [] => None
      | _ :: s' => re_search lit s'
      end
  end.

Definition re_inp : pystr := str ".input_blocks.".
Definition re_mid : pystr := str ".middle_block.".
Definition re_out : pystr := str ".output_blocks.".

(** [ds] is a non-empty run of digits *)
Definition digit_run (ds : pystr) : Prop :=
  ds <> [] /\ forallb is_digit ds = true.

(** [s] begins with a match of [lit(\d+)\.] whose group is [ds] *)
Definition match_at (lit s ds : pystr) : Prop :=
  digit_run ds /\ exists post, s = lit ++ ds ++ "."%char :: post.

(** The leftmost match of [lit(\d+)\.] in [key] has the group [ds] *)
Definition first_match (lit key ds : pystr) : Prop :=
  exists pre s,
    key = pre ++ s /\ match_at lit s ds /\
    forall pre' s' ds', key = pre' ++ s' -> match_at lit s' ds' ->
                        length pre <= length pre'.

(** [key] has no match of [lit(\d+)\.] *)
Definition no_match (lit key : pystr) : Prop :=
  forall pre s ds, key = pre ++ s -> ~ match_at lit s ds.

(** ** Exceptions *)

Inductive exn : Type :=
| KeyError (k : pystr)
| IndexError
| ValueError (msg : pystr)
| RuntimeError (msg : string)
| AttributeError
| FileNotFoundError (p : pystr).

Inductive result (A : Type) : Type :=
| Ok (a : A)
| Raise (e : exn).

Arguments Ok {A} a.
Arguments Raise {A} e.

Definition bind {A B : Type} (m : result A) (f : A -> result B) : result B :=
  match m with
  | Ok a => f a
  | Raise e => Raise e
  end.

Notation "x <- m ;; k" := (bind m (fun x => k))
  (at level 61, m at next level, right associativity).

(** ** Python dictionaries *)

Section Dict.

Context {V : Type}.

(** The entries in insertion order; [None] is the hole left by [del]. *)
Definition dict : Type := list (option (pystr * V)).

Fixpoint dict_get (k : pystr) (d : dict) : option V :=
  match d with
  | [] => None
  | None :: d' => dict_get k d'
  | Some (k', v) :: d' => if str_eqb k k' then Some v else dict_get k d'
  end.

(** [k in d] *)
Definition dict_mem (k : pystr) (d : dict) : bool :=
  match dict_get k d with
  | Some _ => true
  | None => false
  end.

(** [d[k]] *)
Definition getitem (k : pystr) (d : dict) : result V :=
  match dict_get k d with
  | Some v => Ok v
  | None => Raise (KeyError k)
  end.

Fixpoint dict_update (k : pystr) (v : V) (d : dict) : dict :=
  match d with
  | [] => []
  | None :: d' => None :: dict_update k v d'
  | Some (k', v') :: d' =>
      if str_eqb k k' then Some (k', v) :: d'
      else Some (k', v') :: dict_update k v d'
  end.

(** [d[k] = v]: in place for a key of [d], a new last entry otherwise *)
Definition setitem (k : pystr) (v : V) (d : dict) : dict :=
  if dict_mem k d then dict_update k v d else d ++ [Some (k, v)].

Fixpoint dict_remove (k : pystr) (d : dict) : dict :=
  match d with
  | [] => []
  | None :: d' => None :: dict_remove k d'
  | Some (k', v') :: d' =>
      if str_eqb k k' then None :: d'
      else Some (k', v') :: dict_remove k d'
  end.

(** [del d[k]] *)
Definition delitem (k : pystr) (d : dict) : result dict :=
  if dict_mem k d then Ok (dict_remove k d) else Raise (KeyError k).

(** [d.items()], [d.keys()], [d.values()], [len(d)] *)
Fixpoint dict_items (d : dict) : list (pystr * V) :=
  match d with
  | [] => []
  | None :: d' => dict_items d'
  | Some kv :: d' => kv :: dict_items d'
  end.

Definition dict_keys (d : dict) : list pystr := map fst (dict_items d).
Definition dict_values (d : dict) : list V := map snd (dict_items d).
Definition dict_len (d : dict) : nat := length (dict_items d).

(** A dictionary display [{k1: v1, ...}] *)
Definition dict_of (l : list (pystr * V)) : dict :=
  fold_left (fun d kv => setitem (fst kv) (snd kv) d) l [].

(** *** CPython's key iterator

    [di_used] is the size of the dictionary when the iterator was made,
    [di_pos] the next entry to look at, [di_len] the number of keys still
    expected.  [iternext] is [dictiter_iternextkey]. *)
Record dictiter : Type := mkIter { di_used : nat; di_pos : nat; di_len : nat }.

(** [iter(d)] *)
Definition dict_iter (d : dict) : dictiter :=
  mkIter (dict_len d) 0 (dict_len d).

(** The first live entry at position [pos] or after, with its position *)
Fixpoint next_entry (pos : nat) (d : dict) : option (nat * pystr) :=
  match d with
  | [] => None
  | e :: d' =>
      match pos with
      | S p =>
          match next_entry p d' with
          | Some (i, k) => Some (S i, k)
          | None => None
          end
      | O =>
          match e with
          | Some (k, _) => Some (O, k)
          | None =>
              match next_entry O d' with
              | Some (i, k) => Some (S i, k)
              | None => None
              end
          end
      end
  end.

Definition iternext (it : dictiter) (d : dict)
  : result (option (pystr * dictiter)) :=
  if negb (di_used it =? dict_len d)%nat then
    Raise (RuntimeError "dictionary changed size during iteration")
  else
    match next_entry (di_pos it) d with
    | None => Ok None
    | Some (i, k) =>
        match di_len it with
        | O => Raise (RuntimeError "dictionary keys changed during iteration")
        | S n => Ok (Some (k, mkIter (di_used it) (S i) n))
        end
    end.

(** *** The dictionary object

    Beside the entries CPython keeps the number of free slots of the key
    table, [dk_usable]; [del] gives no slot back.  A new key that finds no
    free slot has the table rebuilt ([insertion_resize], [dictresize]): the
    live entries move to the front of a new array, which closes the holes,
    and the new table is sized for three times the number of keys
    ([GROWTH_RATE]), two thirds of its size being usable
    ([USABLE_FRACTION]). *)
Record dictobject : Type := mkDict { dk_entries : dict; dk_usable : nat }.

Definition PyDict_MINSIZE : nat := 8.

Definition USABLE_FRACTION (n : nat) : nat := (2 * n / 3)%nat.

(** [calculate_log2_keysize] of CPython 3.11 (where [long] has the size of
    [size_t]): the size is 2 to the bit length of
    [((minsize | PyDict_MINSIZE) - 1) | (PyDict_MINSIZE - 1)].  For three
    times a number of keys, which is what [dictresize] asks for here, that
    is the first of 8, 16, 32, ... that is at least [minsize], as the doubling
    loop of the earlier versions gives, except with one or two keys, where
    it is 16, not 8. *)
Definition calculate_keysize (minsize : nat) : nat :=
  2 ^ S (Nat.log2 (Nat.lor (Nat.lor minsize PyDict_MINSIZE - 1)
                           (PyDict_MINSIZE - 1))).

(** The entries without their holes *)
Definition compact (d : dict) : dict := map Some (dict_items d).

Definition dictresize (o : dictobject) : dictobject :=
  let used := dict_len (dk_entries o) in
  mkDict (compact (dk_entries o))
         (USABLE_FRACTION (calculate_keysize (3 * used)) - used).

(** [insertdict]: a key of the dictionary keeps its entry; a new key takes a
    free slot and the next entry, after [dictresize] when no slot is free. *)
Definition insertdict (k : pystr) (v : V) (o : dictobject) : dictobject :=
  if dict_mem k (dk_entries o) then
    mkDict (dict_update k v (dk_entries o)) (dk_usable o)
  else
    let o' := if (dk_usable o =? 0)%nat then dictresize o else o in
    mkDict (dk_entries o' ++ [Some (k, v)]) (dk_usable o' - 1).

(** The free slots of a dictionary after [n] insertions of new keys into
    [{}], whose table has none *)
Fixpoint usable_after (n : nat) : nat :=
  match n with
  | O => O
  | S n' =>
      let u := usable_after n' in
      (if (u =? 0)%nat
       then USABLE_FRACTION (calculate_keysize (3 * n')) - n'
       else u) - 1
  end.

(** The object of a dictionary that was built from [{}] by insertions alone:
    every entry is live, and the free slots are those left after as many
    insertions. *)
Definition inserted_only (d : dict) : dictobject :=
  mkDict d (usable_after (length d)).

(** A call that changes the dictionary it is given: the dictionary as the call
    leaves it, and the exception when the call raised *)
Definition outcome : Type := dictobject * option exn.

Definition and_then (r : outcome) (k : dictobject -> outcome) : outcome :=
  match snd r with
  | None => k (fst r)
  | Some _ => r
  end.

(** What the caller gets: the dictionary, or the exception *)
Definition returned (r : outcome) : result dict :=
  match snd r with
  | None => Ok (dk_entries (fst r))
  | Some e => Raise e
  end.

(** [del o[k]] *)
Definition obj_delitem (k : pystr) (o : dictobject) : outcome :=
  if dict_mem k (dk_entries o)
  then (mkDict (dict_remove k (dk_entries o)) (dk_usable o), None)
  else (o, Some (KeyError k)).

(** A loop over a list whose body changes the dictionary and may raise *)
Fixpoint for_each_inplace {A : Type} (l : list A)
  (body : A -> dictobject -> outcome) (o : dictobject) : outcome :=
  match l with
  | [] => (o, None)
  | x :: l' => and_then (body x o) (for_each_inplace l' body)
  end.

End Dict.

Arguments dict V : clear implicits.
Arguments dictobject V : clear implicits.
Arguments outcome V : clear implicits.

(** A loop whose body may raise *)
Fixpoint for_each {A S : Type} (l : list A) (body : A -> S -> result S) (s : S)
  : result S :=
  match l with
  | [] => Ok s
  | x :: l' => s' <- body x s ;; for_each l' body s'
  end.

(** ** Tensors *)

Inductive dtype : Type := Int64 | Float16 | Float32.

Record tensor : Type := mkTensor { t_dtype : dtype; t_data : list Q }.

(** Type promotion of torch, on the three dtypes that occur *)
Definition promote (a b : dtype) : dtype :=
  match a, b with
  | Float32, _ | _, Float32 => Float32
  | Float16, _ | _, Float16 => Float16
  | Int64, Int64 => Int64
  end.

Fixpoint zip_with (f : Q -> Q -> Q) (x y : list Q) : list Q :=
  match x, y with
  | a :: x', b :: y' => f a b :: zip_with f x' y'
  | _, _ => []
  end.

(** An element-wise operation: operands of the same size, or one of them of
    size one, which is broadcast; anything else raises. *)
Definition elementwise (f : Q -> Q -> Q) (x y : tensor) : result tensor :=
  let dt := promote (t_dtype x) (t_dtype y) in
  if (length (t_data x) =? length (t_data y))%nat then
    Ok (mkTensor dt (zip_with f (t_data x) (t_data y)))
  else
    match t_data x, t_data y with
    | [a], yd => Ok (mkTensor dt (map (f a) yd))
    | xd, [b] => Ok (mkTensor dt (map (fun a => f a b) xd))
    | _, _ => Raise (RuntimeError "The size of tensor a must match the size of tensor b")
    end.

Definition tadd : tensor -> tensor -> result tensor := elementwise Qplus.
Definition tsub : tensor -> tensor -> result tensor := elementwise Qminus.

(** [a * t] for a Python float [a] *)
Definition smul (a : Q) (t : tensor) : tensor :=
  mkTensor (match t_dtype t with Int64 => Float32 | dt => dt end)
           (map (Qmult a) (t_data t)).

(** [torch.zeros_like(t)] *)
Definition zeros_like (t : tensor) : tensor :=
  mkTensor (t_dtype t) (map (fun _ => 0%Q) (t_data t)).

(** Equality of the values of two tensors *)
Definition teq (x y : tensor) : Prop := Forall2 Qeq (t_data x) (t_data y).

(** A value of a numpy [float64] array *)
Inductive sample : Type := NaN | Fin (q : Q).

(** The numerical kernels of torch and scipy that the code calls and whose
    values are left open:
    - [round16], the rounding of [.half()];
    - [combined_similarity], lines 302-305 of [merge]: the values that
      [np.append] adds to [sims] for one key;
    - [cosine_weighted_sum], lines 239-246 of [merge_block]: the blend
      [(1 - k) * t0 + k * t1] for [k] from the similarity of [t0] and [t1],
      [sims.min()], [sims.max()] and [alpha];
    - [median_gaussian_filter], lines 249-254 of [merge_block]. *)
Class Kernels : Type := {
  round16 : Q -> Q;
  combined_similarity : tensor -> tensor -> result (list sample);
  cosine_weighted_sum : list Q -> Q -> tensor -> tensor -> result tensor;
  median_gaussian_filter : tensor -> tensor
}.

(** [t.half()] *)
Definition half `{Kernels} (t : tensor) : tensor :=
  mkTensor Float16 (map round16 (t_data t)).

(** ** Constants of the module *)

Definition MAX_TOKENS : nat := 77.
Definition NUM_INPUT_BLOCKS : Z := 12.
Definition NUM_MID_BLOCK : Z := 1.
Definition NUM_OUTPUT_BLOCKS : Z := 12.
Definition NUM_TOTAL_BLOCKS : Z :=
  NUM_INPUT_BLOCKS + NUM_MID_BLOCK + NUM_OUTPUT_BLOCKS.

Definition KEY_POSITION_IDS : pystr :=
  str "cond_stage_model.transformer.text_model.embeddings.position_ids".

Inductive MergeMode : Type :=
| weighted_sum
| add_difference
| weighted_add_difference
| sum_twice
| triple_sum
| weighted_double_difference.

Definition NUM_MODELS_NEEDED (m : MergeMode) : nat :=
  match m with
  | add_difference => 3
  | weighted_add_difference => 3
  | weighted_sum => 2
  | sum_twice => 3
  | triple_sum => 3
  | weighted_double_difference => 5
  end.

Definition NAI_KEYS : list (pystr * pystr) :=
  [ (str "cond_stage_model.transformer.embeddings.",
     str "cond_stage_model.transformer.text_model.embeddings.");
    (str "cond_stage_model.transformer.encoder.",
     str "cond_stage_model.transformer.text_model.encoder.");
    (str "cond_stage_model.transformer.final_layer_norm.",
     str "cond_stage_model.transformer.text_model.final_layer_norm.") ].

(** [torch.tensor([list(range(MAX_TOKENS))], dtype=torch.int64)] *)
Definition position_ids_tensor : tensor :=
  mkTensor Int64 (map (fun n => inject_Z (Z.of_nat n)) (seq 0 MAX_TOKENS)).

(** A checkpoint, and the models of a merge by role *)
Definition checkpoint : Type := dict tensor.
Definition model_set : Type := dict checkpoint.

(** The mapping that [merge] assembles: a value is a tensor, or the [None]
    that [merge_block] returns when it falls off its end. *)
Definition state_dict : Type := dict (option tensor).

Definition model_a : pystr := str "model_a".
Definition model_b : pystr := str "model_b".
Definition model_c : pystr := str "model_c".
Definition model_d : pystr := str "model_d".
Definition model_e : pystr := str "model_e".

(** ** The key fixes applied to the assembled checkpoint

    The three functions change the dictionary that they are given and return
    it. *)

(** [model[KEY_POSITION_IDS] = torch.tensor(...)] when the key is there *)
Definition fix_clip (model : dictobject (option tensor))
  : dictobject (option tensor) :=
  if dict_mem KEY_POSITION_IDS (dk_entries model)
  then insertdict KEY_POSITION_IDS (Some position_ids_tensor) model
  else model.

(** The right-hand side [model[key]] is read first, then the new key is
    stored and the old one deleted. *)
Definition fix_key {V : Type} (model : dictobject V) (key : pystr)
  : outcome V :=
  for_each_inplace NAI_KEYS
    (fun nk model =>
       if startswith (fst nk) key then
         match getitem key (dk_entries model) with
         | Ok v =>
             obj_delitem key
               (insertdict (replace (fst nk) (snd nk) key) v model)
         | Raise e => (model, Some e)
         end
       else (model, None))
    model.

(** [for k in model: model = fix_key(model, k)].  [fix_key] returns the
    dictionary it was given, so the loop iterates over the dictionary that
    its body changes: the iterator looks at the entries as they are when it
    is asked for the next key.  The recursion is on [di_len], which every key
    that the iterator gives decreases (it gives none when [di_len] is 0). *)
Fixpoint fix_nai_loop {V : Type} (len used pos : nat) (model : dictobject V)
  : outcome V :=
  match iternext (mkIter used pos len) (dk_entries model) with
  | Raise e => (model, Some e)
  | Ok None => (model, None)
  | Ok (Some (k, it)) =>
      match len with
      | O => (model, None)
      | S len' =>
          and_then (fix_key model k) (fix_nai_loop len' used (di_pos it))
      end
  end.

Definition fix_nai_keys {V : Type} (model : dictobject V) : outcome V :=
  let it := dict_iter (dk_entries model) in
  fix_nai_loop (di_len it) (di_used it) (di_pos it) model.

Definition fix_model (model : dictobject (option tensor))
  : outcome (option tensor) :=
  and_then (fix_nai_keys model) (fun model => (fix_clip model, None)).

(** ** The merger *)

(** The options of [cfg] that the merge reads *)
Record config : Type := mkConfig {
  merge_mode : MergeMode;
  cosine_mode : bool;
  skip_position_ids : Z;
  best_precision : pystr;
  best_format : pystr
}.

Definition mode_eqb (a b : MergeMode) : bool :=
  match a, b with
  | weighted_sum, weighted_sum
  | add_difference, add_difference
  | weighted_add_difference, weighted_add_difference
  | sum_twice, sum_twice
  | triple_sum, triple_sum
  | weighted_double_difference, weighted_double_difference => true
  | _, _ => false
  end.

Section Merger.

Context `{Kernels}.

Variable cfg : config.

(** [if not best or self.cfg.best_precision == "16": t = t.half()] *)
Definition narrow (best : bool) (t : tensor) : tensor :=
  if negb best || str_eqb (best_precision cfg) (str "16") then half t else t.

(** Lines 262-276 of [merge_block]: what follows the [if cosine_mode] statement.
    Falling off the end returns [None]. *)
Definition merge_block_rest (current_bases : dict Q) (thetas : model_set)
  (key : pystr) (alpha : Q) (t0 t1 : tensor) : result (option tensor) :=
  c <- getitem model_c thetas ;;
  t2 <- getitem key c ;;
  if mode_eqb (merge_mode cfg) weighted_add_difference then
    d <- tsub t1 t2 ;;
    r <- tadd (smul (1 - alpha) t0) (smul alpha d) ;;
    Ok (Some r)
  else
    beta <- getitem (str "beta") current_bases ;;
    match merge_mode cfg with
    | sum_twice =>
        x <- tadd (smul (1 - alpha) t0) (smul alpha t1) ;;
        r <- tadd (smul (1 - beta) x) (smul beta t2) ;;
        Ok (Some r)
    | triple_sum =>
        x <- tadd (smul (1 - alpha - beta) t0) (smul alpha t1) ;;
        r <- tadd x (smul beta t2) ;;
        Ok (Some r)
    | weighted_double_difference =>
        d <- getitem model_d thetas ;;
        t3 <- getitem key d ;;
        e <- getitem model_e thetas ;;
        t4 <- getitem key e ;;
        d12 <- tsub t1 t2 ;;
        d34 <- tsub t3 t4 ;;
        x <- tadd (smul (1 - beta) d12) (smul beta d34) ;;
        r <- tadd (smul (1 - alpha) t0) (smul alpha x) ;;
        Ok (Some r)
    | _ => Ok None
    end.

(** [sims] is [None] when the caller passes no [sims] argument. *)
Definition merge_block (current_bases : dict Q) (thetas : model_set)
  (key : pystr) (sims : option (list Q)) : result (option tensor) :=
  a <- getitem model_a thetas ;;
  t0 <- getitem key a ;;
  b <- getitem model_b thetas ;;
  t1 <- getitem key b ;;
  alpha <- getitem (str "alpha") current_bases ;;
  if cosine_mode cfg then
    match merge_mode cfg with
    | weighted_sum =>
        if contains (str "first_stage_model") key then Ok (Some t0)
        else if contains (str "model") key && dict_mem key b then
          match sims with
          | Some s => r <- cosine_weighted_sum s alpha t0 t1 ;; Ok (Some r)
          | None => Raise AttributeError
          end
        else merge_block_rest current_bases thetas key alpha t0 t1
    | add_difference =>
        r <- tadd t0 (smul alpha (median_gaussian_filter t1)) ;;
        Ok (Some r)
    | _ => merge_block_rest current_bases thetas key alpha t0 t1
    end
  else
    if mode_eqb (merge_mode cfg) weighted_sum then
      r <- tadd (smul (1 - alpha) t0) (smul alpha t1) ;;
      Ok (Some r)
    else
      c <- getitem model_c thetas ;;
      t2 <- getitem key c ;;
      if mode_eqb (merge_mode cfg) add_difference then
        d <- tsub t1 t2 ;;
        r <- tadd t0 (smul alpha d) ;;
        Ok (Some r)
      else merge_block_rest current_bases thetas key alpha t0 t1.

(** Lines 197-212 of [merge_key]: the block index of a key of the diffusion
    model, [-1] when no pattern applies *)
Definition weight_index (key : pystr) : Z :=
  if contains (str "time_embed") key then 0
  else if contains (str ".out.") key then NUM_TOTAL_BLOCKS - 1
  else
    match re_search re_inp key with
    | Some n => n
    | None =>
        match re_search re_mid key with
        | Some _ => NUM_INPUT_BLOCKS
        | None =>
            match re_search re_out key with
            | Some n => NUM_INPUT_BLOCKS + NUM_MID_BLOCK + n
            | None => -1
            end
        end
    end.

(** [{k: w[i] for k, w in weights.items()}] *)
Definition index_weights (weights : dict (list Q)) (i : Z) : result (dict Q) :=
  for_each (dict_items weights)
    (fun kw acc =>
       match nth_error (snd kw) (Z.to_nat i) with
       | Some x => Ok (setitem (fst kw) x acc)
       | None => Raise IndexError
       end)
    [].

(** Lines 195-218 of [merge_key]: the coefficients that apply to a key *)
Definition select_bases (key : pystr) (weights : dict (list Q))
  (bases : dict Q) : result (dict Q) :=
  if contains (str "model.diffusion_model.") key then
    let i := weight_index key in
    if (i >=? NUM_TOTAL_BLOCKS)%Z then
      Raise (ValueError (str "illegal block index " ++ key))
    else if (i >=? 0)%Z then index_weights weights i
    else Ok bases
  else Ok bases.

(** [merge_key] returns [None], or a pair of the key and what [merge_block]
    returned for it: a tensor, or [None], on which [.half()] raises
    [AttributeError].  It may assign to [thetas["model_a"][key]], so the
    models are returned as well. *)
Definition merge_key (key : pystr) (thetas : model_set)
  (weights : dict (list Q)) (bases : dict Q) (best : bool)
  (sims : option (list Q))
  : result (option (pystr * option tensor) * model_set) :=
  if contains KEY_POSITION_IDS key && (skip_position_ids cfg =? 1)%Z then
    a <- getitem model_a thetas ;;
    t <- getitem key a ;;
    Ok (Some (key, Some (narrow best t)), thetas)
  else if contains KEY_POSITION_IDS key && (skip_position_ids cfg =? 2)%Z then
    a <- getitem model_a thetas ;;
    let thetas' := setitem model_a (setitem key position_ids_tensor a) thetas in
    a' <- getitem model_a thetas' ;;
    t <- getitem key a' ;;
    Ok (Some (key, Some (narrow best t)), thetas')
  else if existsb (fun theta => negb (dict_mem key theta)) (dict_values thetas)
  then Ok (None, thetas)
  else
    current_bases <- select_bases key weights bases ;;
    merged <- merge_block current_bases thetas key
                (if cosine_mode cfg then sims else None) ;;
    match merged with
    | Some t => Ok (Some (key, Some (narrow best t)), thetas)
    | None =>
        if negb best || str_eqb (best_precision cfg) (str "16")
        then Raise AttributeError
        else Ok (Some (key, None), thetas)
    end.

(** *** The stages of [merge] *)

(** Stage 0, lines 288-295: the body of the loop, then the loop and
    [del thetas["model_c"]] *)
Definition stage0_step (keys : pystr) (thetas : model_set) : result model_set :=
  if contains (str "model") keys then
    c <- getitem model_c thetas ;;
    if dict_mem keys c then
      b <- getitem model_b thetas ;;
      tb <- getitem keys b ;;
      let t2 := match dict_get keys c with
                | Some t => t
                | None => zeros_like tb
                end in
      d <- tsub tb t2 ;;
      Ok (setitem model_b (setitem keys d b) thetas)
    else
      b <- getitem model_b thetas ;;
      tb <- getitem keys b ;;
      Ok (setitem model_b (setitem keys (zeros_like tb) b) thetas)
  else Ok thetas.

Definition stage0 (thetas : model_set) : result model_set :=
  b <- getitem model_b thetas ;;
  thetas' <- for_each (dict_keys b) stage0_step thetas ;;
  delitem model_c thetas'.

(** What stage 0 leaves under a key of model B whose tensor was [tb] *)
Definition stage0_value (c : checkpoint) (key : pystr) (tb : tensor)
  : result tensor :=
  if contains (str "model") key then
    match dict_get key c with
    | Some t2 => tsub tb t2
    | None => Ok (zeros_like tb)
    end
  else Ok tb.

(** Stage 1, lines 297-306: the similarity values in the order of the keys *)
Definition stage1 (thetas : model_set) : result (list sample) :=
  a <- getitem model_a thetas ;;
  for_each (dict_keys a)
    (fun key sims =>
       if contains (str "first_stage_model") key then Ok sims
       else if contains (str "model") key then
         b <- getitem model_b thetas ;;
         if dict_mem key b then
           ta <- getitem key a ;;
           tb <- getitem key b ;;
           cs <- combined_similarity ta tb ;;
           Ok (sims ++ cs)
         else Ok sims
       else Ok sims)
    [].

End Merger.

(** *** Trimming of the similarity samples, lines 307-309 *)

Definition Qlt_bool (x y : Q) : bool := negb (Qle_bool y x).

(** [sims[~np.isnan(sims)]] *)
Fixpoint drop_nan (l : list sample) : list Q :=
  match l with
  | [] => []
  | NaN :: l' => drop_nan l'
  | Fin q :: l' => q :: drop_nan l'
  end.

Fixpoint insert_sorted (x : Q) (l : list Q) : list Q :=
  match l with
  | [] => [x]
  | y :: l' => if Qle_bool x y then x :: l else y :: insert_sorted x l'
  end.

Definition sort_samples (l : list Q) : list Q := fold_right insert_sorted [] l.

(** [np.percentile(l, q, method='midpoint')] for an integer [q] from 0 to
    100.  With [n] values the rank is [(n - 1) * q / 100]; [h] is a hundred
    times that.  The result is the value of that rank in the sorted values
    when the rank is whole and, otherwise, numpy's interpolation of weight one
    half between the two neighbours, [b - (b - a) * (1 - 0.5)].  The rank is
    computed exactly here, in floating point by numpy.  numpy raises
    [IndexError] on an empty array. *)
Definition percentile (l : list Q) (q : Z) : result Q :=
  match sort_samples l with
  | [] => Raise IndexError
  | (x :: _) as s =>
      let h := ((Z.of_nat (length s) - 1) * q)%Z in
      let lo := Z.to_nat (h / 100) in
      if (h mod 100 =? 0)%Z then Ok (nth lo s x)
      else
        let a := nth lo s x in
        let b := nth (S lo) s x in
        Ok (b - (b - a) * (1 - (1 # 2)))%Q
  end.

(** [np.delete(sims, np.where(sims < p))] keeps the values that are not
    below [p], in their order. *)
Definition trim_sims (sims : list sample) : result (list Q) :=
  let s0 := drop_nan sims in
  p1 <- percentile s0 1 ;;
  let s1 := filter (fun v => negb (Qlt_bool v p1)) s0 in
  p99 <- percentile s1 99 ;;
  Ok (filter (fun v => negb (Qlt_bool p99 v)) s1).

Section Merge.

Context `{Kernels}.

Variable cfg : config.

(** Stage 2, lines 312-333: the body of the loop on the output mapping and
    the models, then the loop *)
Definition stage2_step (weights : dict (list Q)) (bases : dict Q)
  (best : bool) (sims : option (list Q)) (key : pystr)
  (st : state_dict * model_set) : result (state_dict * model_set) :=
  r <- merge_key cfg key (snd st) weights bases best sims ;;
  match fst r with
  | Some res => Ok (setitem key (snd res) (fst st), snd r)
  | None => Ok (fst st, snd r)
  end.

Definition stage2 (thetas : model_set) (weights : dict (list Q))
  (bases : dict Q) (best : bool) (sims : option (list Q))
  : result (state_dict * model_set) :=
  a <- getitem model_a thetas ;;
  for_each (dict_keys a) (stage2_step weights bases best sims) ([], thetas).

(** [v.half()] on a value of the mapping *)
Definition value_half (v : option tensor) : result (option tensor) :=
  match v with
  | Some t => Ok (Some (half t))
  | None => Raise AttributeError
  end.

(** The body of the loop of stage 3, lines 336-349 *)
Definition stage3_step (b : checkpoint) (best : bool) (key : pystr)
  (merged_model : state_dict) : result state_dict :=
  if contains (str "model") key && negb (dict_mem key merged_model) then
    if contains KEY_POSITION_IDS key && (skip_position_ids cfg =? 1)%Z then
      Ok merged_model
    else if contains KEY_POSITION_IDS key && (skip_position_ids cfg =? 2)%Z
    then
      let m1 := setitem key (Some position_ids_tensor) merged_model in
      if negb best || str_eqb (best_precision cfg) (str "16") then
        v <- getitem key m1 ;;
        h <- value_half v ;;
        Ok (setitem key h m1)
      else Ok m1
    else
      tb <- getitem key b ;;
      let m1 := setitem key (Some tb) merged_model in
      if negb best || str_eqb (best_precision cfg) (str "16") then
        v <- getitem key m1 ;;
        h <- value_half v ;;
        Ok (setitem key h m1)
      else Ok m1
  else Ok merged_model.

(** What stage 3 stores under a key of model B that the output lacks *)
Definition stage3_value (b : checkpoint) (best : bool) (key : pystr)
  : option tensor :=
  if contains (str "model") key then
    if contains KEY_POSITION_IDS key && (skip_position_ids cfg =? 1)%Z then None
    else if contains KEY_POSITION_IDS key && (skip_position_ids cfg =? 2)%Z
    then Some (narrow cfg best position_ids_tensor)
    else option_map (narrow cfg best) (dict_get key b)
  else None.

Definition stage3 (thetas : model_set) (best : bool)
  (merged_model : state_dict) : result state_dict :=
  b <- getitem model_b thetas ;;
  for_each (dict_keys b) (stage3_step b best) merged_model.

(** [merge], on the models that [load_sd_model] has read; the result is the
    mapping handed to [save_file] (or [torch.save]).  Stages 2 and 3 build
    [merged_model] from [{}] by insertions alone, which makes it the
    dictionary [inserted_only] that [fix_model] is given. *)
Definition merge (thetas : model_set) (weights : dict (list Q))
  (bases : dict Q) (best : bool) : result state_dict :=
  st <-
    (if cosine_mode cfg then
       thetas' <-
         (if mode_eqb (merge_mode cfg) add_difference
          then stage0 thetas else Ok thetas) ;;
       raw <- stage1 thetas' ;;
       sims <- trim_sims raw ;;
       Ok (thetas', Some sims)
     else Ok (thetas, None)) ;;
  r <- stage2 (fst st) weights bases best (snd st) ;;
  merged_model <- stage3 (snd r) best (fst r) ;;
  returned (fix_model (inserted_only merged_model)).

End Merge.

(** ** Output files *)

(** The files that exist, by path *)
Definition filesystem : Type := list pystr.

Definition file_exists (p : pystr) (fs : filesystem) : bool :=
  existsb (str_eqb p) fs.

(** [Path.unlink()] *)
Definition unlink (p : pystr) (fs : filesystem) : result filesystem :=
  if file_exists p fs
  then Ok (filter (fun f => negb (str_eqb p f)) fs)
  else Raise (FileNotFoundError p).

(** What [save_file] does to the files *)
Definition write_file (p : pystr) (fs : filesystem) : filesystem :=
  if file_exists p fs then fs else p :: fs.

(** The fields of a [Merger] that name its output: the directory of model A,
    [model_name_suffix], and the current [output_file]. *)
Record merger : Type := mkMerger {
  parent : pystr;
  model_name_suffix : pystr;
  model_out_name : pystr;
  output_file : pystr
}.

(** [f"{it}"] *)
Definition format_int (it : Z) : pystr :=
  str (DecimalString.NilZero.string_of_int (Z.to_int it)).

(** [Path(parent, name)] *)
Definition path_join (dir name : pystr) : pystr := dir ++ str "/" ++ name.

Definition out_name (self : merger) (it : Z) : pystr :=
  model_name_suffix self ++ str "-it_" ++ format_int it ++ str ".safetensors".

Definition create_model_out_name (self : merger) (it : Z) : merger :=
  mkMerger (parent self) (model_name_suffix self) (out_name self it)
           (path_join (parent self) (out_name self it)).

Definition remove_previous_ckpt (self : merger) (fs : filesystem)
  (current_it : Z) : result (merger * filesystem) :=
  if (current_it >? 1)%Z && file_exists (output_file self) fs then
    let self1 := create_model_out_name self (current_it - 1) in
    fs1 <- unlink (output_file self1) fs ;;
    Ok (create_model_out_name self1 current_it, fs1)
  else Ok (create_model_out_name self current_it, fs).

(** The path of the working file of iteration [it] *)
Definition working_file (self : merger) (it : Z) : pystr :=
  path_join (parent self) (out_name self it).

(** The trimming as the specification words it: both percentiles are those of
    the sample set before any value is removed. *)
Definition trim_sims_as_specified (sims : list sample) : result (list Q) :=
  let s0 := drop_nan sims in
  p1 <- percentile s0 1 ;;
  p99 <- percentile s0 99 ;;
  Ok (filter (fun v => negb (Qlt_bool v p1) && negb (Qlt_bool p99 v)) s0).

(** The number of live entries of a dictionary at position [pos] or after *)
Definition live_from {V : Type} (pos : nat) (d : dict V) : nat :=
  dict_len (skipn pos d).

(** Every entry is live; the number of holes *)
Definition hole_free {V : Type} (d : dict V) : bool :=
  forallb (fun e => match e with Some _ => true | None => false end) d.

Definition holes {V : Type} (d : dict V) : nat := length d - dict_len d.

(** The entry at position [i] is live and has the key [k] *)
Definition key_at {V : Type} (d : dict V) (i : nat) (k : pystr) : Prop :=
  exists v, nth_error d i = Some (Some (k, v)).

(** [key] starts with none of the prefixes of [NAI_KEYS] *)
Definition nai_free (key : pystr) : bool :=
  forallb (fun nk => negb (startswith (fst nk) key)) NAI_KEYS.

(** Two entries of model sets with the same role and the same keys *)
Definition same_model (x y : pystr * checkpoint) : Prop :=
  fst x = fst y /\ forall k, dict_mem k (snd x) = dict_mem k (snd y).

(** Two model sets with the same roles, in the same order, and the same keys
    in each model *)
Definition same_keys (th th' : model_set) : Prop :=
  Forall2 same_model (dict_items th) (dict_items th').

(** ** Data of the examples *)

(** Kernels that round nothing and leave tensors as they are *)
Definition exact_kernels : Kernels := {|
  round16 := fun q => q;
  combined_similarity := fun _ _ => Ok [];
  cosine_weighted_sum := fun _ _ t0 _ => Ok t0;
  median_gaussian_filter := fun t => t
|}.

(** A [float32] tensor of whole values *)
Definition tensor_of (l : list Z) : tensor := mkTensor Float32 (map inject_Z l).

Definition cfg_weighted_sum : config :=
  mkConfig weighted_sum false 0 (str "16") (str "safetensors").

Definition cfg_cosine_weighted_sum : config :=
  mkConfig weighted_sum true 0 (str "16") (str "safetensors").

(** Two models with the key [x], as in the end-to-end scenario of the
    specification *)
Definition thetas_x : model_set :=
  dict_of [ (model_a, dict_of [(str "x", tensor_of [1; 2]%Z)]);
            (model_b, dict_of [(str "x", tensor_of [3; 4]%Z)]) ].

Definition bases_half : dict Q := dict_of [(str "alpha", (1 # 2)%Q)].

(** Two models that share a scheduler key *)
Definition thetas_scheduler : model_set :=
  dict_of [ (model_a, dict_of [(str "alphas_cumprod", tensor_of [1; 2]%Z)]);
            (model_b, dict_of [(str "alphas_cumprod", tensor_of [3; 4]%Z)]) ].

(** A merger right after [__post_init__], its output name at iteration 0 *)
Definition merger_init : merger :=
  create_model_out_name (mkMerger (str "/models") (str "bbwm-A-B") [] []) 0.

(** Two models of which only model B has a decoder tensor of the VAE *)
Definition thetas_vae : model_set :=
  dict_of [ (model_a, dict_of [(str "x", tensor_of [1; 2]%Z)]);
            (model_b, dict_of [(str "x", tensor_of [3; 4]%Z);
                               (str "first_stage_model.decoder.w",
                                tensor_of [9]%Z)]) ].

(** Three models; model C lacks the key of the diffusion model that A and B
    have *)
Definition thetas_abc : model_set :=
  dict_of [ (model_a, dict_of [(str "model.diffusion_model.w", tensor_of [5; 5]%Z)]);
            (model_b, dict_of [(str "model.diffusion_model.w", tensor_of [1; 2]%Z);
                               (str "model.diffusion_model.v", tensor_of [7]%Z)]);
            (model_c, dict_of [(str "model.diffusion_model.v", tensor_of [3]%Z)]) ].

Definition cfg_skip1 : config :=
  mkConfig weighted_sum false 1 (str "32") (str "safetensors").

(** Model A and model B with their own position ids *)
Definition thetas_position_ids : model_set :=
  dict_of [ (model_a, dict_of [(KEY_POSITION_IDS, mkTensor Int64 [5%Q; 6%Q])]);
            (model_b, dict_of [(KEY_POSITION_IDS, mkTensor Int64 [7%Q; 8%Q])]) ].

(** Position ids in model A only *)
Definition thetas_position_ids_a : model_set :=
  dict_of [ (model_a, dict_of [(KEY_POSITION_IDS, mkTensor Int64 [5%Q; 6%Q])]);
            (model_b, dict_of [(str "x", tensor_of [3; 4]%Z)]) ].

(** ** The rest of the [Merger] *)

(** [Path.rename(dst)]: the source must exist; the name [dst] then holds
    the file.  In [keep_best_ckpt] the target has been unlinked before. *)
Definition rename (src dst : pystr) (fs : filesystem) : result filesystem :=
  if file_exists src fs
  then Ok (write_file dst (filter (fun f => negb (str_eqb src f)) fs))
  else Raise (FileNotFoundError src).

(** [create_best_model_out_name]: the value it gives to
    [self.best_output_file].  It is called once, by [__post_init__], and
    reads only fields that no method changes afterwards. *)
Definition create_best_model_out_name (cfg : config) (self : merger) : pystr :=
  path_join (parent self)
    (model_name_suffix self ++ str "-best" ++
     str "-" ++ best_precision cfg ++ str "bit" ++
     str "." ++ best_format cfg).

Definition keep_best_ckpt (cfg : config) (self : merger) (fs : filesystem)
  : result filesystem :=
  let best_output_file := create_best_model_out_name cfg self in
  fs1 <- (if file_exists best_output_file fs
          then unlink best_output_file fs else Ok fs) ;;
  rename (output_file self) best_output_file fs1.

(** The paths of [cfg]: [model_a], [model_b], and the entries among
    [model_c], [model_d], [model_e] that [cfg] has *)
Record model_paths : Type := mkPaths {
  cfg_model_a : pystr;
  cfg_model_b : pystr;
  cfg_others : dict pystr
}.

(** What [parse_models] sets *)
Record parsed_models : Type := mkParsed {
  models : dict pystr;
  model_keys : list pystr;
  model_real_names : list pystr;
  greek_letters : list pystr;
  parsed_name_suffix : pystr
}.

(** [sep.join(l)] *)
Fixpoint join (sep : pystr) (l : list pystr) : pystr :=
  match l with
  | [] => []
  | x :: l' =>
      match l' with
      | [] => x
      | _ :: _ => x ++ sep ++ join sep l'
      end
  end.

(** The loop of [parse_models], lines 105-118, over the roles still to try;
    each [break] returns the state as it is.  [stem] is [Path.stem]. *)
Fixpoint parse_more (stem : pystr -> pystr) (needed : nat)
  (others : dict pystr) (fs : filesystem) (roles : list pystr)
  (seen_models : nat) (st : dict pystr * (list pystr * list pystr))
  : dict pystr * (list pystr * list pystr) :=
  match roles with
  | [] => st
  | m :: roles' =>
      if (seen_models =? needed)%nat then st
      else
        match dict_get m others with
        | None => st
        | Some p =>
            if file_exists p fs then
              parse_more stem needed others fs roles' (S seen_models)
                (setitem m p (fst st),
                 (fst (snd st) ++ [m], snd (snd st) ++ [stem p]))
            else st
        end
  end.

(** [parse_models]; [None] is [sys.exit()]. *)
Definition parse_models (stem : pystr -> pystr) (mode : MergeMode)
  (paths : model_paths) (fs : filesystem) : option parsed_models :=
  let st0 :=
    (dict_of [(model_a, cfg_model_a paths); (model_b, cfg_model_b paths)],
     ([model_a; model_b],
      [stem (cfg_model_a paths); stem (cfg_model_b paths)])) in
  let st := parse_more stem (NUM_MODELS_NEEDED mode) (cfg_others paths) fs
              [model_c; model_d; model_e] 2 st0 in
  let greek :=
    match mode with
    | weighted_double_difference | sum_twice | triple_sum =>
        [str "alpha"; str "beta"]
    | _ => [str "alpha"]
    end in
  if (length (fst (snd st)) =? NUM_MODELS_NEEDED mode)%nat then
    Some (mkParsed (fst st) (fst (snd st)) (snd (snd st)) greek
            (str "bbwm-" ++ join (str "-") (snd (snd st))))
  else None.

(** Three models that share one key of the diffusion model *)
Definition thetas_shared3 : model_set :=
  dict_of [ (model_a, dict_of [(str "model.diffusion_model.v", tensor_of [5]%Z)]);
            (model_b, dict_of [(str "model.diffusion_model.v", tensor_of [7]%Z)]);
            (model_c, dict_of [(str "model.diffusion_model.v", tensor_of [3]%Z)]) ].

Definition cfg_mode (m : MergeMode) (cosine : bool) : config :=
  mkConfig m cosine 0 (str "16") (str "safetensors").

Definition bases_alpha_beta : dict Q :=
  dict_of [(str "alpha", (1 # 2)%Q); (str "beta", 0%Q)].

(** Three models that share a key without [model] in it, for a best save at
    full precision in cosine mode *)
Definition thetas_scheduler3 : model_set :=
  dict_of [ (model_a, dict_of [(str "alphas_cumprod", tensor_of [1; 2]%Z)]);
            (model_b, dict_of [(str "alphas_cumprod", tensor_of [3; 4]%Z)]);
            (model_c, dict_of [(str "alphas_cumprod", tensor_of [5; 6]%Z)]) ].

Definition cfg_cosine_best32 : config :=
  mkConfig weighted_sum true 0 (str "32") (str "safetensors").

(** A mapping with a key under an alternate prefix, built by insertions *)
Definition dict_nai : dictobject (option tensor) :=
  inserted_only
    (dict_of [(str "cond_stage_model.transformer.encoder.w",
               Some (tensor_of [1]%Z));
              (str "x", Some (tensor_of [2]%Z))]).

(** A dictionary with a history: five insertions, which take the five slots
    of the first table, then the deletion of the first two keys *)
Definition dict_with_holes : dictobject (option tensor) :=
  fst (obj_delitem (str "b")
         (fst (obj_delitem (str "a")
                 (inserted_only
                    (dict_of [(str "a", Some (tensor_of [0]%Z));
                              (str "b", Some (tensor_of [0]%Z));
                              (str "cond_stage_model.transformer.encoder.w",
                               Some (tensor_of [1]%Z));
                              (str "cond_stage_model.transformer.encoder.v",
                               Some (tensor_of [2]%Z));
                              (str "x", Some (tensor_of [3]%Z))]))))).

(** * Properties *)

(** ** Strings *)

Lemma str_eqb_refl (a : pystr) : str_eqb a a = true.
Proof.
  induction a as [|x a IH]; simpl; auto.
  now rewrite Ascii.eqb_refl.
Qed.

Lemma str_eqb_eq (a b : pystr) : str_eqb a b = true <-> a = b.
Proof.
  split.
  - revert b; induction a as [|x a IH]; intros [|y b]; simpl; try discriminate; auto.
    intros E. apply andb_true_iff in E as [E1 E2].
    apply Ascii.eqb_eq in E1. subst y. f_equal. auto.
  - intros ->. apply str_eqb_refl.
Qed.

Lemma str_eqb_neq (a b : pystr) : str_eqb a b = false <-> a <> b.
Proof.
  split.
  - intros E Hab. apply str_eqb_eq in Hab. congruence.
  - intros N. destruct (str_eqb a b) eqn:E; auto.
    apply str_eqb_eq in E. contradiction.
Qed.

Lemma str_eqb_sym (a b : pystr) : str_eqb a b = str_eqb b a.
Proof.
  destruct (str_eqb a b) eqn:E.
  - apply str_eqb_eq in E. subst. symmetry. apply str_eqb_refl.
  - symmetry. apply str_eqb_neq. apply str_eqb_neq in E. congruence.
Qed.

Lemma startswith_spec (p s : pystr) :
  startswith p s = true <-> exists r, s = p ++ r.
Proof.
  revert s; induction p as [|a p IH]; intros s; simpl.
  - split; eauto.
  - destruct s as [|b s].
    + split; [discriminate | intros [r E]; discriminate].
    + rewrite andb_true_iff, Ascii.eqb_eq, IH. split.
      * intros [-> [r ->]]. eauto.
      * intros [r E]. injection E as -> ->. eauto.
Qed.

Lemma startswith_app (p r : pystr) : startswith p (p ++ r) = true.
Proof. apply startswith_spec. eauto. Qed.

Lemma contains_spec (p s : pystr) :
  contains p s = true <-> exists a b, s = a ++ p ++ b.
Proof.
  induction s as [|c s IH].
  - simpl. rewrite orb_false_r, startswith_spec. split.
    + intros [r E]. exists [], r. exact E.
    + intros [a [b E]]. destruct a; simpl in E.
      * eauto.
      * discriminate.
  - change (contains p (c :: s)) with (startswith p (c :: s) || contains p s).
    rewrite orb_true_iff, startswith_spec, IH. split.
    + intros [[r E] | [a [b E]]].
      * exists [], r. exact E.
      * exists (c :: a), b. simpl. now rewrite E.
    + intros [a [b E]]. destruct a as [|x a]; simpl in E.
      * left. eauto.
      * right. injection E as _ E. eauto.
Qed.

Lemma contains_trans (p q s : pystr) :
  contains p q = true -> contains q s = true -> contains p s = true.
Proof.
  rewrite !contains_spec. intros [a [b ->]] [a' [b' ->]].
  exists (a' ++ a), (b ++ b'). now rewrite <- !app_assoc.
Qed.

Lemma contains_sub_false (p q s : pystr) :
  contains p q = true -> contains p s = false -> contains q s = false.
Proof.
  intros Hpq Hps. destruct (contains q s) eqn:E; auto.
  rewrite (contains_trans _ _ _ Hpq E) in Hps. discriminate.
Qed.

(** *** Matches of the block patterns *)

Lemma span_digits_spec (s d r : pystr) :
  span_digits s = (d, r) ->
  s = d ++ r /\ forallb is_digit d = true /\
  match r with [] => True | c :: _ => is_digit c = false end.
Proof.
  revert d r; induction s as [|c s IH]; intros d r; simpl.
  - intros E. injection E as <- <-. auto.
  - destruct (is_digit c) eqn:Hc.
    + destruct (span_digits s) as [d' r'] eqn:E'. intros E. injection E as <- <-.
      destruct (IH _ _ eq_refl) as (-> & Hd & Hr). simpl. rewrite Hc. auto.
    + intros E. injection E as <- <-. simpl. rewrite Hc. auto.
Qed.

Lemma span_digits_run (ds post : pystr) :
  forallb is_digit ds = true ->
  span_digits (ds ++ "."%char :: post) = (ds, "."%char :: post).
Proof.
  induction ds as [|c ds IH]; simpl; intros Hd.
  - reflexivity.
  - apply andb_true_iff in Hd as [Hc Hd]. rewrite Hc, (IH Hd). reflexivity.
Qed.

Lemma skipn_length_app (lit r : pystr) : skipn (length lit) (lit ++ r) = r.
Proof. induction lit; simpl; auto. Qed.

Lemma match_block_at_spec (lit s : pystr) (n : Z) :
  match_block_at lit s = Some n <->
  exists ds, match_at lit s ds /\ n = int_of_digits ds.
Proof.
  unfold match_block_at, match_at, digit_run. split.
  - destruct (startswith lit s) eqn:Hs; [|discriminate].
    apply startswith_spec in Hs as [r ->]. rewrite skipn_length_app.
    destruct (span_digits r) as [d rest] eqn:E.
    apply span_digits_spec in E as (-> & Hd & _).
    destruct d as [|c d]; [discriminate|].
    destruct rest as [|x rest]; [discriminate|].
    destruct (Ascii.eqb x ".") eqn:Hx; [|discriminate].
    apply Ascii.eqb_eq in Hx. subst x. intros E. injection E as <-.
    exists (c :: d). repeat split; eauto. discriminate.
  - intros (ds & ((Hne & Hd) & post & ->) & ->).
    rewrite startswith_app, skipn_length_app, (span_digits_run _ _ Hd).
    destruct ds; [contradiction|]. reflexivity.
Qed.

Lemma match_block_at_none (lit s : pystr) :
  match_block_at lit s = None <-> forall ds, ~ match_at lit s ds.
Proof.
  split.
  - intros E ds M.
    assert (X : match_block_at lit s = Some (int_of_digits ds))
      by (apply match_block_at_spec; eauto).
    congruence.
  - intros N. destruct (match_block_at lit s) eqn:E; auto.
    apply match_block_at_spec in E as (ds & M & _). now apply N in M.
Qed.

Lemma match_at_group_unique (lit s ds ds' : pystr) :
  match_at lit s ds -> match_at lit s ds' -> ds = ds'.
Proof.
  intros [[_ Hd] [post E]] [[_ Hd'] [post' E']].
  rewrite E in E'. apply app_inv_head in E'.
  assert (X : span_digits (ds ++ "."%char :: post) = (ds, "."%char :: post))
    by now apply span_digits_run.
  rewrite E', (span_digits_run _ _ Hd') in X. congruence.
Qed.

Lemma re_search_none (lit key : pystr) :
  re_search lit key = None <-> no_match lit key.
Proof.
  unfold no_match. induction key as [|c key IH]; simpl.
  - destruct (match_block_at lit []) eqn:E.
    + split; [discriminate|]. intros N.
      apply match_block_at_spec in E as (ds & M & _).
      now apply (N [] [] ds) in M.
    + split; auto. intros _ pre s ds Hk M.
      symmetry in Hk. apply app_eq_nil in Hk as [-> ->].
      rewrite match_block_at_none in E. now apply E in M.
  - destruct (match_block_at lit (c :: key)) eqn:E.
    + split; [discriminate|]. intros N.
      apply match_block_at_spec in E as (ds & M & _).
      now apply (N [] (c :: key) ds) in M.
    + rewrite IH. rewrite match_block_at_none in E. split.
      * intros N pre s ds Hk M. destruct pre as [|x pre]; simpl in Hk.
        -- subst s. now apply E in M.
        -- injection Hk as _ Hk. now apply (N pre s ds).
      * intros N pre s ds Hk M. apply (N (c :: pre) s ds); simpl; congruence.
Qed.

Lemma re_search_first (lit key : pystr) (n : Z) :
  re_search lit key = Some n <->
  exists ds, first_match lit key ds /\ n = int_of_digits ds.
Proof.
  unfold first_match. revert n. induction key as [|c key IH]; intros n.
  - simpl. destruct (match_block_at lit []) eqn:E.
    + split.
      * intros X. injection X as <-.
        apply match_block_at_spec in E as (ds & M & ->).
        exists ds. split; auto. exists [], [].
        split; [reflexivity|]. split; [exact M|]. intros; simpl; lia.
      * intros (ds & (pre & s & Hk & M & _) & ->).
        symmetry in Hk. apply app_eq_nil in Hk as [-> ->].
        apply match_block_at_spec in E as (ds' & M' & ->).
        now rewrite (match_at_group_unique _ _ _ _ M M').
    + split; [discriminate|].
      intros (ds & (pre & s & Hk & M & _) & ->).
      symmetry in Hk. apply app_eq_nil in Hk as [-> ->].
      rewrite match_block_at_none in E. now apply E in M.
  - simpl. destruct (match_block_at lit (c :: key)) eqn:E.
    + split.
      * intros X. injection X as <-.
        apply match_block_at_spec in E as (ds & M & ->).
        exists ds. split; auto. exists [], (c :: key).
        split; [reflexivity|]. split; [exact M|]. intros; simpl; lia.
      * intros (ds & (pre & s & Hk & M & Hmin) & ->).
        apply match_block_at_spec in E as (ds' & M' & ->).
        specialize (Hmin [] (c :: key) ds' eq_refl M'). simpl in Hmin.
        destruct pre; [|simpl in Hmin; lia]. simpl in Hk. subst s.
        now rewrite (match_at_group_unique _ _ _ _ M M').
    + rewrite match_block_at_none in E. rewrite IH. split.
      * intros (ds & (pre & s & Hk & M & Hmin) & ->).
        exists ds. split; auto. exists (c :: pre), s. subst key.
        split; [reflexivity|]. split; [exact M|].
        intros pre' s' ds' Hk' M'. destruct pre' as [|x pre']; simpl in Hk'.
        -- subst s'. now apply E in M'.
        -- injection Hk' as _ Hk'. simpl. apply le_n_S. eauto.
      * intros (ds & (pre & s & Hk & M & Hmin) & ->).
        exists ds. split; auto. destruct pre as [|x pre]; simpl in Hk.
        -- subst s. now apply E in M.
        -- injection Hk as _ Hk. exists pre, s.
           split; [exact Hk|]. split; [exact M|].
           intros pre' s' ds' Hk' M'.
           specialize (Hmin (c :: pre') s' ds'). simpl in Hmin.
           apply le_S_n. apply Hmin; auto. now rewrite Hk'.
Qed.

(** ** Block indices *)

Lemma first_match_search (lit key ds : pystr) :
  first_match lit key ds -> re_search lit key = Some (int_of_digits ds).
Proof. intros M. apply re_search_first. eauto. Qed.

Lemma no_match_search (lit key : pystr) :
  no_match lit key -> re_search lit key = None.
Proof. apply re_search_none. Qed.

(** C4.  The block index of a key is a function of the key alone, computed by
    the first rule that applies, in this order: a key outside the diffusion
    model has no block and keeps the scalar coefficients [bases]; within the
    diffusion model, [time_embed] gives 0, [.out.] gives 24, the leftmost
    [.input_blocks.N.] gives N, a [.middle_block.N.] gives 12, the leftmost
    [.output_blocks.N.] gives 13 + N, and a key that matches nothing has no
    block ([-1]).  The index then selects the coefficients: 25 or more raises
    [ValueError], a block index takes the entry of every weight vector, no
    block keeps [bases]. *)
Theorem block_index_resolution
  (key : pystr) (weights : dict (list Q)) (bases : dict Q) :
  (contains (str "model.diffusion_model.") key = false ->
   select_bases key weights bases = Ok bases) /\
  (contains (str "time_embed") key = true -> weight_index key = 0%Z) /\
  (contains (str "time_embed") key = false ->
   contains (str ".out.") key = true -> weight_index key = 24%Z) /\
  (forall ds,
     contains (str "time_embed") key = false ->
     contains (str ".out.") key = false ->
     first_match (str ".input_blocks.") key ds ->
     weight_index key = int_of_digits ds) /\
  (forall ds,
     contains (str "time_embed") key = false ->
     contains (str ".out.") key = false ->
     no_match (str ".input_blocks.") key ->
     first_match (str ".middle_block.") key ds ->
     weight_index key = 12%Z) /\
  (forall ds,
     contains (str "time_embed") key = false ->
     contains (str ".out.") key = false ->
     no_match (str ".input_blocks.") key ->
     no_match (str ".middle_block.") key ->
     first_match (str ".output_blocks.") key ds ->
     weight_index key = (13 + int_of_digits ds)%Z) /\
  (contains (str "time_embed") key = false ->
   contains (str ".out.") key = false ->
   no_match (str ".input_blocks.") key ->
   no_match (str ".middle_block.") key ->
   no_match (str ".output_blocks.") key ->
   weight_index key = (-1)%Z) /\
  (contains (str "model.diffusion_model.") key = true ->
   select_bases key weights bases =
   if (25 <=? weight_index key)%Z
   then Raise (ValueError (str "illegal block index " ++ key))
   else if (0 <=? weight_index key)%Z
        then index_weights weights (weight_index key)
        else Ok bases).
Proof.
  unfold select_bases, weight_index.
  repeat split.
  - intros ->. reflexivity.
  - intros ->. reflexivity.
  - intros -> ->. reflexivity.
  - intros ds -> -> M. unfold re_inp. now rewrite (first_match_search _ _ _ M).
  - intros ds -> -> N M. unfold re_inp, re_mid.
    now rewrite (no_match_search _ _ N), (first_match_search _ _ _ M).
  - intros ds -> -> N1 N2 M. unfold re_inp, re_mid, re_out.
    now rewrite (no_match_search _ _ N1), (no_match_search _ _ N2),
      (first_match_search _ _ _ M).
  - intros -> -> N1 N2 N3. unfold re_inp, re_mid, re_out.
    now rewrite (no_match_search _ _ N1), (no_match_search _ _ N2),
      (no_match_search _ _ N3).
  - intros ->. rewrite !Z.geb_leb. reflexivity.
Qed.

Lemma search_first_match (lit key : pystr) (n : Z) :
  re_search lit key = Some n ->
  exists ds, first_match lit key ds /\ n = int_of_digits ds.
Proof. apply re_search_first. Qed.

Lemma block_index_resolution_witness :
  weight_index (str "model.diffusion_model.input_blocks.7.1.proj_in.weight") = 7%Z /\
  weight_index (str "model.diffusion_model.middle_block.0.in_layers.0.weight") = 12%Z /\
  weight_index (str "model.diffusion_model.output_blocks.3.0.in_layers.0.weight") = 16%Z /\
  weight_index (str "model.diffusion_model.time_embed.0.weight") = 0%Z /\
  weight_index (str "model.diffusion_model.out.2.weight") = 24%Z.
Proof.
  split; [|split; [|split; [|split]]].
  - destruct (search_first_match (str ".input_blocks.")
                (str "model.diffusion_model.input_blocks.7.1.proj_in.weight") 7
                eq_refl) as (ds & M & E).
    rewrite E.
    apply (proj1 (proj2 (proj2 (proj2 (block_index_resolution _ [] [])))) ds);
      [reflexivity | reflexivity | exact M].
  - destruct (search_first_match (str ".middle_block.")
                (str "model.diffusion_model.middle_block.0.in_layers.0.weight") 0
                eq_refl) as (ds & M & E).
    apply (proj1 (proj2 (proj2 (proj2 (proj2 (block_index_resolution _ [] []))))) ds);
      [reflexivity | reflexivity | now apply re_search_none | exact M].
  - destruct (search_first_match (str ".output_blocks.")
                (str "model.diffusion_model.output_blocks.3.0.in_layers.0.weight") 3
                eq_refl) as (ds & M & E).
    change 16%Z with (13 + 3)%Z. rewrite E.
    apply (proj1 (proj2 (proj2 (proj2 (proj2 (proj2 (block_index_resolution _ [] [])))))) ds);
      [reflexivity | reflexivity | now apply re_search_none
       | now apply re_search_none | exact M].
  - now apply (proj1 (proj2 (block_index_resolution _ [] []))).
  - now apply (proj1 (proj2 (proj2 (block_index_resolution _ [] [])))).
Defined.

(** ** The weighted sum *)

Lemma zip_with_maps (f g : Q -> Q) (x y : list Q) :
  zip_with Qplus (map f x) (map g y) =
  zip_with (fun a b => (f a + g b)%Q) x y.
Proof.
  revert y; induction x as [|a x IH]; intros [|b y]; simpl; auto.
  now rewrite IH.
Qed.

Lemma zip_with_left (f : Q -> Q -> Q) (x y : list Q) :
  length x = length y ->
  (forall a b, (f a b == a)%Q) ->
  Forall2 Qeq (zip_with f x y) x.
Proof.
  intros Hl Hf. revert y Hl; induction x as [|a x IH]; intros [|b y] Hl;
    simpl in *; try discriminate; constructor; auto.
Qed.

Lemma zip_with_right (f : Q -> Q -> Q) (x y : list Q) :
  length x = length y ->
  (forall a b, (f a b == b)%Q) ->
  Forall2 Qeq (zip_with f x y) y.
Proof.
  intros Hl Hf. revert y Hl; induction x as [|a x IH]; intros [|b y] Hl;
    simpl in *; try discriminate; constructor; auto.
Qed.

Lemma elementwise_same_size (f : Q -> Q -> Q) (x y : tensor) :
  length (t_data x) = length (t_data y) ->
  elementwise f x y =
  Ok (mkTensor (promote (t_dtype x) (t_dtype y))
               (zip_with f (t_data x) (t_data y))).
Proof.
  intros E. unfold elementwise. now rewrite E, Nat.eqb_refl.
Qed.

Ltac lookup H := unfold getitem; rewrite H; cbn [bind].

(** C1.  With [merge_mode] [weighted_sum] and [cosine_mode] off, for a key
    of model A and model B whose tensors [t0] and [t1] have the same size and
    for every [alpha], [merge_block] returns [(1 - alpha) * t0 + alpha * t1],
    value by value; at [alpha = 0] its values are those of [t0], at
    [alpha = 1] those of [t1]; and [merge_key], where it reaches the formula,
    returns that tensor narrowed to half precision by [narrow]. *)
Theorem weighted_sum_formula `{Kernels}
  (cfg : config) (current_bases : dict Q) (thetas : model_set) (key : pystr)
  (sims : option (list Q)) (a b : checkpoint) (t0 t1 : tensor) (alpha : Q) :
  cosine_mode cfg = false ->
  merge_mode cfg = weighted_sum ->
  dict_get model_a thetas = Some a -> dict_get key a = Some t0 ->
  dict_get model_b thetas = Some b -> dict_get key b = Some t1 ->
  dict_get (str "alpha") current_bases = Some alpha ->
  length (t_data t0) = length (t_data t1) ->
  exists merged,
    merge_block cfg current_bases thetas key sims = Ok (Some merged) /\
    tadd (smul (1 - alpha) t0) (smul alpha t1) = Ok merged /\
    t_data merged =
      zip_with (fun x y => ((1 - alpha) * x + alpha * y)%Q)
               (t_data t0) (t_data t1) /\
    ((alpha == 0)%Q -> teq merged t0) /\
    ((alpha == 1)%Q -> teq merged t1) /\
    (forall weights bases best,
       contains KEY_POSITION_IDS key && (skip_position_ids cfg =? 1)%Z = false ->
       contains KEY_POSITION_IDS key && (skip_position_ids cfg =? 2)%Z = false ->
       existsb (fun theta => negb (dict_mem key theta)) (dict_values thetas) = false ->
       select_bases key weights bases = Ok current_bases ->
       merge_key cfg key thetas weights bases best sims =
       Ok (Some (key, Some (narrow cfg best merged)), thetas)).
Proof.
  intros Hcos Hmode Ha Ht0 Hb Ht1 Halpha Hsize.
  assert (Hsum : tadd (smul (1 - alpha) t0) (smul alpha t1) =
                 Ok (mkTensor
                       (promote (t_dtype (smul (1 - alpha) t0))
                                (t_dtype (smul alpha t1)))
                       (zip_with (fun x y => ((1 - alpha) * x + alpha * y)%Q)
                                 (t_data t0) (t_data t1)))).
  { unfold tadd. rewrite elementwise_same_size.
    - simpl. now rewrite zip_with_maps.
    - simpl. now rewrite !length_map. }
  assert (Hblock : forall s, merge_block cfg current_bases thetas key s =
                        Ok (Some (mkTensor
                       (promote (t_dtype (smul (1 - alpha) t0))
                                (t_dtype (smul alpha t1)))
                       (zip_with (fun x y => ((1 - alpha) * x + alpha * y)%Q)
                                 (t_data t0) (t_data t1))))).
  { intros s. unfold merge_block. lookup Ha. lookup Ht0. lookup Hb. lookup Ht1.
    lookup Halpha. rewrite Hcos, Hmode. cbn [mode_eqb]. now rewrite Hsum. }
  eexists. split; [apply Hblock|]. split; [exact Hsum|].
  split; [reflexivity|]. split; [|split].
  - intros E0. unfold teq; simpl. apply zip_with_left; auto.
    intros x y. rewrite E0. ring.
  - intros E1. unfold teq; simpl. apply zip_with_right; auto.
    intros x y. rewrite E1. ring.
  - intros weights bases best S1 S2 Hall Hsel. unfold merge_key.
    rewrite S1, S2, Hall, Hsel. cbn [bind]. rewrite Hcos, Hblock. reflexivity.
Qed.

Lemma weighted_sum_formula_witness :
  exists merged,
    merge_block (H := exact_kernels) cfg_weighted_sum bases_half thetas_x
      (str "x") None = Ok (Some merged) /\
    t_data merged =
      zip_with (fun x y => ((1 - (1 # 2)) * x + (1 # 2) * y)%Q)
               [1%Q; 2%Q] [3%Q; 4%Q].
Proof.
  destruct (weighted_sum_formula (H := exact_kernels) cfg_weighted_sum
              bases_half thetas_x (str "x") None
              (dict_of [(str "x", tensor_of [1; 2]%Z)])
              (dict_of [(str "x", tensor_of [3; 4]%Z)])
              (tensor_of [1; 2]%Z) (tensor_of [3; 4]%Z) (1 # 2)%Q
              eq_refl eq_refl eq_refl eq_refl eq_refl eq_refl eq_refl eq_refl)
    as (merged & Hm & _ & Hd & _).
  exists merged. split; [exact Hm | exact Hd].
Defined.

(** ** The fall-through of the cosine weighted sum *)

(** C10.  In cosine mode with [merge_mode] [weighted_sum], for every key of
    model A and model B that does not contain [model], [merge_block] leaves
    the cosine branch without returning and reads [thetas["model_c"]]; the
    model set has no model C, so it raises [KeyError], and so does
    [merge_key] on a key that all the models have. *)
Theorem cosine_weighted_sum_falls_through `{Kernels}
  (cfg : config) (thetas : model_set) (key : pystr)
  (weights : dict (list Q)) (bases : dict Q) (best : bool)
  (sims : option (list Q)) (a b : checkpoint) (t0 t1 : tensor) (alpha : Q) :
  cosine_mode cfg = true ->
  merge_mode cfg = weighted_sum ->
  contains (str "model") key = false ->
  dict_get model_a thetas = Some a -> dict_get key a = Some t0 ->
  dict_get model_b thetas = Some b -> dict_get key b = Some t1 ->
  dict_get model_c thetas = None ->
  dict_get (str "alpha") bases = Some alpha ->
  existsb (fun theta => negb (dict_mem key theta)) (dict_values thetas) = false ->
  merge_block cfg bases thetas key sims = Raise (KeyError model_c) /\
  merge_key cfg key thetas weights bases best sims = Raise (KeyError model_c).
Proof.
  intros Hcos Hmode Hkey Ha Ht0 Hb Ht1 Hc Halpha Hall.
  assert (Hvae : contains (str "first_stage_model") key = false)
    by (apply (contains_sub_false (str "model")); [reflexivity | exact Hkey]).
  assert (Hpos : contains KEY_POSITION_IDS key = false)
    by (apply (contains_sub_false (str "model")); [reflexivity | exact Hkey]).
  assert (Hdiff : contains (str "model.diffusion_model.") key = false)
    by (apply (contains_sub_false (str "model")); [reflexivity | exact Hkey]).
  assert (Hblock : forall s, merge_block cfg bases thetas key s =
                             Raise (KeyError model_c)).
  { intros s. unfold merge_block. lookup Ha. lookup Ht0. lookup Hb. lookup Ht1.
    lookup Halpha. rewrite Hcos, Hmode, Hvae, Hkey. cbn [andb].
    unfold merge_block_rest. lookup Hc. reflexivity. }
  split; [apply Hblock|].
  unfold merge_key, select_bases. rewrite Hpos, Hall, Hdiff. cbn [andb bind].
  now rewrite Hblock.
Qed.

Lemma cosine_weighted_sum_falls_through_witness :
  merge_block (H := exact_kernels) cfg_cosine_weighted_sum bases_half
    thetas_scheduler (str "alphas_cumprod") (Some [1%Q]) =
  Raise (KeyError model_c) /\
  merge_key (H := exact_kernels) cfg_cosine_weighted_sum
    (str "alphas_cumprod") thetas_scheduler [] bases_half false (Some [1%Q]) =
  Raise (KeyError model_c).
Proof.
  apply (cosine_weighted_sum_falls_through (H := exact_kernels)
           cfg_cosine_weighted_sum thetas_scheduler (str "alphas_cumprod")
           [] bases_half false (Some [1%Q])
           (dict_of [(str "alphas_cumprod", tensor_of [1; 2]%Z)])
           (dict_of [(str "alphas_cumprod", tensor_of [3; 4]%Z)])
           (tensor_of [1; 2]%Z) (tensor_of [3; 4]%Z) (1 # 2)%Q);
    reflexivity.
Defined.

(** ** Trimming of the similarity samples *)

Lemma In_drop_nan (sims : list sample) (v : Q) :
  In v (drop_nan sims) <-> In (Fin v) sims.
Proof.
  induction sims as [|[|q] sims IH]; simpl.
  - tauto.
  - rewrite IH. split; auto. intros [E|I]; [discriminate | auto].
  - rewrite IH. split; intros [E|I]; auto; left; congruence.
Qed.

Lemma In_insert_sorted (x v : Q) (l : list Q) :
  In v (insert_sorted x l) <-> v = x \/ In v l.
Proof.
  induction l as [|y l IH]; simpl.
  - intuition.
  - destruct (Qle_bool x y); simpl; rewrite ?IH; intuition.
Qed.

Lemma In_sort_samples (v : Q) (l : list Q) :
  In v (sort_samples l) <-> In v l.
Proof.
  induction l as [|x l IH]; simpl.
  - tauto.
  - rewrite In_insert_sorted, IH. intuition.
Qed.

Lemma insert_sorted_Sorted (x : Q) (l : list Q) :
  Sorted Qle l -> Sorted Qle (insert_sorted x l).
Proof.
  induction l as [|y l IH]; simpl; intros S.
  - repeat constructor.
  - destruct (Qle_bool x y) eqn:E.
    + apply Qle_bool_iff in E. constructor; [exact S|]. now constructor.
    + assert (Hyx : (y <= x)%Q).
      { apply Qlt_le_weak, Qnot_le_lt. intros L.
        apply Qle_bool_iff in L. congruence. }
      inversion S as [|? ? S' Hd]; subst. constructor; auto.
      destruct l as [|z l]; simpl.
      * repeat constructor. exact Hyx.
      * inversion Hd; subst. destruct (Qle_bool x z); constructor; auto.
Qed.

Lemma sort_samples_Sorted (l : list Q) : Sorted Qle (sort_samples l).
Proof.
  induction l as [|x l IH]; simpl.
  - constructor.
  - now apply insert_sorted_Sorted.
Qed.

Lemma Sorted_adjacent (l : list Q) (d : Q) (i : nat) :
  Sorted Qle l -> (S i < length l)%nat ->
  (nth i l d <= nth (S i) l d)%Q.
Proof.
  intros S. revert i. induction S as [|x l S IH Hd]; intros i Hi.
  - simpl in Hi. lia.
  - destruct i as [|i].
    + destruct l as [|y l]; simpl in *; [lia|]. now inversion Hd.
    + simpl in Hi. change (nth i l d <= nth (Datatypes.S i) l d)%Q.
      apply IH. lia.
Qed.

(** A percentile lies between two of the values: here, below one of them. *)
Lemma percentile_below_some (l : list Q) (q : Z) :
  l <> [] -> (0 <= q <= 100)%Z ->
  exists p b, percentile l q = Ok p /\ In b l /\ (p <= b)%Q.
Proof.
  intros Hne Hq. unfold percentile.
  pose proof (sort_samples_Sorted l) as Hs.
  assert (Hin : forall v, In v (sort_samples l) -> In v l)
    by (intros v; apply In_sort_samples).
  destruct (sort_samples l) as [|x s] eqn:E.
  - destruct l as [|y l]; [contradiction|].
    assert (X : In y (sort_samples (y :: l)))
      by (apply In_sort_samples; now left).
    rewrite E in X. contradiction.
  - set (n := length (x :: s)).
    set (h := ((Z.of_nat n - 1) * q)%Z).
    assert (Hn : (1 <= n)%nat) by (subst n; simpl; lia).
    assert (Hh : (0 <= h <= 100 * (Z.of_nat n - 1))%Z) by (subst h; nia).
    destruct (h mod 100 =? 0)%Z eqn:Hm.
    + exists (nth (Z.to_nat (h / 100)) (x :: s) x), (nth (Z.to_nat (h / 100)) (x :: s) x).
      split; [reflexivity|]. split; [|apply Qle_refl].
      apply Hin, nth_In. fold n.
      assert ((h / 100 <= Z.of_nat n - 1)%Z)
        by (apply Z.div_le_upper_bound; lia).
      assert ((0 <= h / 100)%Z) by (apply Z.div_pos; lia).
      lia.
    + apply Z.eqb_neq in Hm.
      assert (Hlo : (0 <= h / 100 < Z.of_nat n - 1)%Z).
      { pose proof (Z.div_mod h 100 ltac:(lia)) as D.
        pose proof (Z.mod_pos_bound h 100 ltac:(lia)) as B.
        split; [apply Z.div_pos; lia | nia]. }
      assert (Hlt : (S (Z.to_nat (h / 100)) < n)%nat) by lia.
      eexists. exists (nth (S (Z.to_nat (h / 100))) (x :: s) x).
      split; [reflexivity|]. split.
      * apply Hin, nth_In. exact Hlt.
      * pose proof (Sorted_adjacent (x :: s) x _ Hs Hlt) as A.
        set (a := nth (Z.to_nat (h / 100)) (x :: s) x) in *.
        set (b := nth (S (Z.to_nat (h / 100))) (x :: s) x) in *.
        lra.
Qed.

Lemma not_below_iff (p v : Q) : negb (Qlt_bool v p) = true <-> (p <= v)%Q.
Proof.
  unfold Qlt_bool. rewrite negb_involutive. apply Qle_bool_iff.
Qed.

(** C6, as the code has it.  The sample set used for the normalisation is
    obtained from the collected similarity values by dropping every NaN,
    then removing every value below the 1st percentile of what is left, then
    removing every value above the 99th percentile of the values that
    survived the first removal (not of the original set); both percentiles
    use the midpoint interpolation.  On a sample set with a value that is not
    NaN both percentiles exist. *)
Theorem trim_sims_sequential (sims : list sample) :
  drop_nan sims <> [] ->
  exists p1 p99 trimmed,
    percentile (drop_nan sims) 1 = Ok p1 /\
    percentile (filter (fun v => negb (Qlt_bool v p1)) (drop_nan sims)) 99
      = Ok p99 /\
    trim_sims sims = Ok trimmed /\
    (forall v, In v (filter (fun v => negb (Qlt_bool v p1)) (drop_nan sims))
               <-> In (Fin v) sims /\ (p1 <= v)%Q) /\
    (forall v, In v trimmed <->
               In (Fin v) sims /\ (p1 <= v)%Q /\ (v <= p99)%Q).
Proof.
  intros Hne.
  destruct (percentile_below_some (drop_nan sims) 1 Hne ltac:(lia))
    as (p1 & b & Hp1 & Hb & Hle).
  set (s1 := filter (fun v => negb (Qlt_bool v p1)) (drop_nan sims)).
  assert (Hs1 : forall v, In v s1 <-> In (Fin v) sims /\ (p1 <= v)%Q).
  { intros v. unfold s1. now rewrite filter_In, In_drop_nan, not_below_iff. }
  assert (Hne1 : s1 <> []).
  { intros E. assert (X : In b s1) by (apply Hs1; rewrite <- In_drop_nan; auto).
    rewrite E in X. contradiction. }
  destruct (percentile_below_some s1 99 Hne1 ltac:(lia))
    as (p99 & b' & Hp99 & _ & _).
  exists p1, p99. eexists.
  split; [exact Hp1|]. split; [exact Hp99|].
  split; [unfold trim_sims; rewrite Hp1; cbn [bind]; fold s1;
          rewrite Hp99; reflexivity|].
  split; [exact Hs1|].
  intros v. rewrite filter_In, Hs1, not_below_iff. tauto.
Qed.

Lemma trim_sims_sequential_witness :
  exists p1 p99 trimmed,
    percentile (drop_nan [Fin 0; NaN; Fin 1; Fin 2; Fin 3]) 1 = Ok p1 /\
    percentile (filter (fun v => negb (Qlt_bool v p1))
                  (drop_nan [Fin 0; NaN; Fin 1; Fin 2; Fin 3])) 99 = Ok p99 /\
    trim_sims [Fin 0; NaN; Fin 1; Fin 2; Fin 3] = Ok trimmed.
Proof.
  destruct (trim_sims_sequential [Fin 0; NaN; Fin 1; Fin 2; Fin 3])
    as (p1 & p99 & trimmed & H1 & H2 & H3 & _).
  - simpl. discriminate.
  - exists p1, p99, trimmed. auto.
Defined.

(** C6 as stated fails: on the samples 0 and 1 the code keeps 1, which is
    above the 99th percentile (one half) of the original set. *)
Lemma trim_sims_differs_from_specified :
  trim_sims [Fin 0; Fin 1] = Ok [1%Q] /\
  trim_sims_as_specified [Fin 0; Fin 1] = Ok [] /\
  percentile [0%Q; 1%Q] 99 = Ok (1 - (1 - 0) * (1 - (1 # 2)))%Q /\
  trim_sims [Fin 0; Fin 1] <> trim_sims_as_specified [Fin 0; Fin 1].
Proof.
  repeat split; try reflexivity. discriminate.
Qed.

(** ** Output files *)

Lemma file_exists_In (p : pystr) (fs : filesystem) :
  file_exists p fs = true <-> In p fs.
Proof.
  unfold file_exists. rewrite existsb_exists. split.
  - intros (x & I & E). apply str_eqb_eq in E. now subst.
  - intros I. exists p. split; auto. apply str_eqb_refl.
Qed.

Lemma file_exists_unlink (p q : pystr) (fs fs' : filesystem) :
  unlink q fs = Ok fs' ->
  file_exists p fs' = negb (str_eqb q p) && file_exists p fs.
Proof.
  unfold unlink. destruct (file_exists q fs); [|discriminate].
  intros E. injection E as <-.
  apply eq_true_iff_eq.
  rewrite andb_true_iff, !file_exists_In, filter_In. tauto.
Qed.

Lemma file_exists_write (p q : pystr) (fs : filesystem) :
  file_exists p (write_file q fs) = str_eqb q p || file_exists p fs.
Proof.
  apply eq_true_iff_eq. unfold write_file.
  rewrite orb_true_iff, str_eqb_eq.
  destruct (file_exists q fs) eqn:E.
  - split; auto. intros [<-|X]; auto.
  - rewrite !file_exists_In. simpl. tauto.
Qed.





(** ** Dictionaries *)

Section DictFacts.

Context {V : Type}.

Implicit Types (d : dict V) (k : pystr) (v : V).

Lemma dict_mem_get k d : dict_mem k d = true <-> exists v, dict_get k d = Some v.
Proof.
  unfold dict_mem. destruct (dict_get k d); split; eauto; try discriminate.
  intros [v E]. discriminate.
Qed.

Lemma dict_mem_false k d : dict_mem k d = false <-> dict_get k d = None.
Proof.
  unfold dict_mem. destruct (dict_get k d); split; auto; discriminate.
Qed.

Lemma dict_get_app k d d' :
  dict_get k (d ++ d') =
  match dict_get k d with Some v => Some v | None => dict_get k d' end.
Proof.
  induction d as [|[[k' v']|] d IH]; simpl; auto.
  destruct (str_eqb k k'); auto.
Qed.

Lemma dict_get_update k k' v d :
  dict_get k' (dict_update k v d) =
  if str_eqb k' k then option_map (fun _ => v) (dict_get k d)
  else dict_get k' d.
Proof.
  induction d as [|[[k0 v0]|] d IH]; simpl.
  - now destruct (str_eqb k' k).
  - destruct (str_eqb k k0) eqn:E; simpl.
    + apply str_eqb_eq in E. subst k0. now destruct (str_eqb k' k).
    + destruct (str_eqb k' k0) eqn:E'.
      * apply str_eqb_eq in E'. subst k0. rewrite str_eqb_sym in E.
        now rewrite E.
      * exact IH.
  - exact IH.
Qed.

Lemma dict_get_setitem k k' v d :
  dict_get k' (setitem k v d) = if str_eqb k' k then Some v else dict_get k' d.
Proof.
  unfold setitem. destruct (dict_mem k d) eqn:M.
  - rewrite dict_get_update. apply dict_mem_get in M as [v0 E].
    now rewrite E.
  - apply dict_mem_false in M. rewrite dict_get_app. simpl.
    destruct (str_eqb k' k) eqn:E.
    + apply str_eqb_eq in E. subst k'. now rewrite M.
    + now destruct (dict_get k' d).
Qed.

Lemma dict_mem_setitem k k' v d :
  dict_mem k' (setitem k v d) = str_eqb k' k || dict_mem k' d.
Proof.
  unfold dict_mem at 1. rewrite dict_get_setitem.
  destruct (str_eqb k' k); reflexivity.
Qed.

Lemma dict_items_update k v d :
  dict_keys (dict_update k v d) = dict_keys d.
Proof.
  unfold dict_keys. induction d as [|[[k0 v0]|] d IH]; simpl; auto.
  destruct (str_eqb k k0); simpl; congruence.
Qed.

Lemma dict_keys_In k d : In k (dict_keys d) <-> dict_mem k d = true.
Proof.
  unfold dict_keys, dict_mem. induction d as [|[[k0 v0]|] d IH]; simpl.
  - split; [tauto | discriminate].
  - destruct (str_eqb k k0) eqn:E.
    + apply str_eqb_eq in E. subst k0. tauto.
    + apply str_eqb_neq in E. rewrite <- IH. split.
      * intros [X|X]; auto. congruence.
      * auto.
  - exact IH.
Qed.

End DictFacts.

(** ** Stage 3 *)

Section Stage3Facts.

Context `{Kernels}.

Variable cfg : config.
Variable b : checkpoint.
Variable best : bool.

Lemma stage3_step_get (x : pystr) (m : state_dict) :
  In x (dict_keys b) ->
  exists m1,
    stage3_step cfg b best x m = Ok m1 /\
    forall k, dict_get k m1 =
              match dict_get k m with
              | Some t => Some t
              | None => if str_eqb k x
                        then option_map Some (stage3_value cfg b best x)
                        else None
              end.
Proof.
  intros Hx. apply dict_keys_In, dict_mem_get in Hx as [tb Hb].
  unfold stage3_step, stage3_value.
  destruct (contains (str "model") x) eqn:Hm; cbn [andb].
  2:{ exists m. split; auto. intros k.
      destruct (dict_get k m); auto. now destruct (str_eqb k x). }
  destruct (dict_mem x m) eqn:Hin; cbn [negb].
  { exists m. split; auto. intros k. destruct (dict_get k m) eqn:E; auto.
    destruct (str_eqb k x) eqn:Ek; auto.
    apply str_eqb_eq in Ek. subst k. apply dict_mem_false in E. congruence. }
  assert (Hset : forall v k,
             dict_get k (setitem x v m) =
             match dict_get k m with
             | Some t => Some t
             | None => if str_eqb k x then Some v else None
             end).
  { intros v k. rewrite dict_get_setitem. destruct (str_eqb k x) eqn:Ek.
    - apply str_eqb_eq in Ek. subst k. apply dict_mem_false in Hin.
      now rewrite Hin.
    - now destruct (dict_get k m). }
  assert (Hstore : forall t,
    exists m1,
      (let m1 := setitem x (Some t) m in
       if negb best || str_eqb (best_precision cfg) (str "16")
       then v <- getitem x m1 ;; h <- value_half v ;; Ok (setitem x h m1)
       else Ok m1) = Ok m1 /\
      forall k, dict_get k m1 =
                match dict_get k m with
                | Some t' => Some t'
                | None => if str_eqb k x
                          then Some (Some (narrow cfg best t)) else None
                end).
  { intros t. cbv zeta. unfold narrow.
    destruct (negb best || str_eqb (best_precision cfg) (str "16")).
    - unfold getitem. rewrite dict_get_setitem, str_eqb_refl.
      cbn [bind value_half].
      eexists. split; [reflexivity|]. intros k.
      rewrite dict_get_setitem. destruct (str_eqb k x) eqn:Ek.
      + apply str_eqb_eq in Ek. subst k. apply dict_mem_false in Hin.
        now rewrite Hin.
      + rewrite dict_get_setitem, Ek. now destruct (dict_get k m).
    - eexists. split; [reflexivity|]. apply Hset. }
  destruct (contains KEY_POSITION_IDS x && (skip_position_ids cfg =? 1)%Z).
  { exists m. split; auto. intros k.
    destruct (dict_get k m); auto. now destruct (str_eqb k x). }
  destruct (contains KEY_POSITION_IDS x && (skip_position_ids cfg =? 2)%Z).
  { apply Hstore. }
  unfold getitem at 1. rewrite Hb. cbn [bind option_map]. apply Hstore.
Qed.

Lemma stage3_loop (ks : list pystr) (m : state_dict) :
  (forall k, In k ks -> In k (dict_keys b)) ->
  exists out,
    for_each ks (stage3_step cfg b best) m = Ok out /\
    forall k, dict_get k out =
              match dict_get k m with
              | Some t => Some t
              | None => if existsb (str_eqb k) ks
                        then option_map Some (stage3_value cfg b best k)
                        else None
              end.
Proof.
  revert m. induction ks as [|x ks IH]; intros m Hks.
  - exists m. split; auto. intros k. now destruct (dict_get k m).
  - destruct (stage3_step_get x m (Hks x (or_introl eq_refl))) as (m1 & E1 & G1).
    destruct (IH m1 (fun k I => Hks k (or_intror I))) as (out & E & G).
    exists out. split.
    + simpl. rewrite E1. exact E.
    + intros k. rewrite G, G1. simpl.
      destruct (dict_get k m); auto.
      destruct (str_eqb k x) eqn:Ek; auto.
      apply str_eqb_eq in Ek. subst k.
      destruct (stage3_value cfg b best x); auto.
      now destruct (existsb (str_eqb x) ks).
Qed.

End Stage3Facts.

(** C7, as the code has it.  After stage 3, a key of model B that the output
    mapping of stage 2 did not have is in the mapping if and only if it
    contains [model] (any key with that substring, not only the keys of the
    diffusion model) and is not a position-ids key under
    [skip_position_ids = 1]; its tensor is then model B's, narrowed to half
    precision by [narrow], or the regenerated sequence under
    [skip_position_ids = 2] for a position-ids key.  The keys that stage 2
    produced keep their tensors. *)
Theorem stage3_adds_model_keys `{Kernels}
  (cfg : config) (thetas : model_set) (b : checkpoint) (best : bool)
  (merged : state_dict) (key : pystr) (tb : tensor) :
  dict_get model_b thetas = Some b ->
  dict_get key b = Some tb ->
  dict_mem key merged = false ->
  exists out,
    stage3 cfg thetas best merged = Ok out /\
    (forall k, dict_mem k merged = true -> dict_get k out = dict_get k merged) /\
    (dict_mem key out = true <->
     contains (str "model") key = true /\
     contains KEY_POSITION_IDS key && (skip_position_ids cfg =? 1)%Z = false) /\
    (forall v, dict_get key out = Some v ->
       v = Some (narrow cfg best
                   (if contains KEY_POSITION_IDS key &&
                       (skip_position_ids cfg =? 2)%Z
                    then position_ids_tensor else tb))).
Proof.
  intros Hb Hkey Hnew.
  destruct (stage3_loop cfg b best (dict_keys b) merged (fun k I => I))
    as (out & E & G).
  exists out. split; [unfold stage3; lookup Hb; exact E|].
  assert (Hin : existsb (str_eqb key) (dict_keys b) = true).
  { apply existsb_exists. exists key. split; [|apply str_eqb_refl].
    apply dict_keys_In, dict_mem_get. eauto. }
  assert (Hout : dict_get key out =
                 option_map Some (stage3_value cfg b best key)).
  { rewrite G. apply dict_mem_false in Hnew. now rewrite Hnew, Hin. }
  split; [|split].
  - intros k Hk. rewrite G. apply dict_mem_get in Hk as [t ->]. reflexivity.
  - unfold dict_mem. rewrite Hout. unfold stage3_value. rewrite Hkey.
    destruct (contains (str "model") key); [|split; [discriminate | intros [? _]; discriminate]].
    destruct (contains KEY_POSITION_IDS key && (skip_position_ids cfg =? 1)%Z);
      [split; [discriminate | intros [_ ?]; discriminate]|].
    destruct (contains KEY_POSITION_IDS key && (skip_position_ids cfg =? 2)%Z);
      simpl; tauto.
  - intros t. rewrite Hout. unfold stage3_value. rewrite Hkey.
    destruct (contains (str "model") key); [|discriminate].
    destruct (contains KEY_POSITION_IDS key && (skip_position_ids cfg =? 1)%Z);
      [discriminate|].
    destruct (contains KEY_POSITION_IDS key && (skip_position_ids cfg =? 2)%Z);
      simpl; congruence.
Qed.

Lemma stage3_adds_model_keys_witness :
  exists out,
    stage3 (H := exact_kernels) cfg_weighted_sum thetas_vae false
      (dict_of [(str "x", Some (tensor_of [2; 3]%Z))]) = Ok out /\
    (dict_mem (str "first_stage_model.decoder.w") out = true <->
     contains (str "model") (str "first_stage_model.decoder.w") = true /\
     contains KEY_POSITION_IDS (str "first_stage_model.decoder.w") &&
       (skip_position_ids cfg_weighted_sum =? 1)%Z = false).
Proof.
  destruct (stage3_adds_model_keys (H := exact_kernels) cfg_weighted_sum
              thetas_vae
              (dict_of [(str "x", tensor_of [3; 4]%Z);
                        (str "first_stage_model.decoder.w", tensor_of [9]%Z)])
              false (dict_of [(str "x", Some (tensor_of [2; 3]%Z))])
              (str "first_stage_model.decoder.w") (tensor_of [9]%Z)
              eq_refl eq_refl eq_refl)
    as (out & Hs & _ & Hiff & _).
  exists out. split; [exact Hs | exact Hiff].
Defined.

(** C7 as stated fails: a VAE key that only model B has does not contain the
    marker of the diffusion model and is in the saved mapping all the same. *)
Lemma stage3_adds_key_outside_diffusion_model :
  contains (str "model.diffusion_model.") (str "first_stage_model.decoder.w")
    = false /\
  (exists th, stage2 (H := exact_kernels) cfg_weighted_sum thetas_vae []
                bases_half false None = Ok (th, thetas_vae) /\
              dict_mem (str "first_stage_model.decoder.w") th = false) /\
  exists out,
    merge (H := exact_kernels) cfg_weighted_sum thetas_vae [] bases_half false
      = Ok out /\
    dict_get (str "first_stage_model.decoder.w") out
      = Some (Some (mkTensor Float16 [9%Q])).
Proof.
  split; [reflexivity|]. split.
  - eexists. split; vm_compute; reflexivity.
  - eexists. split; vm_compute; reflexivity.
Qed.

(** ** Stage 0 *)

Lemma dict_keys_setitem_mem {V : Type} (k : pystr) (v : V) (d : dict V) :
  dict_mem k d = true -> dict_keys (setitem k v d) = dict_keys d.
Proof.
  intros M. unfold setitem. rewrite M. apply dict_items_update.
Qed.

Lemma dict_get_remove {V : Type} (k k' : pystr) (d : dict V) :
  NoDup (dict_keys d) ->
  dict_get k' (dict_remove k d) =
  if str_eqb k' k then None else dict_get k' d.
Proof.
  unfold dict_keys. induction d as [|[[k0 v0]|] d IH]; simpl; intros ND.
  - now destruct (str_eqb k' k).
  - inversion ND as [|? ? Hnotin ND']; subst.
    destruct (str_eqb k k0) eqn:E; simpl.
    + apply str_eqb_eq in E. subst k0.
      destruct (str_eqb k' k) eqn:E'; auto.
      apply str_eqb_eq in E'. subst k'.
      apply dict_mem_false. destruct (dict_mem k d) eqn:M; auto.
      apply dict_keys_In in M. contradiction.
    + destruct (str_eqb k' k0) eqn:E0.
      * apply str_eqb_eq in E0. subst k0. rewrite str_eqb_sym in E.
        now rewrite E.
      * now apply IH.
  - now apply IH.
Qed.

Lemma model_b_not_c : str_eqb model_c model_b = false.
Proof. reflexivity. Qed.

Section Stage0Facts.

Variable c : checkpoint.

Lemma stage0_loop (ks : list pystr) (th : model_set) (bcur : checkpoint) :
  dict_get model_b th = Some bcur ->
  dict_get model_c th = Some c ->
  NoDup ks ->
  (forall k, In k ks ->
     exists tb v, dict_get k bcur = Some tb /\ stage0_value c k tb = Ok v) ->
  exists th' b',
    for_each ks stage0_step th = Ok th' /\
    dict_get model_b th' = Some b' /\
    dict_get model_c th' = Some c /\
    (forall r, r <> model_b -> dict_get r th' = dict_get r th) /\
    dict_keys th' = dict_keys th /\
    dict_keys b' = dict_keys bcur /\
    forall k tb,
      dict_get k bcur = Some tb ->
      if existsb (str_eqb k) ks
      then exists v, stage0_value c k tb = Ok v /\ dict_get k b' = Some v
      else dict_get k b' = Some tb.
Proof.
  revert th bcur. induction ks as [|x ks IH]; intros th bcur Hb Hc ND Hok.
  - exists th, bcur. repeat split; auto.
  - inversion ND as [|? ? Hx ND']; subst.
    destruct (Hok x (or_introl eq_refl)) as (tb & v & Hxb & Hv).
    assert (Hstep : stage0_step x th = Ok (setitem model_b (setitem x v bcur) th)
                    \/ (stage0_step x th = Ok th /\ v = tb)).
    { unfold stage0_step. unfold stage0_value in Hv.
      destruct (contains (str "model") x).
      - left. lookup Hc. unfold dict_mem. destruct (dict_get x c) as [t2|].
        + lookup Hb. lookup Hxb. rewrite Hv. reflexivity.
        + lookup Hb. lookup Hxb. congruence.
      - right. split; congruence. }
    assert (Hmem : dict_mem x bcur = true) by (apply dict_mem_get; eauto).
    assert (Hmemb : dict_mem model_b th = true) by (apply dict_mem_get; eauto).
    assert (Hrest : forall b1,
               (forall k, k <> x -> dict_get k b1 = dict_get k bcur) ->
               forall k, In k ks ->
               exists tb v, dict_get k b1 = Some tb /\ stage0_value c k tb = Ok v).
    { intros b1 Hb1 k Hk. rewrite Hb1 by (intros ->; contradiction).
      apply Hok. now right. }
    assert (Hnx : existsb (str_eqb x) ks = false).
    { destruct (existsb (str_eqb x) ks) eqn:E; auto.
      apply existsb_exists in E as (y & Hy & Ey). apply str_eqb_eq in Ey.
      subst y. contradiction. }
    destruct Hstep as [Hstep | [Hstep ->]].
    + destruct (IH (setitem model_b (setitem x v bcur) th) (setitem x v bcur))
        as (th' & b' & E & Gb & Gc & Gr & Kt & Kb & Gk); auto.
      * now rewrite dict_get_setitem, str_eqb_refl.
      * now rewrite dict_get_setitem, model_b_not_c.
      * apply Hrest. intros k Hk. rewrite dict_get_setitem.
        apply str_eqb_neq in Hk. now rewrite Hk.
      * exists th', b'. split; [simpl; rewrite Hstep; exact E|].
        split; [exact Gb|]. split; [exact Gc|]. split; [|split; [|split]].
        -- intros r Hr. rewrite Gr by auto. rewrite dict_get_setitem.
           apply str_eqb_neq in Hr. now rewrite Hr.
        -- rewrite Kt. now apply dict_keys_setitem_mem.
        -- rewrite Kb. now apply dict_keys_setitem_mem.
        -- intros k tk Hk. simpl. destruct (str_eqb k x) eqn:Ek; simpl.
           ++ apply str_eqb_eq in Ek. subst k.
              assert (tk = tb) by congruence. subst tk.
              exists v. split; auto.
              specialize (Gk x v). rewrite dict_get_setitem, str_eqb_refl in Gk.
              specialize (Gk eq_refl). now rewrite Hnx in Gk.
           ++ specialize (Gk k tk). rewrite dict_get_setitem, Ek in Gk.
              exact (Gk Hk).
    + destruct (IH th bcur Hb Hc ND' (fun k Hk => Hok k (or_intror Hk)))
        as (th' & b' & E & Gb & Gc & Gr & Kt & Kb & Gk).
      exists th', b'. split; [simpl; rewrite Hstep; exact E|].
      repeat (split; [assumption|]).
      intros k tk Hk. simpl. destruct (str_eqb k x) eqn:Ek; simpl.
      * apply str_eqb_eq in Ek. subst k.
        assert (tk = tb) by congruence. subst tk.
        exists tb. split; auto.
        specialize (Gk x tb Hxb). now rewrite Hnx in Gk.
      * exact (Gk k tk Hk).
Qed.

End Stage0Facts.

(** C3, as the code has it.  In cosine mode with [add_difference], stage 0
    replaces, for every key of model B that contains [model], model B's
    tensor by model B's minus model C's when model C has the key, and by the
    zero tensor of its shape when model C lacks the key; the other tensors of
    model B and the other models are left as they are, and afterwards model C
    is out of the model set.  The tensors of a key that B and C share are
    taken to have the same size. *)
Theorem stage0_subtracts_model_c
  (thetas : model_set) (b c : checkpoint) :
  NoDup (dict_keys thetas) ->
  NoDup (dict_keys b) ->
  dict_get model_b thetas = Some b ->
  dict_get model_c thetas = Some c ->
  (forall k tb tc, dict_get k b = Some tb -> dict_get k c = Some tc ->
                   length (t_data tb) = length (t_data tc)) ->
  exists thetas' b',
    stage0 thetas = Ok thetas' /\
    dict_mem model_c thetas' = false /\
    dict_get model_b thetas' = Some b' /\
    (forall r, r <> model_b -> r <> model_c ->
               dict_get r thetas' = dict_get r thetas) /\
    dict_keys b' = dict_keys b /\
    forall k tb,
      dict_get k b = Some tb ->
      (contains (str "model") k = false -> dict_get k b' = Some tb) /\
      (contains (str "model") k = true ->
       forall tc, dict_get k c = Some tc ->
         dict_get k b' =
         Some (mkTensor (promote (t_dtype tb) (t_dtype tc))
                        (zip_with Qminus (t_data tb) (t_data tc)))) /\
      (contains (str "model") k = true -> dict_get k c = None ->
       dict_get k b' = Some (zeros_like tb)).
Proof.
  intros NDt NDb Hb Hc Hsize.
  assert (Hval : forall k tb, dict_get k b = Some tb ->
                   exists v, stage0_value c k tb = Ok v).
  { intros k tb Hk. unfold stage0_value.
    destruct (contains (str "model") k); eauto.
    destruct (dict_get k c) as [tc|] eqn:Ec; eauto.
    unfold tsub. rewrite elementwise_same_size by eauto. eauto. }
  destruct (stage0_loop c (dict_keys b) thetas b Hb Hc NDb)
    as (th' & b' & E & Gb & Gc & Gr & Kt & Kb & Gk).
  { intros k Hk. apply dict_keys_In, dict_mem_get in Hk as [tb Hk].
    destruct (Hval k tb Hk) as [v Hv]. eauto. }
  assert (ND' : NoDup (dict_keys th')) by now rewrite Kt.
  exists (dict_remove model_c th'), b'.
  split.
  { unfold stage0. lookup Hb. rewrite E. cbn [bind]. unfold delitem.
    replace (dict_mem model_c th') with true; auto.
    symmetry. apply dict_mem_get. eauto. }
  split.
  { apply dict_mem_false. rewrite dict_get_remove by auto.
    now rewrite str_eqb_refl. }
  split.
  { rewrite dict_get_remove by auto. now rewrite str_eqb_sym, model_b_not_c. }
  split.
  { intros r Hr1 Hr2. rewrite dict_get_remove by auto.
    apply str_eqb_neq in Hr2. rewrite Hr2. now apply Gr. }
  split; [exact Kb|].
  intros k tb Hk. specialize (Gk k tb Hk).
  assert (Hin : existsb (str_eqb k) (dict_keys b) = true).
  { apply existsb_exists. exists k. split; [|apply str_eqb_refl].
    apply dict_keys_In, dict_mem_get. eauto. }
  rewrite Hin in Gk. destruct Gk as (v & Hv & Hg). unfold stage0_value in Hv.
  split; [|split].
  - intros Hm. rewrite Hm in Hv. congruence.
  - intros Hm tc Htc. rewrite Hm, Htc in Hv. unfold tsub in Hv.
    rewrite elementwise_same_size in Hv by eauto. congruence.
  - intros Hm Hnone. rewrite Hm, Hnone in Hv. congruence.
Qed.

Lemma stage0_subtracts_model_c_witness :
  exists thetas' b',
    stage0 thetas_abc = Ok thetas' /\
    dict_mem model_c thetas' = false /\
    dict_get model_b thetas' = Some b' /\
    dict_get (str "model.diffusion_model.v") b' =
      Some (mkTensor Float32 (zip_with Qminus [7%Q] [3%Q])).
Proof.
  destruct (stage0_subtracts_model_c thetas_abc
              (dict_of [(str "model.diffusion_model.w", tensor_of [1; 2]%Z);
                        (str "model.diffusion_model.v", tensor_of [7]%Z)])
              (dict_of [(str "model.diffusion_model.v", tensor_of [3]%Z)]))
    as (thetas' & b' & Hs & Hc & Hb & _ & _ & Hk).
  - repeat constructor; simpl; intuition discriminate.
  - repeat constructor; simpl; intuition discriminate.
  - reflexivity.
  - reflexivity.
  - intros k tb tc. simpl.
    match goal with
    | |- context [str_eqb k ?w] => destruct (str_eqb k w) eqn:Ew
    end.
    + apply str_eqb_eq in Ew. subst k. simpl. discriminate.
    + match goal with
      | |- context [str_eqb k ?v] => destruct (str_eqb k v)
      end; [|discriminate].
      intros E1 E2. injection E1 as <-. injection E2 as <-. reflexivity.
  - exists thetas', b'. split; [exact Hs|]. split; [exact Hc|].
    split; [exact Hb|].
    destruct (Hk (str "model.diffusion_model.v") (tensor_of [7]%Z) eq_refl)
      as (_ & Hsub & _).
    exact (Hsub eq_refl (tensor_of [3]%Z) eq_refl).
Defined.

(** C3 as stated fails: for a key that model C lacks, stage 0 does not leave
    model B's tensor (itself minus zero) but replaces it by zeros. *)
Lemma stage0_zeroes_key_missing_in_model_c :
  dict_get (str "model.diffusion_model.w")
    (dict_of [(str "model.diffusion_model.v", tensor_of [3]%Z)]) = None /\
  exists thetas' b',
    stage0 thetas_abc = Ok thetas' /\
    dict_get model_b thetas' = Some b' /\
    dict_get (str "model.diffusion_model.w") b' = Some (tensor_of [0; 0]%Z) /\
    ~ teq (tensor_of [0; 0]%Z) (tensor_of [1; 2]%Z).
Proof.
  split; [reflexivity|].
  eexists. eexists. split; [vm_compute; reflexivity|].
  split; [reflexivity|]. split; [reflexivity|].
  unfold teq. simpl. intros X. inversion X as [|? ? ? ? E _]; subst.
  discriminate E.
Qed.

(** ** The per-key merge and stage 2 *)

Lemma bind_Ok {A B : Type} (m : result A) (f : A -> result B) (b : B) :
  bind m f = Ok b -> exists a, m = Ok a /\ f a = Ok b.
Proof. destruct m; simpl; [eauto | discriminate]. Qed.

Section MergeKeyFacts.

Context `{Kernels}.

Variable cfg : config.
Variable weights : dict (list Q).
Variable bases : dict Q.
Variable best : bool.
Variable sims : option (list Q).

(** Only the regeneration of the position ids assigns to the models. *)
Lemma merge_key_same_thetas (key : pystr) (th th' : model_set)
  (r : option (pystr * option tensor)) :
  contains KEY_POSITION_IDS key && (skip_position_ids cfg =? 2)%Z = false ->
  merge_key cfg key th weights bases best sims = Ok (r, th') -> th' = th.
Proof.
  intros H2 E. unfold merge_key in E. rewrite H2 in E.
  destruct (contains KEY_POSITION_IDS key && (skip_position_ids cfg =? 1)%Z).
  - apply bind_Ok in E as (a & _ & E). apply bind_Ok in E as (t & _ & E).
    congruence.
  - destruct (existsb _ _); [congruence|].
    apply bind_Ok in E as (cb & _ & E). apply bind_Ok in E as (merged & _ & E).
    destruct merged; [congruence|].
    destruct (negb best || _); congruence.
Qed.

Lemma merge_key_skip1 (key : pystr) (th : model_set) (a : checkpoint)
  (t : tensor) :
  contains KEY_POSITION_IDS key && (skip_position_ids cfg =? 1)%Z = true ->
  dict_get model_a th = Some a -> dict_get key a = Some t ->
  merge_key cfg key th weights bases best sims =
  Ok (Some (key, Some (narrow cfg best t)), th).
Proof.
  intros H1 Ha Ht. unfold merge_key. rewrite H1. lookup Ha. lookup Ht.
  reflexivity.
Qed.

Lemma stage2_loop_skip1 (thetas : model_set) (key : pystr)
  (v : option tensor) (ks : list pystr) (m m' : state_dict)
  (th' : model_set) :
  skip_position_ids cfg = 1%Z ->
  merge_key cfg key thetas weights bases best sims = Ok (Some (key, v), thetas) ->
  for_each ks (stage2_step cfg weights bases best sims) (m, thetas)
    = Ok (m', th') ->
  dict_get key m' =
  if existsb (str_eqb key) ks then Some v else dict_get key m.
Proof.
  intros Hskip Hkey. revert m. induction ks as [|x ks IH]; intros m E.
  - simpl in E. injection E as <- _. reflexivity.
  - simpl in E. apply bind_Ok in E as ([m1 th1] & E0 & E).
    unfold stage2_step in E0. cbn [fst snd] in E0.
    apply bind_Ok in E0 as ([r th2] & E1 & E0). cbn [fst snd] in E0.
    assert (th2 = thetas).
    { eapply merge_key_same_thetas; [|exact E1]. rewrite Hskip.
      now rewrite andb_false_r. }
    subst th2.
    assert (th1 = thetas) by (destruct r; congruence). subst th1.
    rewrite (IH _ E). simpl. destruct (str_eqb key x) eqn:Ex.
    + apply str_eqb_eq in Ex. subst x. rewrite Hkey in E1.
      injection E1 as <-. cbn [snd] in E0. injection E0 as <-.
      rewrite dict_get_setitem, str_eqb_refl.
      now destruct (existsb (str_eqb key) ks).
    + destruct r as [res|]; injection E0 as <-; auto.
      now rewrite dict_get_setitem, Ex.
Qed.

End MergeKeyFacts.

(** C2, as the code has it.  With [skip_position_ids = 1], for a key that
    contains the name of the position ids and that model A has, the per-key
    merge returns model A's tensor, narrowed to half precision by [narrow]
    (left as it is only for a best save whose precision is not 16), whatever
    model B, the weights and the merge mode are, and that is the tensor of the
    key in the output mapping of stage 2. *)
Theorem skip_position_ids_keeps_model_a `{Kernels}
  (cfg : config) (key : pystr) (thetas : model_set)
  (weights : dict (list Q)) (bases : dict Q) (best : bool)
  (sims : option (list Q)) (a : checkpoint) (t : tensor) :
  skip_position_ids cfg = 1%Z ->
  contains KEY_POSITION_IDS key = true ->
  dict_get model_a thetas = Some a ->
  dict_get key a = Some t ->
  merge_key cfg key thetas weights bases best sims =
    Ok (Some (key, Some (narrow cfg best t)), thetas) /\
  (best = true -> str_eqb (best_precision cfg) (str "16") = false ->
   narrow cfg best t = t) /\
  forall merged thetas',
    stage2 cfg thetas weights bases best sims = Ok (merged, thetas') ->
    dict_get key merged = Some (Some (narrow cfg best t)).
Proof.
  intros Hskip Hpos Ha Ht.
  assert (Hk : merge_key cfg key thetas weights bases best sims =
               Ok (Some (key, Some (narrow cfg best t)), thetas)).
  { apply (merge_key_skip1 cfg weights bases best sims key thetas a t); auto.
    now rewrite Hpos, Hskip. }
  split; [exact Hk|]. split.
  - intros -> Hp. unfold narrow. now rewrite Hp.
  - intros merged thetas' E. unfold stage2 in E.
    unfold getitem in E. rewrite Ha in E. cbn [bind] in E.
    rewrite (stage2_loop_skip1 cfg weights bases best sims thetas key _ _ _ _ _
               Hskip Hk E).
    replace (existsb (str_eqb key) (dict_keys a)) with true; auto.
    symmetry. apply existsb_exists. exists key. split; [|apply str_eqb_refl].
    apply dict_keys_In, dict_mem_get. eauto.
Qed.

Lemma skip_position_ids_keeps_model_a_witness :
  merge_key (H := exact_kernels) cfg_skip1 KEY_POSITION_IDS thetas_position_ids
    [] bases_half true None =
  Ok (Some (KEY_POSITION_IDS,
            Some (narrow (H := exact_kernels) cfg_skip1 true
                    (mkTensor Int64 [5%Q; 6%Q]))),
      thetas_position_ids).
Proof.
  apply (skip_position_ids_keeps_model_a (H := exact_kernels) cfg_skip1
           KEY_POSITION_IDS thetas_position_ids [] bases_half true None
           (dict_of [(KEY_POSITION_IDS, mkTensor Int64 [5%Q; 6%Q])])
           (mkTensor Int64 [5%Q; 6%Q]));
    reflexivity.
Defined.

(** C2 as stated fails: with [skip_position_ids = 1] and a best save at full
    precision, the mapping that [merge] hands to be saved holds the
    regenerated sequence 0..76 under the canonical key, not model A's
    tensor: [fix_clip] overwrites it. *)
Lemma saved_position_ids_are_regenerated :
  dict_get KEY_POSITION_IDS
    (dict_of [(KEY_POSITION_IDS, mkTensor Int64 [5%Q; 6%Q])])
    = Some (mkTensor Int64 [5%Q; 6%Q]) /\
  exists out,
    merge (H := exact_kernels) cfg_skip1 thetas_position_ids [] bases_half true
      = Ok out /\
    dict_get KEY_POSITION_IDS out = Some (Some position_ids_tensor) /\
    dict_get KEY_POSITION_IDS out <> Some (Some (mkTensor Int64 [5%Q; 6%Q])).
Proof.
  split; [reflexivity|].
  eexists. split; [vm_compute; reflexivity|].
  split; [reflexivity|]. discriminate.
Qed.

(** *** Keys that a model lacks *)

Lemma getitem_Ok {V : Type} (k : pystr) (d : dict V) (v : V) :
  getitem k d = Ok v <-> dict_get k d = Some v.
Proof.
  unfold getitem. destruct (dict_get k d); split; congruence.
Qed.

Lemma dict_get_find {V : Type} (k : pystr) (d : dict V) :
  dict_get k d =
  option_map snd (find (fun kv => str_eqb k (fst kv)) (dict_items d)).
Proof.
  induction d as [|[[k0 v0]|] d IH]; simpl; auto.
  now destruct (str_eqb k k0).
Qed.

Lemma same_model_trans (l1 l2 l3 : list (pystr * checkpoint)) :
  Forall2 same_model l1 l2 -> Forall2 same_model l2 l3 ->
  Forall2 same_model l1 l3.
Proof.
  intros R12. revert l3.
  induction R12 as [|x y l1 l2 [Hf Hm] R IH]; intros l3 R23.
  - inversion R23. constructor.
  - inversion R23 as [|? z ? l3' [Hf' Hm'] R']; subst.
    constructor; auto.
    split; [congruence|]. intros k. now rewrite Hm, Hm'.
Qed.

Lemma same_keys_refl (th : model_set) : same_keys th th.
Proof.
  unfold same_keys. induction (dict_items th); constructor; auto.
  split; auto.
Qed.

Lemma same_keys_trans (th1 th2 th3 : model_set) :
  same_keys th1 th2 -> same_keys th2 th3 -> same_keys th1 th3.
Proof. apply same_model_trans. Qed.

Lemma same_keys_lacking (key : pystr) (th th' : model_set) :
  same_keys th th' ->
  existsb (fun theta => negb (dict_mem key theta)) (dict_values th') =
  existsb (fun theta => negb (dict_mem key theta)) (dict_values th).
Proof.
  unfold same_keys, dict_values.
  induction 1 as [|x y l l' [_ Hm] R IH]; simpl; auto.
  now rewrite IH, Hm.
Qed.

Lemma same_keys_get (r : pystr) (th th' : model_set) (a : checkpoint) :
  same_keys th th' -> dict_get r th = Some a ->
  exists a', dict_get r th' = Some a' /\
             forall k, dict_mem k a = dict_mem k a'.
Proof.
  unfold same_keys. rewrite !dict_get_find.
  induction 1 as [|x y l l' [Hf Hm] R IH]; simpl.
  - discriminate.
  - rewrite <- Hf. destruct (str_eqb r (fst x)).
    + simpl. intros E. injection E as <-. eauto.
    + exact IH.
Qed.

Lemma same_keys_update (r : pystr) (th : model_set) (a a' : checkpoint) :
  dict_get r th = Some a ->
  (forall k, dict_mem k a = dict_mem k a') ->
  same_keys th (setitem r a' th).
Proof.
  intros Hr Hm. unfold setitem.
  replace (dict_mem r th) with true by (symmetry; apply dict_mem_get; eauto).
  unfold same_keys. revert Hr.
  induction th as [|[[k0 v0]|] th IH]; simpl.
  - discriminate.
  - destruct (str_eqb r k0) eqn:E.
    + intros X. injection X as ->. simpl. constructor.
      * split; auto.
      * apply (same_keys_refl th).
    + intros X. simpl. constructor; [split; auto | auto].
  - exact IH.
Qed.

Section SkippedKeys.

Context `{Kernels}.

Variable cfg : config.
Variable weights : dict (list Q).
Variable bases : dict Q.
Variable best : bool.
Variable sims : option (list Q).

Lemma merge_key_same_keys (key : pystr) (th th' : model_set)
  (r : option (pystr * option tensor)) :
  (forall a, dict_get model_a th = Some a -> dict_mem key a = true) ->
  merge_key cfg key th weights bases best sims = Ok (r, th') ->
  same_keys th th'.
Proof.
  intros Hin E.
  destruct (contains KEY_POSITION_IDS key && (skip_position_ids cfg =? 2)%Z)
    eqn:H2.
  2:{ rewrite (merge_key_same_thetas cfg weights bases best sims _ _ _ _ H2 E).
      apply same_keys_refl. }
  unfold merge_key in E. rewrite H2 in E.
  destruct (contains KEY_POSITION_IDS key && (skip_position_ids cfg =? 1)%Z).
  - apply bind_Ok in E as (a & _ & E). apply bind_Ok in E as (t & _ & E).
    injection E as _ <-. apply same_keys_refl.
  - apply bind_Ok in E as (a & Ha & E). cbv zeta in E.
    apply bind_Ok in E as (a' & _ & E). apply bind_Ok in E as (t & _ & E).
    injection E as _ <-. apply getitem_Ok in Ha.
    apply (same_keys_update model_a th a); auto.
    intros k. rewrite dict_mem_setitem.
    destruct (str_eqb k key) eqn:Ek; auto.
    apply str_eqb_eq in Ek. subst k. now rewrite (Hin a Ha).
Qed.

Lemma merge_key_skips (key : pystr) (th : model_set) :
  contains KEY_POSITION_IDS key && (skip_position_ids cfg =? 1)%Z = false ->
  contains KEY_POSITION_IDS key && (skip_position_ids cfg =? 2)%Z = false ->
  existsb (fun theta => negb (dict_mem key theta)) (dict_values th) = true ->
  merge_key cfg key th weights bases best sims = Ok (None, th).
Proof.
  intros H1 H2 Hl. unfold merge_key. now rewrite H1, H2, Hl.
Qed.

Lemma stage2_loop_skips (thetas : model_set) (a : checkpoint) (key : pystr) :
  contains KEY_POSITION_IDS key && (skip_position_ids cfg =? 1)%Z = false ->
  contains KEY_POSITION_IDS key && (skip_position_ids cfg =? 2)%Z = false ->
  existsb (fun theta => negb (dict_mem key theta)) (dict_values thetas) = true ->
  dict_get model_a thetas = Some a ->
  forall (ks : list pystr) (m : state_dict) (th : model_set)
         (m' : state_dict) (th' : model_set),
    same_keys thetas th ->
    (forall k, In k ks -> dict_mem k a = true) ->
    dict_mem key m = false ->
    for_each ks (stage2_step cfg weights bases best sims) (m, th)
      = Ok (m', th') ->
    dict_mem key m' = false.
Proof.
  intros H1 H2 Hl Ha. induction ks as [|x ks IH]; intros m th m' th' R Hks Hm E.
  - simpl in E. now injection E as <- _.
  - simpl in E. apply bind_Ok in E as ([m1 th1] & E0 & E).
    unfold stage2_step in E0. cbn [fst snd] in E0.
    apply bind_Ok in E0 as ([r th2] & E1 & E0). cbn [fst snd] in E0.
    assert (R2 : same_keys th th2).
    { apply (merge_key_same_keys x th th2 r); auto.
      intros a' Ha'. destruct (same_keys_get model_a _ _ _ R Ha) as (a'' & G & Hmem).
      assert (a'' = a') by congruence. subst a''.
      rewrite <- Hmem. apply Hks. now left. }
    assert (Hm1 : dict_mem key m1 = false /\ th1 = th2).
    { destruct (str_eqb key x) eqn:Ex.
      - apply str_eqb_eq in Ex. subst x.
        rewrite merge_key_skips in E1; auto.
        + injection E1 as <- <-. injection E0 as <- <-. auto.
        + now rewrite (same_keys_lacking key _ _ R).
      - destruct r as [res|]; injection E0 as <- <-; auto.
        split; auto. now rewrite dict_mem_setitem, Ex. }
    destruct Hm1 as [Hm1 ->].
    apply (IH m1 th2 m' th'); auto.
    + now apply (same_keys_trans _ th).
    + intros k Hk. apply Hks. now right.
Qed.

End SkippedKeys.

(** C5, as the code has it.  A key of model A that some model of the model
    set of stage 2 lacks (model C is no longer in it after stage 0) gives no
    result in the per-key merge, raises nothing, and is not in the output
    mapping of stage 2, unless it is a position-ids key and
    [skip_position_ids] is 1 or 2: that special case comes first and does
    not look at the other models. *)
Theorem missing_key_is_skipped `{Kernels}
  (cfg : config) (thetas : model_set) (a : checkpoint) (key : pystr)
  (weights : dict (list Q)) (bases : dict Q) (best : bool)
  (sims : option (list Q)) :
  dict_get model_a thetas = Some a ->
  dict_mem key a = true ->
  existsb (fun theta => negb (dict_mem key theta)) (dict_values thetas) = true ->
  contains KEY_POSITION_IDS key && (skip_position_ids cfg =? 1)%Z = false ->
  contains KEY_POSITION_IDS key && (skip_position_ids cfg =? 2)%Z = false ->
  merge_key cfg key thetas weights bases best sims = Ok (None, thetas) /\
  forall merged thetas',
    stage2 cfg thetas weights bases best sims = Ok (merged, thetas') ->
    dict_mem key merged = false.
Proof.
  intros Ha Hkey Hl H1 H2. split.
  - now apply merge_key_skips.
  - intros merged thetas' E. unfold stage2 in E.
    unfold getitem in E. rewrite Ha in E. cbn [bind] in E.
    apply (stage2_loop_skips cfg weights bases best sims thetas a key
             H1 H2 Hl Ha (dict_keys a) [] thetas merged thetas'); auto.
    + apply same_keys_refl.
    + intros k. apply dict_keys_In.
Qed.

Lemma missing_key_is_skipped_witness :
  merge_key (H := exact_kernels) cfg_weighted_sum
    (str "first_stage_model.decoder.w")
    (dict_of [ (model_a, dict_of [(str "first_stage_model.decoder.w",
                                   tensor_of [9]%Z)]);
               (model_b, dict_of [(str "x", tensor_of [3; 4]%Z)]) ])
    [] bases_half false None =
  Ok (None,
      dict_of [ (model_a, dict_of [(str "first_stage_model.decoder.w",
                                    tensor_of [9]%Z)]);
                (model_b, dict_of [(str "x", tensor_of [3; 4]%Z)]) ]).
Proof.
  apply (missing_key_is_skipped (H := exact_kernels) cfg_weighted_sum
           (dict_of [ (model_a, dict_of [(str "first_stage_model.decoder.w",
                                          tensor_of [9]%Z)]);
                      (model_b, dict_of [(str "x", tensor_of [3; 4]%Z)]) ])
           (dict_of [(str "first_stage_model.decoder.w", tensor_of [9]%Z)])
           (str "first_stage_model.decoder.w") [] bases_half false None);
    reflexivity.
Defined.

(** C5 as stated fails: with [skip_position_ids = 1] the position-ids key of
    model A gives a result and is in the output mapping of stage 2 although
    model B lacks it. *)
Lemma position_ids_key_is_not_skipped :
  dict_mem KEY_POSITION_IDS
    (dict_of [(KEY_POSITION_IDS, mkTensor Int64 [5%Q; 6%Q])]) = true /\
  dict_mem KEY_POSITION_IDS (dict_of [(str "x", tensor_of [3; 4]%Z)]) = false /\
  merge_key (H := exact_kernels) cfg_skip1 KEY_POSITION_IDS
    thetas_position_ids_a [] bases_half true None =
  Ok (Some (KEY_POSITION_IDS, Some (mkTensor Int64 [5%Q; 6%Q])),
      thetas_position_ids_a) /\
  exists merged,
    stage2 (H := exact_kernels) cfg_skip1 thetas_position_ids_a [] bases_half
      true None = Ok (merged, thetas_position_ids_a) /\
    dict_mem KEY_POSITION_IDS merged = true.
Proof.
  split; [reflexivity|]. split; [reflexivity|]. split; [reflexivity|].
  eexists. split; vm_compute; reflexivity.
Qed.

(** ** The key fixes *)

Section IteratorFacts.

Context {V : Type}.

Implicit Types (d : dict V) (k : pystr) (v : V).

Lemma dict_len_keys d : dict_len d = length (dict_keys d).
Proof. unfold dict_len, dict_keys. now rewrite length_map. Qed.

Lemma dict_len_update k v d : dict_len (dict_update k v d) = dict_len d.
Proof. now rewrite !dict_len_keys, dict_items_update. Qed.

Lemma dict_len_app d d' : dict_len (d ++ d') = (dict_len d + dict_len d')%nat.
Proof.
  unfold dict_len. induction d as [|[kv|] d IH]; simpl; auto.
Qed.

Lemma live_from_0 d : live_from 0 d = dict_len d.
Proof. reflexivity. Qed.

Lemma live_from_update p k v d :
  live_from p (dict_update k v d) = live_from p d.
Proof.
  unfold live_from. revert p. induction d as [|[[k0 v0]|] d IH]; intros p.
  - reflexivity.
  - destruct p as [|p].
    + apply dict_len_update.
    + simpl. destruct (str_eqb k k0); simpl; auto.
  - destruct p as [|p].
    + apply dict_len_update.
    + simpl. apply IH.
Qed.

Lemma live_from_app p d kv :
  (p <= length d)%nat ->
  live_from p (d ++ [Some kv]) = S (live_from p d).
Proof.
  intros Hp. unfold live_from. rewrite skipn_app.
  replace (p - length d)%nat with 0%nat by lia. simpl.
  rewrite dict_len_app. simpl. unfold dict_len at 2. simpl. lia.
Qed.

Lemma key_at_length d i k : key_at d i k -> (i < length d)%nat.
Proof.
  intros [v E]. apply nth_error_Some. congruence.
Qed.

Lemma key_at_mem d i k : key_at d i k -> dict_mem k d = true.
Proof.
  intros [v E]. apply dict_keys_In. unfold dict_keys.
  revert i E. induction d as [|[[k0 v0]|] d IH]; intros [|i] E; simpl in *;
    try discriminate; eauto.
  injection E as -> ->. now left.
Qed.

Lemma key_at_update d i k k' v :
  key_at (dict_update k' v d) i k <-> key_at d i k.
Proof.
  unfold key_at. revert i. induction d as [|[[k0 v0]|] d IH]; intros i; simpl.
  - tauto.
  - destruct (str_eqb k' k0) eqn:E.
    + destruct i as [|i]; simpl; [|tauto].
      split; intros [w X]; injection X as -> _; eauto.
    + destruct i as [|i]; simpl; [tauto | apply IH].
  - destruct i as [|i]; simpl; [tauto | apply IH].
Qed.

Lemma key_at_app d d' i k : key_at d i k -> key_at (d ++ d') i k.
Proof.
  intros [v E]. exists v. rewrite nth_error_app1; auto.
  apply nth_error_Some. congruence.
Qed.

Lemma key_at_setitem d i k k' v : key_at d i k -> key_at (setitem k' v d) i k.
Proof.
  intros K. unfold setitem. destruct (dict_mem k' d).
  - now apply key_at_update.
  - now apply key_at_app.
Qed.

Lemma skipn_remove d i k :
  key_at d i k -> skipn (S i) (dict_remove k d) = skipn (S i) d.
Proof.
  intros [v E]. revert i E.
  induction d as [|[[k0 v0]|] d IH]; intros [|i] E; simpl in *;
    try discriminate.
  - injection E as -> ->. now rewrite str_eqb_refl.
  - destruct (str_eqb k k0); [reflexivity|]. apply (IH i E).
  - apply (IH i E).
Qed.

Lemma live_from_remove d i k :
  key_at d i k -> live_from (S i) (dict_remove k d) = live_from (S i) d.
Proof.
  intros K. unfold live_from. now rewrite skipn_remove.
Qed.

Lemma dict_len_remove d k :
  dict_mem k d = true -> S (dict_len (dict_remove k d)) = dict_len d.
Proof.
  unfold dict_mem, dict_len.
  induction d as [|[[k0 v0]|] d IH]; simpl; try discriminate.
  - destruct (str_eqb k k0); simpl; auto.
  - exact IH.
Qed.

Lemma next_entry_None pos d :
  next_entry pos d = None <-> live_from pos d = 0%nat.
Proof.
  unfold live_from, dict_len. revert pos.
  induction d as [|[[k0 v0]|] d IH]; intros [|pos]; simpl; try tauto.
  - split; discriminate.
  - rewrite <- IH. destruct (next_entry pos d) as [[i k]|];
      split; congruence.
  - rewrite <- (IH 0%nat). destruct (next_entry 0 d) as [[i k]|];
      split; congruence.
  - rewrite <- IH. destruct (next_entry pos d) as [[i k]|];
      split; congruence.
Qed.

Lemma next_entry_Some pos d i k :
  next_entry pos d = Some (i, k) ->
  (pos <= i)%nat /\ key_at d i k /\
  live_from pos d = S (live_from (S i) d) /\
  forall j k', (pos <= j < i)%nat -> ~ key_at d j k'.
Proof.
  unfold live_from, dict_len, key_at. revert pos i.
  induction d as [|e d IH]; intros pos i; simpl; [discriminate|].
  destruct pos as [|pos].
  - destruct e as [[k0 v0]|].
    + intros E. injection E as <- <-. simpl.
      repeat split; eauto. intros j k' Hj. lia.
    + destruct (next_entry 0 d) as [[i' k']|] eqn:E'; [|discriminate].
      intros E. injection E as <- <-.
      destruct (IH _ _ E') as (_ & K & L & F). simpl.
      repeat split; auto; try lia.
      intros [|j] k'' Hj [w X]; simpl in X; [discriminate|].
      apply (F j k''); eauto. lia.
  - destruct (next_entry pos d) as [[i' k']|] eqn:E'; [|discriminate].
    intros E. injection E as <- <-.
    destruct (IH _ _ E') as (Hle & K & L & F). simpl.
    repeat split; auto; try lia.
    intros [|j] k'' Hj [w X]; [lia|]. simpl in X.
    apply (F j k''); eauto. lia.
Qed.

Lemma live_from_positive pos d i k :
  (pos <= i)%nat -> key_at d i k -> (0 < live_from pos d)%nat.
Proof.
  intros Hle K. destruct (next_entry pos d) as [[j k']|] eqn:E.
  - apply next_entry_Some in E as (_ & _ & L & _). lia.
  - exfalso. unfold live_from, dict_len, key_at in *.
    apply next_entry_None in E. unfold live_from, dict_len in E.
    destruct K as [v X]. revert pos i Hle X E.
    induction d as [|e d IH]; intros pos [|i] Hle X E; simpl in *;
      try discriminate.
    + assert (pos = 0%nat) by lia. subst. injection X as ->. discriminate.
    + destruct pos as [|pos]; simpl in E.
      * destruct e; [discriminate|]. apply (IH 0%nat i); auto. lia.
      * apply (IH pos i); auto. lia.
Qed.

Lemma key_at_unique d i k k' : key_at d i k -> key_at d i k' -> k = k'.
Proof. intros [v E] [v' E']. congruence. Qed.

End IteratorFacts.

Lemma bind_ret {A : Type} (m : result A) : (x <- m ;; Ok x) = m.
Proof. now destruct m. Qed.

(** No key starts with two of the prefixes of [NAI_KEYS]. *)
Lemma nai_prefixes_exclusive (key : pystr) :
  (startswith (str "cond_stage_model.transformer.embeddings.") key = true ->
   startswith (str "cond_stage_model.transformer.encoder.") key = false /\
   startswith (str "cond_stage_model.transformer.final_layer_norm.") key = false) /\
  (startswith (str "cond_stage_model.transformer.encoder.") key = true ->
   startswith (str "cond_stage_model.transformer.final_layer_norm.") key = false).
Proof.
  split; intros S; apply startswith_spec in S as [r ->]; repeat split.
Qed.

(** *** The dictionary object *)

Section ObjectFacts.

Context {V : Type}.

Implicit Types (d : dict V) (o : dictobject V) (k : pystr) (v : V).

Lemma dict_items_compact d : dict_items (compact d) = dict_items d.
Proof.
  unfold compact. induction (dict_items d) as [|kv l IH]; simpl; congruence.
Qed.

Lemma dict_get_compact k d : dict_get k (compact d) = dict_get k d.
Proof. now rewrite !dict_get_find, dict_items_compact. Qed.

Lemma dict_mem_compact k d : dict_mem k (compact d) = dict_mem k d.
Proof. unfold dict_mem. now rewrite dict_get_compact. Qed.

Lemma dict_keys_compact d : dict_keys (compact d) = dict_keys d.
Proof. unfold dict_keys. now rewrite dict_items_compact. Qed.

Lemma dict_len_compact d : dict_len (compact d) = dict_len d.
Proof. unfold dict_len. now rewrite dict_items_compact. Qed.

Lemma length_compact d : length (compact d) = dict_len d.
Proof. unfold compact, dict_len. apply length_map. Qed.

Lemma hole_free_compact d : hole_free (compact d) = true.
Proof. unfold compact, hole_free. induction (dict_items d); simpl; auto. Qed.

Lemma hole_free_length d : hole_free d = true -> dict_len d = length d.
Proof.
  unfold hole_free, dict_len.
  induction d as [|[kv|] d IH]; simpl; intros E;
    [reflexivity | f_equal; auto | discriminate].
Qed.

Lemma hole_free_skipn p d :
  hole_free d = true -> hole_free (skipn p d) = true.
Proof.
  unfold hole_free. revert p.
  induction d as [|e d IH]; intros [|p] E; simpl in *; auto.
  apply IH. now apply andb_true_iff in E as [_ E].
Qed.

Lemma hole_free_skipn_le p q d :
  (p <= q)%nat -> hole_free (skipn p d) = true ->
  hole_free (skipn q d) = true.
Proof.
  intros L E. replace q with ((q - p) + p)%nat by lia.
  rewrite <- skipn_skipn. now apply hole_free_skipn.
Qed.

Lemma hole_free_app d d' : hole_free (d ++ d') = hole_free d && hole_free d'.
Proof. apply forallb_app. Qed.

Lemma hole_free_update k v d : hole_free (dict_update k v d) = hole_free d.
Proof.
  unfold hole_free. induction d as [|[[k0 v0]|] d IH]; simpl; auto.
  destruct (str_eqb k k0); simpl; auto.
Qed.

Lemma hole_free_setitem k v d :
  hole_free d = true -> hole_free (setitem k v d) = true.
Proof.
  intros E. unfold setitem. destruct (dict_mem k d).
  - now rewrite hole_free_update.
  - rewrite hole_free_app, E. reflexivity.
Qed.

Lemma dict_len_le d : (dict_len d <= length d)%nat.
Proof. unfold dict_len. induction d as [|[kv|] d IH]; simpl; lia. Qed.

Lemma length_remove k d : length (dict_remove k d) = length d.
Proof.
  induction d as [|[[k0 v0]|] d IH]; simpl; auto.
  destruct (str_eqb k k0); simpl; auto.
Qed.

Lemma key_at_compact d i k :
  key_at d i k -> exists j, (j <= i)%nat /\ key_at (compact d) j k.
Proof.
  unfold key_at, compact. revert i.
  induction d as [|[[k0 v0]|] d IH]; intros [|i] [v E]; simpl in *;
    try discriminate.
  - injection E as -> ->. exists 0%nat. split; [lia|]. exists v. reflexivity.
  - destruct (IH i (ex_intro _ v E)) as (j & L & w & X).
    exists (S j). split; [lia|]. exists w. exact X.
  - destruct (IH i (ex_intro _ v E)) as (j & L & X).
    exists j. split; [lia | exact X].
Qed.

Lemma skipn_remove_le d i j k :
  key_at d j k -> (j <= i)%nat ->
  skipn (S i) (dict_remove k d) = skipn (S i) d.
Proof.
  intros K L. replace (S i) with ((i - j) + S j)%nat by lia.
  rewrite <- !skipn_skipn. now rewrite skipn_remove.
Qed.

(** The entries after [insertdict]: those of [setitem], on the entries
    without their holes when the key is new and no slot is free *)
Lemma insertdict_entries k v o :
  dk_entries (insertdict k v o) =
  setitem k v (if negb (dict_mem k (dk_entries o)) && (dk_usable o =? 0)%nat
               then compact (dk_entries o) else dk_entries o).
Proof.
  unfold insertdict, setitem.
  destruct (dict_mem k (dk_entries o)) eqn:M; cbn [negb andb dk_entries].
  - now rewrite M.
  - destruct (dk_usable o =? 0)%nat; unfold dictresize; cbn [dk_entries].
    + now rewrite dict_mem_compact, M.
    + now rewrite M.
Qed.

Lemma dict_get_insertdict k k' v o :
  dict_get k (dk_entries (insertdict k' v o)) =
  if str_eqb k k' then Some v else dict_get k (dk_entries o).
Proof.
  rewrite insertdict_entries, dict_get_setitem.
  destruct (str_eqb k k'); auto.
  destruct (_ && _); auto using dict_get_compact.
Qed.

(** [inserted_only] is the dictionary that insertions build: inserting new
    keys one after the other into [{}] gives the entries in their order,
    with [usable_after] free slots. *)
Lemma inserted_only_insertions (l : list (pystr * V)) :
  NoDup (map fst l) ->
  fold_left (fun o kv => insertdict (fst kv) (snd kv) o) l (mkDict [] 0) =
  inserted_only (map Some l).
Proof.
  induction l as [|[k v] l IH] using rev_ind; intros ND; [reflexivity|].
  rewrite map_app in ND. apply NoDup_remove in ND as [ND Hk].
  rewrite app_nil_r in ND, Hk. rewrite fold_left_app, (IH ND).
  cbn [fold_left fst snd]. unfold insertdict, inserted_only. cbn [dk_entries dk_usable].
  assert (I : dict_items (map Some l) = l)
    by (clear; induction l as [|x l IH]; simpl; congruence).
  replace (dict_mem k (map Some l)) with false.
  2:{ symmetry. apply not_true_is_false. intros M.
      apply dict_keys_In in M. unfold dict_keys in M. now rewrite I in M. }
  rewrite map_app, !length_app, !length_map. cbn [map length].
  replace (length l + 1)%nat with (S (length l)) by lia.
  cbn [usable_after].
  destruct (usable_after (length l) =? 0)%nat; [|reflexivity].
  unfold dictresize, compact, dict_len. cbn [dk_entries dk_usable].
  now rewrite I.
Qed.

Lemma and_then_id (r : outcome V) (f : dictobject V -> outcome V) :
  (forall o, f o = (o, None)) -> and_then r f = r.
Proof.
  intros F. destruct r as [o [e|]]; unfold and_then; cbn [fst snd]; auto.
Qed.

Lemma and_then_None o (f : dictobject V -> outcome V) :
  and_then (o, None) f = f o.
Proof. reflexivity. Qed.

(** [fix_key] leaves the dictionary as it is for a key without a prefix of
    [NAI_KEYS]; for a key with one of them it reads the value, stores it
    under the new key and deletes the key. *)
Lemma fix_key_cases o key :
  (nai_free key = true /\ fix_key o key = (o, None)) \/
  (nai_free key = false /\
   exists nk,
     In nk NAI_KEYS /\ startswith (fst nk) key = true /\
     fix_key o key =
     match getitem key (dk_entries o) with
     | Ok v =>
         obj_delitem key (insertdict (replace (fst nk) (snd nk) key) v o)
     | Raise e => (o, Some e)
     end).
Proof.
  unfold nai_free, fix_key, NAI_KEYS. cbn [forallb for_each_inplace fst snd].
  destruct (nai_prefixes_exclusive key) as [X1 X2].
  destruct (startswith (str "cond_stage_model.transformer.embeddings.") key)
    eqn:S1.
  - right. split; [reflexivity|]. destruct (X1 eq_refl) as [S2 S3].
    eexists. split; [left; reflexivity|]. split; [exact S1|].
    cbn [fst snd]. apply and_then_id. intros o'.
    rewrite S2, S3. reflexivity.
  - rewrite and_then_None.
    destruct (startswith (str "cond_stage_model.transformer.encoder.") key)
      eqn:S2.
    + right. split; [reflexivity|]. pose proof (X2 eq_refl) as S3.
      eexists. split; [right; left; reflexivity|]. split; [exact S2|].
      cbn [fst snd]. apply and_then_id. intros o'.
      rewrite S3. reflexivity.
    + rewrite and_then_None.
      destruct (startswith
                  (str "cond_stage_model.transformer.final_layer_norm.") key)
        eqn:S3.
      * right. split; [reflexivity|].
        eexists. split; [right; right; left; reflexivity|].
        split; [exact S3|].
        cbn [fst snd]. apply and_then_id. intros o'. reflexivity.
      * left. split; reflexivity.
Qed.

(** Storing under a new key and deleting a key of the dictionary raises
    nothing. *)
Lemma move_result o k new v :
  dict_mem k (dk_entries o) = true ->
  obj_delitem k (insertdict new v o) =
  (mkDict (dict_remove k (dk_entries (insertdict new v o)))
          (dk_usable (insertdict new v o)), None).
Proof.
  intros M. unfold obj_delitem.
  replace (dict_mem k (dk_entries (insertdict new v o))) with true; auto.
  symmetry. apply dict_mem_get. rewrite dict_get_insertdict.
  destruct (str_eqb k new); eauto. now apply dict_mem_get.
Qed.

Lemma fix_key_live o i k :
  key_at (dk_entries o) i k -> exists o1, fix_key o k = (o1, None).
Proof.
  intros K. pose proof (key_at_mem _ _ _ K) as M.
  destruct (fix_key_cases o k) as [[_ F] | [_ (nk & _ & _ & F)]];
    rewrite F; eauto.
  pose proof M as M'. apply dict_mem_get in M' as [v Hv].
  unfold getitem. rewrite Hv. rewrite move_result by exact M. eauto.
Qed.

Lemma fix_nai_loop_unfold (len used pos : nat) o :
  fix_nai_loop len used pos o =
  match iternext (mkIter used pos len) (dk_entries o) with
  | Raise e => (o, Some e)
  | Ok None => (o, None)
  | Ok (Some (k, it)) =>
      match len with
      | O => (o, None)
      | S len' =>
          and_then (fix_key o k) (fix_nai_loop len' used (di_pos it))
      end
  end.
Proof. destruct len; reflexivity. Qed.

Lemma iternext_size_changed (len used pos : nat) d :
  used <> dict_len d ->
  iternext (mkIter used pos len) d =
  Raise (RuntimeError "dictionary changed size during iteration").
Proof.
  intros N. unfold iternext. cbn [di_used].
  apply Nat.eqb_neq in N. now rewrite N.
Qed.

Lemma iternext_yield (len used pos : nat) d :
  used = dict_len d ->
  iternext (mkIter used pos len) d =
  match next_entry pos d with
  | None => Ok None
  | Some (i, k) =>
      match len with
      | O => Raise (RuntimeError "dictionary keys changed during iteration")
      | S n => Ok (Some (k, mkIter used (S i) n))
      end
  end.
Proof.
  intros ->. unfold iternext. cbn [di_used di_pos di_len].
  now rewrite Nat.eqb_refl.
Qed.

(** What moving the key of entry [i] does to the entries, when the entries
    after [i] are live and are as many as the keys still expected and the
    holes together: with the new key in the dictionary a key is lost; with a
    new key the same holds of the new entries, rebuilt or not, and they have
    a hole. *)
Lemma move_effect o i k v new n :
  key_at (dk_entries o) i k ->
  hole_free (skipn (S i) (dk_entries o)) = true ->
  live_from (S i) (dk_entries o) = (n + holes (dk_entries o))%nat ->
  exists o1,
    obj_delitem k (insertdict new v o) = (o1, None) /\
    (dict_mem new (dk_entries o) = true ->
     S (dict_len (dk_entries o1)) = dict_len (dk_entries o)) /\
    (dict_mem new (dk_entries o) = false ->
     dict_len (dk_entries o1) = dict_len (dk_entries o) /\
     hole_free (skipn (S i) (dk_entries o1)) = true /\
     live_from (S i) (dk_entries o1) = (n + holes (dk_entries o1))%nat /\
     (1 <= holes (dk_entries o1))%nat).
Proof.
  intros K HF HL. eexists. split.
  { apply move_result. now apply (key_at_mem _ i). }
  cbn [dk_entries]. rewrite insertdict_entries.
  set (d := dk_entries o) in *.
  pose proof (key_at_length _ _ _ K) as Hi.
  pose proof (dict_len_le d) as Hle.
  assert (HL' : (length d - S i = n + (length d - dict_len d))%nat).
  { unfold live_from, holes in HL. rewrite (hole_free_length _ HF) in HL.
    now rewrite length_skipn in HL. }
  split.
  - intros M. rewrite M. cbn [negb andb]. unfold setitem. rewrite M.
    rewrite (dict_len_remove (dict_update new v d) k).
    + apply dict_len_update.
    + apply (key_at_mem _ i). now apply key_at_update.
  - intros M. rewrite M. cbn [negb andb]. unfold setitem.
    destruct (dk_usable o =? 0)%nat.
    + rewrite dict_mem_compact, M.
      destruct (key_at_compact _ _ _ K) as (j & Hj & Kj).
      set (e1 := compact d ++ [Some (new, v)]).
      assert (K1 : key_at e1 j k) by now apply key_at_app.
      assert (L1 : length e1 = S (dict_len d)).
      { unfold e1. rewrite length_app, length_compact. simpl. lia. }
      assert (D1 : dict_len e1 = S (dict_len d)).
      { unfold e1. rewrite dict_len_app, dict_len_compact.
        unfold dict_len at 2. simpl. lia. }
      assert (F1 : hole_free e1 = true).
      { unfold e1. now rewrite hole_free_app, hole_free_compact. }
      pose proof (dict_len_remove e1 k (key_at_mem _ _ _ K1)) as DR.
      assert (FR : hole_free (skipn (S i) (dict_remove k e1)) = true).
      { rewrite (skipn_remove_le _ _ _ _ K1 Hj). now apply hole_free_skipn. }
      split; [lia|]. split; [exact FR|].
      unfold live_from, holes. rewrite (hole_free_length _ FR).
      rewrite length_skipn, length_remove. lia.
    + rewrite M.
      set (e1 := d ++ [Some (new, v)]).
      assert (K1 : key_at e1 i k) by now apply key_at_app.
      assert (L1 : length e1 = S (length d)).
      { unfold e1. rewrite length_app. simpl. lia. }
      assert (D1 : dict_len e1 = S (dict_len d)).
      { unfold e1. rewrite dict_len_app. unfold dict_len at 2. simpl. lia. }
      pose proof (dict_len_remove e1 k (key_at_mem _ _ _ K1)) as DR.
      assert (FR : hole_free (skipn (S i) (dict_remove k e1)) = true).
      { rewrite (skipn_remove _ _ _ K1). unfold e1. rewrite skipn_app.
        rewrite hole_free_app, HF.
        replace (S i - length d)%nat with 0%nat by lia. reflexivity. }
      split; [lia|]. split; [exact FR|].
      unfold live_from, holes. rewrite (hole_free_length _ FR).
      rewrite length_skipn, length_remove. lia.
Qed.

(** The loop of [fix_nai_keys] returns only if it moved no key: after a
    move the entries ahead of the iterator outnumber the keys it expects,
    also when the table is rebuilt, and the iterator raises. *)
Lemma fix_nai_loop_returns (len used pos : nat) o o' :
  used = dict_len (dk_entries o) ->
  hole_free (skipn pos (dk_entries o)) = true ->
  live_from pos (dk_entries o) = (len + holes (dk_entries o))%nat ->
  fix_nai_loop len used pos o = (o', None) ->
  holes (dk_entries o) = 0%nat /\ o' = o /\
  forall i k, (pos <= i)%nat -> key_at (dk_entries o) i k -> nai_free k = true.
Proof.
  revert pos o. induction len as [|len IH]; intros pos o Hu HF HL E;
    rewrite fix_nai_loop_unfold, (iternext_yield _ _ _ _ Hu) in E.
  - destruct (next_entry pos (dk_entries o)) as [[i k]|] eqn:Hn;
      [discriminate|].
    injection E as <-. apply next_entry_None in Hn.
    split; [lia|]. split; [reflexivity|].
    intros i k Hi K. pose proof (live_from_positive _ _ _ _ Hi K). lia.
  - destruct (next_entry pos (dk_entries o)) as [[i0 k0]|] eqn:Hn.
    2:{ apply next_entry_None in Hn. lia. }
    apply next_entry_Some in Hn as (Hle & K & L & Hfirst).
    cbn [di_pos] in E.
    assert (HF' : hole_free (skipn (S i0) (dk_entries o)) = true)
      by (apply (hole_free_skipn_le pos); auto; lia).
    assert (HL' : live_from (S i0) (dk_entries o) =
                  (len + holes (dk_entries o))%nat) by lia.
    destruct (fix_key_cases o k0) as [[Hfree F] | [_ (nk & _ & _ & F)]];
      rewrite F in E.
    + unfold and_then in E. cbn [fst snd] in E.
      destruct (IH (S i0) o Hu HF' HL' E) as (H0 & -> & Hrest).
      split; [exact H0|]. split; [reflexivity|].
      intros i k Hi Ki.
      destruct (Nat.lt_trichotomy i i0) as [Hlt|[->|Hgt]].
      * exfalso. apply (Hfirst i k); auto.
      * now rewrite (key_at_unique _ _ _ _ Ki K).
      * apply (Hrest i k); auto.
    + exfalso.
      pose proof (key_at_mem _ _ _ K) as M. apply dict_mem_get in M as [v Hv].
      unfold getitem in E. rewrite Hv in E.
      destruct (move_effect o i0 k0 v (replace (fst nk) (snd nk) k0) len
                  K HF' HL')
        as (o1 & R & G1 & G2).
      rewrite R in E. unfold and_then in E. cbn [fst snd] in E.
      destruct (dict_mem (replace (fst nk) (snd nk) k0) (dk_entries o)) eqn:M.
      * specialize (G1 eq_refl).
        rewrite fix_nai_loop_unfold, iternext_size_changed in E by lia.
        discriminate.
      * destruct (G2 eq_refl) as (D & F1 & L1 & H1).
        destruct (IH (S i0) o1 ltac:(lia) F1 L1 E) as (H0 & _). lia.
Qed.

(** Without a key to move the loop returns the dictionary as it is. *)
Lemma fix_nai_loop_free (len used pos : nat) o :
  used = dict_len (dk_entries o) ->
  live_from pos (dk_entries o) = len ->
  (forall i k, (pos <= i)%nat -> key_at (dk_entries o) i k ->
               nai_free k = true) ->
  fix_nai_loop len used pos o = (o, None).
Proof.
  revert pos. induction len as [|len IH]; intros pos Hu Hl Hfree;
    rewrite fix_nai_loop_unfold, (iternext_yield _ _ _ _ Hu).
  - destruct (next_entry pos (dk_entries o)) as [[i k]|] eqn:Hn; auto.
    apply next_entry_Some in Hn as (_ & _ & L & _). lia.
  - destruct (next_entry pos (dk_entries o)) as [[i0 k0]|] eqn:Hn; auto.
    apply next_entry_Some in Hn as (Hle & K & L & _).
    cbn [di_pos].
    destruct (fix_key_cases o k0) as [[_ F] | [N _]].
    + rewrite F. unfold and_then. cbn [fst snd]. apply IH; auto; try lia.
      intros i k Hi. apply Hfree. lia.
    + rewrite (Hfree i0 k0 Hle K) in N. discriminate.
Qed.

(** The loop ends normally or in a [RuntimeError] of the iterator, never in
    another exception. *)
Lemma fix_nai_loop_outcome (len used pos : nat) o :
  exists o',
    fix_nai_loop len used pos o = (o', None) \/
    exists msg, fix_nai_loop len used pos o = (o', Some (RuntimeError msg)).
Proof.
  revert pos o. induction len as [|len IH]; intros pos o;
    rewrite fix_nai_loop_unfold;
    (destruct (Nat.eq_dec used (dict_len (dk_entries o))) as [E|N];
     [rewrite (iternext_yield _ _ _ _ E)
     | rewrite iternext_size_changed by auto; exists o; right; eexists;
       reflexivity]).
  - destruct (next_entry pos (dk_entries o)) as [[i k]|].
    + exists o. right. eexists. reflexivity.
    + exists o. now left.
  - destruct (next_entry pos (dk_entries o)) as [[i k]|] eqn:Hn.
    + apply next_entry_Some in Hn as (_ & K & _).
      destruct (fix_key_live _ _ _ K) as [o1 ->].
      unfold and_then. cbn [fst snd di_pos]. apply IH.
    + exists o. now left.
Qed.

Lemma fix_nai_keys_returns o o' :
  hole_free (dk_entries o) = true ->
  fix_nai_keys o = (o', None) ->
  o' = o /\ forall i k, key_at (dk_entries o) i k -> nai_free k = true.
Proof.
  intros HF E. unfold fix_nai_keys, dict_iter in E.
  cbn [di_len di_used di_pos] in E.
  assert (HL : live_from 0 (dk_entries o) =
               (dict_len (dk_entries o) + holes (dk_entries o))%nat).
  { rewrite live_from_0. unfold holes. rewrite (hole_free_length _ HF). lia. }
  destruct (fix_nai_loop_returns _ _ 0%nat o o' eq_refl HF HL E)
    as (_ & -> & F).
  split; auto. intros i k. apply F. lia.
Qed.

Lemma fix_nai_keys_free o :
  (forall i k, key_at (dk_entries o) i k -> nai_free k = true) ->
  fix_nai_keys o = (o, None).
Proof.
  intros F. unfold fix_nai_keys, dict_iter. cbn [di_len di_used di_pos].
  apply fix_nai_loop_free; auto.
  intros i k _. apply F.
Qed.

End ObjectFacts.

(** C8.  The fixer does not do what the claim says of it: [fix_nai_keys]
    adds and deletes keys of the dictionary that it iterates over.  On a
    mapping built by insertions that has a key under an alternate prefix,
    [fix_model] raises the [RuntimeError] of the iterator instead of
    returning the remapped mapping, and leaves the key moved, so that a second
    call on the dictionary returns.  On a dictionary with earlier deletions
    and a full table the first call returns with a key under an alternate
    prefix still in the mapping, and the second call raises: two applications
    are not one. *)
Theorem fix_model_fails_on_alternate_prefix :
  (exists left,
     fix_model dict_nai =
       (left, Some (RuntimeError "dictionary keys changed during iteration")) /\
     dict_keys (dk_entries left) =
       [str "x"; str "cond_stage_model.transformer.text_model.encoder.w"] /\
     fix_model left = (left, None)) /\
  (exists once twice,
     fix_model dict_with_holes = (once, None) /\
     dict_keys (dk_entries once) =
       [str "cond_stage_model.transformer.encoder.v"; str "x";
        str "cond_stage_model.transformer.text_model.encoder.w"] /\
     fix_model once =
       (twice, Some (RuntimeError "dictionary keys changed during iteration")) /\
     dict_keys (dk_entries twice) =
       [str "x"; str "cond_stage_model.transformer.text_model.encoder.w";
        str "cond_stage_model.transformer.text_model.encoder.v"]).
Proof.
  split.
  - eexists. split; [vm_compute; reflexivity|].
    split; vm_compute; reflexivity.
  - eexists. eexists. split; [vm_compute; reflexivity|].
    split; [vm_compute; reflexivity|].
    split; vm_compute; reflexivity.
Qed.

(** * Further properties of the code *)

(** ** [fix_clip], [fix_key], [fix_model] *)

Lemma position_ids_values (i : nat) :
  (i < 77)%nat ->
  nth_error (t_data position_ids_tensor) i = Some (inject_Z (Z.of_nat i)).
Proof.
  intros Hi. unfold position_ids_tensor, MAX_TOKENS. cbn [t_data].
  rewrite nth_error_map, nth_error_nth' with (d := 0%nat)
    by (rewrite length_seq; exact Hi).
  rewrite seq_nth by exact Hi. reflexivity.
Qed.

(** [fix_clip] assigns to a key that the dictionary has: the entries keep
    their places. *)
Lemma fix_clip_entries (model : dictobject (option tensor)) :
  dk_entries (fix_clip model) =
  if dict_mem KEY_POSITION_IDS (dk_entries model)
  then dict_update KEY_POSITION_IDS (Some position_ids_tensor)
                   (dk_entries model)
  else dk_entries model.
Proof.
  unfold fix_clip, insertdict.
  destruct (dict_mem KEY_POSITION_IDS (dk_entries model)); reflexivity.
Qed.

Lemma dict_get_fix_clip (model : dictobject (option tensor)) (k : pystr) :
  dict_get k (dk_entries (fix_clip model)) =
  if str_eqb k KEY_POSITION_IDS
  then option_map (fun _ => Some position_ids_tensor)
                  (dict_get KEY_POSITION_IDS (dk_entries model))
  else dict_get k (dk_entries model).
Proof.
  rewrite fix_clip_entries.
  destruct (dict_mem KEY_POSITION_IDS (dk_entries model)) eqn:M.
  - apply dict_get_update.
  - destruct (str_eqb k KEY_POSITION_IDS) eqn:E; auto.
    apply str_eqb_eq in E. subst k. apply dict_mem_false in M.
    now rewrite M.
Qed.

(** [fix_clip] keeps the keys and their order, gives the canonical key, when
    the mapping has it, the [int64] sequence 0, 1, ..., 76 whatever it held,
    and leaves every other value as it is. *)
Theorem fix_clip_only_resets_position_ids
  (model : dictobject (option tensor)) :
  dict_keys (dk_entries (fix_clip model)) = dict_keys (dk_entries model) /\
  (forall k, dict_get k (dk_entries (fix_clip model)) =
             if str_eqb k KEY_POSITION_IDS
             then option_map (fun _ => Some position_ids_tensor)
                             (dict_get KEY_POSITION_IDS (dk_entries model))
             else dict_get k (dk_entries model)) /\
  t_dtype position_ids_tensor = Int64 /\
  length (t_data position_ids_tensor) = 77%nat /\
  forall i, (i < 77)%nat ->
    nth_error (t_data position_ids_tensor) i = Some (inject_Z (Z.of_nat i)).
Proof.
  split; [|split; [|split; [reflexivity | split; [reflexivity|]]]].
  - rewrite fix_clip_entries.
    destruct (dict_mem KEY_POSITION_IDS (dk_entries model)) eqn:M; auto.
    apply dict_items_update.
  - apply dict_get_fix_clip.
  - apply position_ids_values.
Qed.

Lemma dict_keys_setitem_new {V : Type} (k : pystr) (v : V) (d : dict V) :
  dict_mem k d = false -> dict_keys (setitem k v d) = dict_keys d ++ [k].
Proof.
  intros M. unfold setitem. rewrite M. unfold dict_keys. clear M.
  induction d as [|[kv|] d IH]; simpl; auto. now rewrite IH.
Qed.

Lemma NoDup_setitem {V : Type} (k : pystr) (v : V) (d : dict V) :
  NoDup (dict_keys d) -> NoDup (dict_keys (setitem k v d)).
Proof.
  intros ND. destruct (dict_mem k d) eqn:M.
  - now rewrite dict_keys_setitem_mem.
  - rewrite dict_keys_setitem_new by auto.
    apply NoDup_app; auto.
    + repeat constructor. simpl. tauto.
    + intros x Hx [<-|[]]. apply dict_keys_In in Hx. congruence.
Qed.

Lemma NoDup_insertdict {V : Type} (k : pystr) (v : V) (o : dictobject V) :
  NoDup (dict_keys (dk_entries o)) ->
  NoDup (dict_keys (dk_entries (insertdict k v o))).
Proof.
  intros ND. rewrite insertdict_entries. apply NoDup_setitem.
  destruct (_ && _); [rewrite dict_keys_compact|]; exact ND.
Qed.

Lemma replace_prefix (old new r : pystr) :
  old <> [] ->
  replace old new (old ++ r) =
  new ++ replace_from (length old - 1) old new (tl (old ++ r)).
Proof.
  destruct old as [|c old]; [contradiction|]. intros _.
  unfold replace. change ((c :: old) ++ r) with (c :: (old ++ r)).
  cbn [replace_from tl].
  change (c :: (old ++ r)) with ((c :: old) ++ r).
  now rewrite startswith_app.
Qed.

Lemma forallb_false {A : Type} (f : A -> bool) (l : list A) :
  forallb f l = false -> exists x, In x l /\ f x = false.
Proof.
  induction l as [|a l IH]; simpl; [discriminate|].
  destruct (f a) eqn:E; simpl.
  - intros X. destruct (IH X) as (x & I & F). eauto.
  - eauto.
Qed.

(** The three targets of [NAI_KEYS] start with none of its prefixes. *)
Lemma nai_target_free (nk : pystr * pystr) (r : pystr) :
  In nk NAI_KEYS -> snd nk <> [] /\ fst nk <> [] /\ nai_free (snd nk ++ r) = true.
Proof.
  intros [<-|[<-|[<-|[]]]]; repeat split; discriminate.
Qed.

(** [fix_key] on a key of the mapping that starts with an alternate prefix:
    the value moves to the key with the canonical prefix in its place, which
    starts with none of the alternate prefixes; the old key is gone and every
    other key keeps its value.  That holds whether the table of the
    dictionary is rebuilt for the new key or not. *)
Theorem fix_key_moves_tensor {V : Type} (model : dictobject V) (key : pystr)
  (v : V) :
  NoDup (dict_keys (dk_entries model)) ->
  dict_get key (dk_entries model) = Some v ->
  nai_free key = false ->
  exists nk model',
    In nk NAI_KEYS /\ startswith (fst nk) key = true /\
    fix_key model key = (model', None) /\
    startswith (snd nk) (replace (fst nk) (snd nk) key) = true /\
    nai_free (replace (fst nk) (snd nk) key) = true /\
    dict_get (replace (fst nk) (snd nk) key) (dk_entries model') = Some v /\
    dict_get key (dk_entries model') = None /\
    forall k, k <> replace (fst nk) (snd nk) key -> k <> key ->
              dict_get k (dk_entries model') = dict_get k (dk_entries model).
Proof.
  intros ND Hv N.
  destruct (fix_key_cases model key) as [[Hf _] | [_ (nk & I & S & F)]];
    [congruence|].
  destruct (nai_target_free nk [] I) as (_ & Hne & _).
  pose proof S as S'. apply startswith_spec in S' as [r Hr].
  set (new := replace (fst nk) (snd nk) key) in *.
  assert (Hnew : new = snd nk ++
                 replace_from (length (fst nk) - 1) (fst nk) (snd nk)
                              (tl (fst nk ++ r))).
  { unfold new. rewrite Hr. now apply replace_prefix. }
  assert (Hfree : nai_free new = true).
  { rewrite Hnew. now apply nai_target_free. }
  assert (Hdiff : new <> key) by (intros E; congruence).
  assert (M : dict_mem key (dk_entries model) = true)
    by (apply dict_mem_get; eauto).
  unfold getitem in F. rewrite Hv, (move_result _ _ _ _ M) in F.
  eexists nk, _.
  split; [exact I|]. split; [exact S|]. split; [exact F|].
  fold new. cbn [dk_entries].
  split; [rewrite Hnew; apply startswith_app|]. split; [exact Hfree|].
  pose proof (NoDup_insertdict new v model ND) as ND'.
  split; [|split].
  - rewrite dict_get_remove by auto. apply str_eqb_neq in Hdiff.
    now rewrite Hdiff, dict_get_insertdict, str_eqb_refl.
  - rewrite dict_get_remove by auto. now rewrite str_eqb_refl.
  - intros k Hk1 Hk2. rewrite dict_get_remove by auto.
    apply str_eqb_neq in Hk1, Hk2. now rewrite Hk2, dict_get_insertdict, Hk1.
Qed.

Lemma fix_key_moves_tensor_witness :
  exists model',
    fix_key dict_nai (str "cond_stage_model.transformer.encoder.w")
      = (model', None) /\
    dict_get (str "cond_stage_model.transformer.encoder.w")
      (dk_entries model') = None.
Proof.
  destruct (fix_key_moves_tensor dict_nai
              (str "cond_stage_model.transformer.encoder.w")
              (Some (tensor_of [1]%Z)))
    as (nk & model' & _ & _ & F & _ & _ & _ & G & _).
  - repeat constructor; simpl; intuition discriminate.
  - reflexivity.
  - reflexivity.
  - exists model'. split; [exact F | exact G].
Defined.

(** [fix_key] does nothing for a key without an alternate prefix, in the
    mapping or not, and raises [KeyError] for a key with an alternate prefix
    that the mapping lacks, leaving the dictionary as it was. *)
Theorem fix_key_without_move {V : Type} (model : dictobject V) (key : pystr) :
  (nai_free key = true -> fix_key model key = (model, None)) /\
  (nai_free key = false -> dict_get key (dk_entries model) = None ->
   fix_key model key = (model, Some (KeyError key))).
Proof.
  split.
  - intros Hf. destruct (fix_key_cases model key) as [[_ F] | [N _]]; auto.
    congruence.
  - intros N Hk.
    destruct (fix_key_cases model key) as [[Hf _] | [_ (nk & _ & _ & F)]];
      [congruence|].
    rewrite F. unfold getitem. now rewrite Hk.
Qed.

Lemma fix_key_without_move_witness :
  fix_key dict_nai (str "y") = (dict_nai, None) /\
  fix_key dict_nai (str "cond_stage_model.transformer.encoder.u") =
    (dict_nai, Some (KeyError (str "cond_stage_model.transformer.encoder.u"))).
Proof.
  split.
  - apply (proj1 (fix_key_without_move _ _)). reflexivity.
  - apply (proj2 (fix_key_without_move _ _)); reflexivity.
Defined.

Lemma In_keys_key_at {V : Type} (k : pystr) (d : dict V) :
  In k (dict_keys d) -> exists i, key_at d i k.
Proof.
  unfold dict_keys, key_at. induction d as [|[[k0 v0]|] d IH]; simpl.
  - tauto.
  - intros [->|I].
    + exists 0%nat, v0. reflexivity.
    + destruct (IH I) as (i & v & E). exists (S i), v. exact E.
  - intros I. destruct (IH I) as (i & v & E). exists (S i), v. exact E.
Qed.

Lemma nai_free_keys {V : Type} (d : dict V) :
  forallb nai_free (dict_keys d) = true <->
  forall i k, key_at d i k -> nai_free k = true.
Proof.
  rewrite forallb_forall. split.
  - intros F i k K. apply F, dict_keys_In. now apply (key_at_mem _ i).
  - intros F k I. destruct (In_keys_key_at _ _ I) as [i K]. now apply (F i).
Qed.

(** [fix_model] returns on every mapping without a key to move, and then
    only [fix_clip] has acted.  On a mapping that has a key under an
    alternate prefix and whose entries are all live, as in a dictionary built
    by insertions, it raises the [RuntimeError] of the iterator, whatever the
    free slots of the table are: the loop of [fix_nai_keys] changes the
    dictionary that it iterates over. *)
Theorem fix_model_outcome (model : dictobject (option tensor)) :
  (forallb nai_free (dict_keys (dk_entries model)) = true ->
   fix_model model = (fix_clip model, None)) /\
  (hole_free (dk_entries model) = true ->
   forallb nai_free (dict_keys (dk_entries model)) = false ->
   exists model' msg, fix_model model = (model', Some (RuntimeError msg))).
Proof.
  split.
  - intros Hf. unfold fix_model. rewrite fix_nai_keys_free; auto.
    now apply nai_free_keys.
  - intros HF Hf. unfold fix_model.
    destruct (fix_nai_loop_outcome (dict_len (dk_entries model))
                (dict_len (dk_entries model)) 0 model) as [o' [E | [msg E]]].
    + apply (fix_nai_keys_returns model o' HF) in E as [_ F].
      apply nai_free_keys in F. congruence.
    + exists o', msg. unfold fix_nai_keys, dict_iter.
      cbn [di_len di_used di_pos]. rewrite E. reflexivity.
Qed.

Lemma fix_model_outcome_witness :
  fix_model (inserted_only (dict_of [(str "x", Some (tensor_of [2]%Z))])) =
    (fix_clip (inserted_only (dict_of [(str "x", Some (tensor_of [2]%Z))])),
     None) /\
  exists model' msg,
    fix_model dict_nai = (model', Some (RuntimeError msg)).
Proof.
  split.
  - apply (proj1 (fix_model_outcome _)). reflexivity.
  - apply (proj2 (fix_model_outcome _)); reflexivity.
Defined.

(** ** What [merge] saves *)

(** A dictionary built by insertions comes back from [fix_model] only if no
    key was to move, and then only [fix_clip] has acted. *)
Lemma fix_model_returned (model out : state_dict) :
  hole_free model = true ->
  returned (fix_model (inserted_only model)) = Ok out ->
  out = dk_entries (fix_clip (inserted_only model)) /\
  forallb nai_free (dict_keys model) = true.
Proof.
  intros HF E. unfold returned, fix_model in E.
  destruct (fix_nai_keys (inserted_only model)) as [o1 [e|]] eqn:F.
  - unfold and_then in E. cbn [fst snd] in E. discriminate.
  - apply fix_nai_keys_returns in F as [-> G]; [|exact HF].
    unfold and_then in E. cbn [fst snd] in E. injection E as <-.
    split; [reflexivity|]. now apply nai_free_keys.
Qed.

Lemma dict_get_remove_other {V : Type} (k k' : pystr) (d : dict V) :
  k' <> k -> dict_get k' (dict_remove k d) = dict_get k' d.
Proof.
  intros N. induction d as [|[[k0 v0]|] d IH]; simpl; auto.
  destruct (str_eqb k k0) eqn:E; simpl.
  - apply str_eqb_eq in E. subst k0. apply str_eqb_neq in N. now rewrite N.
  - now rewrite IH.
Qed.

Lemma stage0_step_models (x : pystr) (th th1 : model_set) :
  stage0_step x th = Ok th1 ->
  dict_get model_a th1 = dict_get model_a th /\
  forall b, dict_get model_b th = Some b ->
    exists b1, dict_get model_b th1 = Some b1 /\ dict_keys b1 = dict_keys b.
Proof.
  unfold stage0_step. intros E.
  assert (G : forall b tb d,
             dict_get model_b th = Some b -> dict_get x b = Some tb ->
             dict_get model_a (setitem model_b (setitem x d b) th) =
               dict_get model_a th /\
             forall b0, dict_get model_b th = Some b0 ->
               exists b1,
                 dict_get model_b (setitem model_b (setitem x d b) th) = Some b1 /\
                 dict_keys b1 = dict_keys b0).
  { intros b tb d Hb Hx. split.
    - now rewrite dict_get_setitem.
    - intros b0 Hb0. assert (b0 = b) by congruence. subst b0.
      exists (setitem x d b). rewrite dict_get_setitem, str_eqb_refl.
      split; auto. apply dict_keys_setitem_mem. apply dict_mem_get. eauto. }
  destruct (contains (str "model") x).
  2:{ injection E as <-. split; eauto. }
  apply bind_Ok in E as (c & _ & E).
  destruct (dict_mem x c).
  - apply bind_Ok in E as (b & Hb & E). apply bind_Ok in E as (tb & Hx & E).
    apply bind_Ok in E as (d & _ & E). injection E as <-.
    apply getitem_Ok in Hb, Hx. eapply G; eauto.
  - apply bind_Ok in E as (b & Hb & E). apply bind_Ok in E as (tb & Hx & E).
    injection E as <-. apply getitem_Ok in Hb, Hx. eapply G; eauto.
Qed.

Lemma stage0_loop_models (ks : list pystr) (th th1 : model_set) :
  for_each ks stage0_step th = Ok th1 ->
  dict_get model_a th1 = dict_get model_a th /\
  forall b, dict_get model_b th = Some b ->
    exists b1, dict_get model_b th1 = Some b1 /\ dict_keys b1 = dict_keys b.
Proof.
  revert th. induction ks as [|x ks IH]; intros th E; simpl in E.
  - injection E as <-. split; eauto.
  - apply bind_Ok in E as (th0 & E0 & E).
    destruct (stage0_step_models _ _ _ E0) as [A0 B0].
    destruct (IH _ E) as [A1 B1]. split; [congruence|].
    intros b Hb. destruct (B0 b Hb) as (b0 & Hb0 & K0).
    destruct (B1 b0 Hb0) as (b1 & Hb1 & K1). exists b1. split; congruence.
Qed.

Lemma stage0_models (th th1 : model_set) :
  stage0 th = Ok th1 ->
  dict_get model_a th1 = dict_get model_a th /\
  forall b, dict_get model_b th = Some b ->
    exists b1, dict_get model_b th1 = Some b1 /\ dict_keys b1 = dict_keys b.
Proof.
  unfold stage0. intros E. apply bind_Ok in E as (b & _ & E).
  apply bind_Ok in E as (th0 & E0 & E).
  unfold delitem in E. destruct (dict_mem model_c th0); [|discriminate].
  injection E as <-. destruct (stage0_loop_models _ _ _ E0) as [A B].
  split.
  - now rewrite dict_get_remove_other by discriminate.
  - intros b0 Hb0. rewrite dict_get_remove_other by discriminate. auto.
Qed.

Section MergeFacts.

Context `{Kernels}.

Variable cfg : config.
Variable weights : dict (list Q).
Variable bases : dict Q.
Variable best : bool.

(** Stages 2 and 3 only insert into the mapping: every entry is live. *)
Lemma stage2_loop_hole_free (sims : option (list Q)) (ks : list pystr)
  (m m' : state_dict) (th th' : model_set) :
  for_each ks (stage2_step cfg weights bases best sims) (m, th) = Ok (m', th') ->
  hole_free m = true -> hole_free m' = true.
Proof.
  revert m th. induction ks as [|x ks IH]; intros m th E HF; simpl in E.
  - now injection E as <- _.
  - apply bind_Ok in E as ([m1 th1] & E0 & E).
    apply (IH _ _ E). unfold stage2_step in E0. cbn [fst snd] in E0.
    apply bind_Ok in E0 as ([r th2] & _ & E0). cbn [fst snd] in E0.
    destruct r as [res|]; injection E0 as <- _; auto.
    now apply hole_free_setitem.
Qed.

Lemma stage3_step_hole_free (b : checkpoint) (x : pystr) (m m1 : state_dict) :
  stage3_step cfg b best x m = Ok m1 ->
  hole_free m = true -> hole_free m1 = true.
Proof.
  unfold stage3_step. intros E HF.
  assert (G : forall v m0,
             hole_free m0 = true ->
             (if negb best || str_eqb (best_precision cfg) (str "16")
              then v0 <- getitem x (setitem x v m0) ;;
                   h <- value_half v0 ;;
                   Ok (setitem x h (setitem x v m0))
              else Ok (setitem x v m0)) = Ok m1 ->
             hole_free m1 = true).
  { intros v m0 H0 X. destruct (negb best || _).
    - apply bind_Ok in X as (v0 & _ & X). apply bind_Ok in X as (h & _ & X).
      injection X as <-. now apply hole_free_setitem, hole_free_setitem.
    - injection X as <-. now apply hole_free_setitem. }
  destruct (contains (str "model") x && negb (dict_mem x m));
    [|now injection E as <-].
  destruct (contains KEY_POSITION_IDS x && (skip_position_ids cfg =? 1)%Z);
    [now injection E as <-|].
  destruct (contains KEY_POSITION_IDS x && (skip_position_ids cfg =? 2)%Z).
  - cbv zeta in E. now apply (G _ _ HF E).
  - apply bind_Ok in E as (tb & _ & E). cbv zeta in E. now apply (G _ _ HF E).
Qed.

Lemma stage3_loop_hole_free (b : checkpoint) (ks : list pystr)
  (m m' : state_dict) :
  for_each ks (stage3_step cfg b best) m = Ok m' ->
  hole_free m = true -> hole_free m' = true.
Proof.
  revert m. induction ks as [|x ks IH]; intros m E HF; simpl in E.
  - now injection E as <-.
  - apply bind_Ok in E as (m1 & E0 & E). apply (IH _ E).
    now apply (stage3_step_hole_free b x m).
Qed.

(** The stages behind a result of [merge] *)
Lemma merge_Ok (thetas : model_set) (out : state_dict) :
  merge cfg thetas weights bases best = Ok out ->
  exists th sims m th' m3,
    stage2 cfg th weights bases best sims = Ok (m, th') /\
    stage3 cfg th' best m = Ok m3 /\
    out = dk_entries (fix_clip (inserted_only m3)) /\
    (cosine_mode cfg = false -> th = thetas /\ sims = None) /\
    dict_get model_a th = dict_get model_a thetas /\
    forall b, dict_get model_b thetas = Some b ->
      exists b1, dict_get model_b th = Some b1 /\ dict_keys b1 = dict_keys b.
Proof.
  unfold merge. intros E.
  apply bind_Ok in E as ([th sims] & E0 & E).
  apply bind_Ok in E as ([m th'] & E2 & E).
  apply bind_Ok in E as (m3 & E3 & E). cbn [fst snd] in *.
  assert (HF : hole_free m3 = true).
  { unfold stage3 in E3. apply bind_Ok in E3 as (b & _ & E3).
    apply (stage3_loop_hole_free _ _ _ _ E3).
    unfold stage2 in E2. apply bind_Ok in E2 as (a & _ & E2).
    now apply (stage2_loop_hole_free _ _ _ _ _ _ E2). }
  apply (fix_model_returned _ _ HF) in E as [E _].
  exists th, sims, m, th', m3.
  split; [exact E2|]. split; [exact E3|]. split; [exact E|].
  destruct (cosine_mode cfg).
  - apply bind_Ok in E0 as (th0 & S0 & E0).
    apply bind_Ok in E0 as (raw & _ & E0). apply bind_Ok in E0 as (s & _ & E0).
    injection E0 as <- <-. split; [discriminate|].
    destruct (mode_eqb (merge_mode cfg) add_difference).
    + now apply stage0_models.
    + injection S0 as <-. split; eauto.
  - injection E0 as <- <-. split; eauto.
Qed.

Lemma stage3_Ok (th : model_set) (m m3 : state_dict) :
  stage3 cfg th best m = Ok m3 ->
  exists b,
    dict_get model_b th = Some b /\
    forall k, dict_get k m3 =
              match dict_get k m with
              | Some t => Some t
              | None => if existsb (str_eqb k) (dict_keys b)
                        then option_map Some (stage3_value cfg b best k)
                        else None
              end.
Proof.
  unfold stage3. intros E. apply bind_Ok in E as (b & Hb & E).
  apply getitem_Ok in Hb. exists b. split; auto.
  destruct (stage3_loop cfg b best (dict_keys b) m (fun k I => I))
    as (out & E' & G).
  assert (out = m3) by congruence. subst out. exact G.
Qed.

(** A result of [merge_key] is for its key, and holds a narrowed tensor, or
    [None] when nothing is narrowed. *)
Lemma merge_key_result (key : pystr) (th th' : model_set)
  (sims : option (list Q)) (k : pystr) (v : option tensor) :
  merge_key cfg key th weights bases best sims = Ok (Some (k, v), th') ->
  k = key /\
  ((exists t0, v = Some (narrow cfg best t0)) \/
   (v = None /\
    negb best || str_eqb (best_precision cfg) (str "16") = false)) /\
  dict_get model_b th' = dict_get model_b th.
Proof.
  unfold merge_key. intros E.
  destruct (contains KEY_POSITION_IDS key && (skip_position_ids cfg =? 1)%Z).
  { apply bind_Ok in E as (a & _ & E). apply bind_Ok in E as (t0 & _ & E).
    injection E as <- <- <-. eauto. }
  destruct (contains KEY_POSITION_IDS key && (skip_position_ids cfg =? 2)%Z).
  { apply bind_Ok in E as (a & _ & E). cbv zeta in E.
    apply bind_Ok in E as (a' & _ & E). apply bind_Ok in E as (t0 & _ & E).
    injection E as <- <- <-. rewrite dict_get_setitem. eauto. }
  destruct (existsb _ _); [discriminate|].
  apply bind_Ok in E as (cb & _ & E). apply bind_Ok in E as (merged & _ & E).
  destruct merged as [t0|].
  - injection E as <- <- <-. eauto.
  - destruct (negb best || _) eqn:N; [discriminate|].
    injection E as <- <- <-. auto.
Qed.

Lemma merge_key_model_b (key : pystr) (th th' : model_set)
  (sims : option (list Q)) (r : option (pystr * option tensor)) :
  merge_key cfg key th weights bases best sims = Ok (r, th') ->
  dict_get model_b th' = dict_get model_b th.
Proof.
  destruct r as [[k t]|].
  - intros E. now apply merge_key_result in E.
  - intros E.
    destruct (contains KEY_POSITION_IDS key && (skip_position_ids cfg =? 2)%Z)
      eqn:H2.
    + unfold merge_key in E. rewrite H2 in E.
      destruct (contains KEY_POSITION_IDS key && (skip_position_ids cfg =? 1)%Z).
      * apply bind_Ok in E as (a & _ & E). apply bind_Ok in E as (t0 & _ & E).
        discriminate.
      * apply bind_Ok in E as (a & _ & E). cbv zeta in E.
        apply bind_Ok in E as (a' & _ & E). apply bind_Ok in E as (t0 & _ & E).
        discriminate.
    + now rewrite (merge_key_same_thetas cfg weights bases best sims _ _ _ _ H2 E).
Qed.

(** Every value of the mapping of stage 2 is a result of [merge_key] for
    its key, which is a key of the loop. *)
Lemma stage2_loop_values (sims : option (list Q)) (ks : list pystr)
  (m m' : state_dict) (th th' : model_set) :
  for_each ks (stage2_step cfg weights bases best sims) (m, th) = Ok (m', th') ->
  dict_get model_b th' = dict_get model_b th /\
  forall k t, dict_get k m' = Some t ->
    dict_get k m = Some t \/
    (In k ks /\
     ((exists t0, t = Some (narrow cfg best t0)) \/
      (t = None /\
       negb best || str_eqb (best_precision cfg) (str "16") = false))).
Proof.
  revert m th. induction ks as [|x ks IH]; intros m th E; simpl in E.
  - injection E as <- <-. auto.
  - apply bind_Ok in E as ([m1 th1] & E0 & E).
    unfold stage2_step in E0. cbn [fst snd] in E0.
    apply bind_Ok in E0 as ([r th2] & E1 & E0). cbn [fst snd] in E0.
    pose proof (merge_key_model_b _ _ _ _ _ E1) as Hb.
    destruct (IH _ _ E) as [Hb' G]. 
    assert (th1 = th2) by (destruct r; congruence). subst th1.
    split; [congruence|].
    intros k t Hk. destruct (G k t Hk) as [G1 | [I P]].
    + destruct r as [[k0 t0]|]; injection E0 as <-; auto.
      apply merge_key_result in E1 as (-> & P & _). cbn [snd] in G1.
      rewrite dict_get_setitem in G1. destruct (str_eqb k x) eqn:Ek; auto.
      apply str_eqb_eq in Ek. subst k. injection G1 as <-.
      right. split; [now left | exact P].
    + right. split; [now right | exact P].
Qed.

End MergeFacts.

(** Whatever the models hold and whatever [skip_position_ids] is, a mapping
    that [merge] hands over to be saved has the sequence 0..76 under the
    canonical key of the position ids. *)
Theorem merge_saves_canonical_position_ids `{Kernels}
  (cfg : config) (thetas : model_set) (weights : dict (list Q))
  (bases : dict Q) (best : bool) (out : state_dict) (v : option tensor) :
  merge cfg thetas weights bases best = Ok out ->
  dict_get KEY_POSITION_IDS out = Some v ->
  v = Some position_ids_tensor.
Proof.
  intros E Ht.
  destruct (merge_Ok cfg weights bases best _ _ E)
    as (th & sims & m & th' & m3 & _ & _ & -> & _).
  rewrite dict_get_fix_clip, str_eqb_refl in Ht. cbn [inserted_only dk_entries] in Ht.
  destruct (dict_get KEY_POSITION_IDS m3); [|discriminate].
  simpl in Ht. congruence.
Qed.

Lemma merge_saves_canonical_position_ids_witness :
  exists out,
    merge (H := exact_kernels) cfg_weighted_sum thetas_position_ids []
      bases_half false = Ok out /\
    forall v, dict_get KEY_POSITION_IDS out = Some v ->
              v = Some position_ids_tensor.
Proof.
  eexists. split; [vm_compute; reflexivity|].
  intros t Ht.
  eapply (merge_saves_canonical_position_ids (H := exact_kernels)
            cfg_weighted_sum thetas_position_ids [] bases_half false);
    [vm_compute; reflexivity | exact Ht].
Defined.

(** Outside cosine mode, stage 3 and the key fixes change no result of stage
    2: every value of the mapping of stage 2 is saved as it is, under its
    key, except under the canonical key of the position ids. *)
Theorem stage2_results_are_saved `{Kernels}
  (cfg : config) (thetas : model_set) (weights : dict (list Q))
  (bases : dict Q) (best : bool) (out m : state_dict) (th' : model_set)
  (k : pystr) (t : option tensor) :
  cosine_mode cfg = false ->
  merge cfg thetas weights bases best = Ok out ->
  stage2 cfg thetas weights bases best None = Ok (m, th') ->
  dict_get k m = Some t ->
  k <> KEY_POSITION_IDS ->
  dict_get k out = Some t.
Proof.
  intros Hcos E E2 Hk Hne.
  destruct (merge_Ok cfg weights bases best _ _ E)
    as (th & sims & m0 & th0 & m3 & S2 & S3 & -> & Hnc & _).
  destruct (Hnc Hcos) as [-> ->].
  assert (m0 = m /\ th0 = th') as [-> ->] by (split; congruence).
  destruct (stage3_Ok cfg best _ _ _ S3) as (b & _ & G).
  rewrite dict_get_fix_clip. apply str_eqb_neq in Hne.
  cbn [inserted_only dk_entries]. now rewrite Hne, G, Hk.
Qed.

Lemma stage2_results_are_saved_witness :
  exists out,
    merge (H := exact_kernels) cfg_weighted_sum thetas_x [] bases_half true
      = Ok out /\
    dict_get (str "x") out =
    Some (Some (narrow (H := exact_kernels) cfg_weighted_sum true
                  (mkTensor Float32
                     (zip_with (fun x y => ((1 - (1 # 2)) * x + (1 # 2) * y)%Q)
                               [1%Q; 2%Q] [3%Q; 4%Q])))).
Proof.
  eexists. split; [vm_compute; reflexivity|].
  eapply (stage2_results_are_saved (H := exact_kernels) cfg_weighted_sum
            thetas_x [] bases_half true);
    [reflexivity | reflexivity | vm_compute; reflexivity
     | reflexivity | discriminate].
Defined.

(** Unless the save is a best save at a precision other than 16, every
    value that [merge] hands over to be saved is a tensor in half precision,
    except the position ids under their canonical key, which are [int64]. *)
Theorem merge_saves_half_precision `{Kernels}
  (cfg : config) (thetas : model_set) (weights : dict (list Q))
  (bases : dict Q) (best : bool) (out : state_dict) (k : pystr)
  (v : option tensor) :
  negb best || str_eqb (best_precision cfg) (str "16") = true ->
  merge cfg thetas weights bases best = Ok out ->
  dict_get k out = Some v ->
  exists t,
    v = Some t /\
    (k <> KEY_POSITION_IDS -> t_dtype t = Float16) /\
    (k = KEY_POSITION_IDS -> t_dtype t = Int64).
Proof.
  intros Hn E Hk.
  destruct (merge_Ok cfg weights bases best _ _ E)
    as (th & sims & m & th' & m3 & S2 & S3 & -> & _).
  rewrite dict_get_fix_clip in Hk. cbn [inserted_only dk_entries] in Hk.
  destruct (str_eqb k KEY_POSITION_IDS) eqn:Ek.
  { apply str_eqb_eq in Ek. subst k.
    destruct (dict_get KEY_POSITION_IDS m3); [|discriminate].
    injection Hk as <-. exists position_ids_tensor.
    split; [reflexivity|]. split; [congruence | reflexivity]. }
  assert (Hne : k <> KEY_POSITION_IDS) by now apply str_eqb_neq.
  assert (Hhalf : forall t0, t_dtype (narrow cfg best t0) = Float16).
  { intros t0. unfold narrow. now rewrite Hn. }
  assert (G0 : forall t0, v = Some (narrow cfg best t0) ->
               exists t, v = Some t /\
                 (k <> KEY_POSITION_IDS -> t_dtype t = Float16) /\
                 (k = KEY_POSITION_IDS -> t_dtype t = Int64)).
  { intros t0 ->. eexists. split; [reflexivity|].
    split; [intros _; apply Hhalf | congruence]. }
  destruct (stage3_Ok cfg best _ _ _ S3) as (b & _ & G).
  rewrite G in Hk. destruct (dict_get k m) as [t1|] eqn:Hm.
  - injection Hk as <-. unfold stage2 in S2.
    apply bind_Ok in S2 as (a & _ & S2).
    destruct (stage2_loop_values cfg weights bases best _ _ _ _ _ _ S2)
      as [_ V].
    destruct (V k t1 Hm) as [X | [_ [[t0 X] | [_ X]]]];
      [discriminate | now apply (G0 t0) | congruence].
  - destruct (existsb (str_eqb k) (dict_keys b)); [|discriminate].
    unfold stage3_value in Hk.
    destruct (contains (str "model") k); [|discriminate].
    destruct (contains KEY_POSITION_IDS k && (skip_position_ids cfg =? 1)%Z);
      [discriminate|].
    destruct (contains KEY_POSITION_IDS k && (skip_position_ids cfg =? 2)%Z).
    + injection Hk as <-. now apply (G0 position_ids_tensor).
    + destruct (dict_get k b) as [tb|]; [|discriminate]. injection Hk as <-.
      now apply (G0 tb).
Qed.

Lemma merge_saves_half_precision_witness :
  exists out,
    merge (H := exact_kernels) cfg_weighted_sum thetas_vae [] bases_half false
      = Ok out /\
    forall k v, dict_get k out = Some v -> k <> KEY_POSITION_IDS ->
                exists t, v = Some t /\ t_dtype t = Float16.
Proof.
  eexists. split; [vm_compute; reflexivity|].
  intros k v Hk Hne.
  destruct (merge_saves_half_precision (H := exact_kernels) cfg_weighted_sum
              thetas_vae [] bases_half false _ k v eq_refl
              ltac:(vm_compute; reflexivity) Hk) as (t & Hv & Hd & _).
  exists t. split; [exact Hv | exact (Hd Hne)].
Defined.

(** [merge] invents no key: every key of the mapping that it hands over to
    be saved is a key of model A or of model B. *)
Theorem merge_saves_keys_of_the_models `{Kernels}
  (cfg : config) (thetas : model_set) (weights : dict (list Q))
  (bases : dict Q) (best : bool) (out : state_dict) (a b : checkpoint)
  (k : pystr) :
  merge cfg thetas weights bases best = Ok out ->
  dict_get model_a thetas = Some a ->
  dict_get model_b thetas = Some b ->
  dict_mem k out = true ->
  dict_mem k a = true \/ dict_mem k b = true.
Proof.
  intros E Ha Hb Hk.
  destruct (merge_Ok cfg weights bases best _ _ E)
    as (th & sims & m & th' & m3 & S2 & S3 & -> & _ & Ga & Gb).
  assert (Hk3 : dict_mem k m3 = true).
  { rewrite <- dict_keys_In in Hk |- *.
    rewrite fix_clip_entries in Hk. cbn [inserted_only dk_entries] in Hk.
    destruct (dict_mem KEY_POSITION_IDS m3) eqn:M; auto.
    now rewrite dict_items_update in Hk. }
  destruct (Gb b Hb) as (b1 & Hb1 & Kb).
  unfold stage2, getitem in S2. rewrite Ga, Ha in S2. cbn [bind] in S2.
  destruct (stage2_loop_values cfg weights bases best _ _ _ _ _ _ S2)
    as [Hb' V].
  destruct (stage3_Ok cfg best _ _ _ S3) as (b2 & Hb2 & G).
  assert (b2 = b1) by congruence. subst b2.
  apply dict_mem_get in Hk3 as [t Ht]. rewrite G in Ht.
  destruct (dict_get k m) as [t1|] eqn:Hm.
  - left. destruct (V k t1 Hm) as [X | [I _]]; [discriminate|].
    now apply dict_keys_In.
  - right. destruct (existsb (str_eqb k) (dict_keys b1)) eqn:Ex; [|discriminate].
    apply existsb_exists in Ex as (x & I & Ex). apply str_eqb_eq in Ex.
    subst x. apply dict_keys_In. now rewrite <- Kb.
Qed.

Lemma merge_saves_keys_of_the_models_witness :
  dict_mem (str "first_stage_model.decoder.w")
    (dict_of [(str "x", tensor_of [1; 2]%Z)]) = true \/
  dict_mem (str "first_stage_model.decoder.w")
    (dict_of [(str "x", tensor_of [3; 4]%Z);
              (str "first_stage_model.decoder.w", tensor_of [9]%Z)]) = true.
Proof.
  eapply (merge_saves_keys_of_the_models (H := exact_kernels) cfg_weighted_sum
            thetas_vae [] bases_half false);
    [vm_compute; reflexivity | reflexivity | reflexivity | reflexivity].
Defined.

(** ** The special cases and errors of [merge_key] *)

Section MergeKeyCases.

Context `{Kernels}.

Variable cfg : config.
Variable weights : dict (list Q).
Variable bases : dict Q.
Variable best : bool.
Variable sims : option (list Q).

Lemma merge_key_skip2 (key : pystr) (th : model_set) (a : checkpoint) :
  skip_position_ids cfg = 2%Z ->
  contains KEY_POSITION_IDS key = true ->
  dict_get model_a th = Some a ->
  merge_key cfg key th weights bases best sims =
  Ok (Some (key, Some (narrow cfg best position_ids_tensor)),
      setitem model_a (setitem key position_ids_tensor a) th).
Proof.
  intros Hs Hc Ha. unfold merge_key. rewrite Hc, Hs. cbn [andb Z.eqb Pos.eqb].
  lookup Ha. unfold getitem.
  rewrite dict_get_setitem, str_eqb_refl. cbn [bind].
  now rewrite dict_get_setitem, str_eqb_refl.
Qed.

Lemma stage2_loop_skip2 (thetas : model_set) (a : checkpoint) (key : pystr) :
  skip_position_ids cfg = 2%Z ->
  contains KEY_POSITION_IDS key = true ->
  dict_get model_a thetas = Some a ->
  forall (ks : list pystr) (m : state_dict) (th : model_set)
         (m' : state_dict) (th' : model_set),
    same_keys thetas th ->
    (forall k, In k ks -> dict_mem k a = true) ->
    for_each ks (stage2_step cfg weights bases best sims) (m, th)
      = Ok (m', th') ->
    dict_get key m' =
    if existsb (str_eqb key) ks
    then Some (Some (narrow cfg best position_ids_tensor))
    else dict_get key m.
Proof.
  intros Hs Hc Ha. induction ks as [|x ks IH]; intros m th m' th' R Hks E.
  - simpl in E. now injection E as <- _.
  - simpl in E. apply bind_Ok in E as ([m1 th1] & E0 & E).
    unfold stage2_step in E0. cbn [fst snd] in E0.
    apply bind_Ok in E0 as ([r th2] & E1 & E0). cbn [fst snd] in E0.
    destruct (same_keys_get model_a _ _ _ R Ha) as (a' & Ha' & Hmem).
    assert (R2 : same_keys th th2).
    { apply (merge_key_same_keys cfg weights bases best sims x th th2 r); auto.
      intros a0 Ha0. assert (a0 = a') by congruence. subst a0.
      rewrite <- Hmem. apply Hks. now left. }
    assert (th1 = th2) by (destruct r; congruence). subst th1.
    rewrite (IH m1 th2 m' th'); auto.
    + simpl. destruct (str_eqb key x) eqn:Ex.
      * apply str_eqb_eq in Ex. subst x.
        rewrite (merge_key_skip2 key th a' Hs Hc Ha') in E1.
        injection E1 as <- _. cbn [snd] in E0. injection E0 as <-.
        rewrite dict_get_setitem, str_eqb_refl.
        now destruct (existsb (str_eqb key) ks).
      * destruct r as [res|]; injection E0 as <-; auto.
        now rewrite dict_get_setitem, Ex.
    + now apply (same_keys_trans _ th).
    + intros k Hk. apply Hks. now right.
Qed.

End MergeKeyCases.

(** With [skip_position_ids = 2], for a key that contains the name of the
    position ids the per-key merge returns the regenerated sequence 0..76
    (after [narrow]), whatever the models hold under the key and even when
    model A lacks it, and stores the sequence in model A; it is what the
    mapping of stage 2 holds under every such key of model A. *)
Theorem skip_position_ids_regenerates `{Kernels}
  (cfg : config) (key : pystr) (thetas : model_set)
  (weights : dict (list Q)) (bases : dict Q) (best : bool)
  (sims : option (list Q)) (a : checkpoint) :
  skip_position_ids cfg = 2%Z ->
  contains KEY_POSITION_IDS key = true ->
  dict_get model_a thetas = Some a ->
  merge_key cfg key thetas weights bases best sims =
    Ok (Some (key, Some (narrow cfg best position_ids_tensor)),
        setitem model_a (setitem key position_ids_tensor a) thetas) /\
  (dict_mem key a = true ->
   forall merged thetas',
     stage2 cfg thetas weights bases best sims = Ok (merged, thetas') ->
     dict_get key merged = Some (Some (narrow cfg best position_ids_tensor))).
Proof.
  intros Hs Hc Ha. split.
  - now apply merge_key_skip2.
  - intros Hk merged thetas' E. unfold stage2, getitem in E.
    rewrite Ha in E. cbn [bind] in E.
    rewrite (stage2_loop_skip2 cfg weights bases best sims thetas a key
               Hs Hc Ha _ _ _ _ _ (same_keys_refl thetas)
               (fun k => proj1 (dict_keys_In k a)) E).
    replace (existsb (str_eqb key) (dict_keys a)) with true; auto.
    symmetry. apply existsb_exists. exists key.
    split; [now apply dict_keys_In | apply str_eqb_refl].
Qed.

Lemma skip_position_ids_regenerates_witness :
  merge_key (H := exact_kernels)
    (mkConfig weighted_sum false 2 (str "32") (str "safetensors"))
    KEY_POSITION_IDS thetas_position_ids_a [] bases_half true None =
  Ok (Some (KEY_POSITION_IDS, Some position_ids_tensor),
      setitem model_a
        (setitem KEY_POSITION_IDS position_ids_tensor
           (dict_of [(KEY_POSITION_IDS, mkTensor Int64 [5%Q; 6%Q])]))
        thetas_position_ids_a).
Proof.
  apply (skip_position_ids_regenerates (H := exact_kernels));
    reflexivity.
Defined.

(** A key of the diffusion model whose block index is 25 or more, for
    instance [.input_blocks.N.] with [N >= 25] or [.output_blocks.N.] with
    [N >= 12], makes the per-key merge raise [ValueError], when all the models
    have the key and it is no position-ids key. *)
Theorem illegal_block_index_raises `{Kernels}
  (cfg : config) (key : pystr) (thetas : model_set)
  (weights : dict (list Q)) (bases : dict Q) (best : bool)
  (sims : option (list Q)) :
  contains (str "model.diffusion_model.") key = true ->
  contains KEY_POSITION_IDS key = false ->
  existsb (fun theta => negb (dict_mem key theta)) (dict_values thetas) = false ->
  contains (str "time_embed") key = false ->
  contains (str ".out.") key = false ->
  (forall ds, first_match (str ".input_blocks.") key ds ->
     (25 <= int_of_digits ds)%Z ->
     merge_key cfg key thetas weights bases best sims =
     Raise (ValueError (str "illegal block index " ++ key))) /\
  (forall ds, no_match (str ".input_blocks.") key ->
     no_match (str ".middle_block.") key ->
     first_match (str ".output_blocks.") key ds ->
     (12 <= int_of_digits ds)%Z ->
     merge_key cfg key thetas weights bases best sims =
     Raise (ValueError (str "illegal block index " ++ key))).
Proof.
  intros Hd Hp Hall Ht Ho.
  assert (G : (25 <= weight_index key)%Z ->
              merge_key cfg key thetas weights bases best sims =
              Raise (ValueError (str "illegal block index " ++ key))).
  { intros Hw. unfold merge_key, select_bases. rewrite Hp, Hall, Hd.
    cbn [andb]. replace (weight_index key >=? NUM_TOTAL_BLOCKS)%Z with true.
    - reflexivity.
    - symmetry. rewrite Z.geb_leb. apply Z.leb_le. exact Hw. }
  split.
  - intros ds M Hn. apply G. unfold weight_index. rewrite Ht, Ho.
    unfold re_inp. now rewrite (first_match_search _ _ _ M).
  - intros ds N1 N2 M Hn. apply G. unfold weight_index. rewrite Ht, Ho.
    unfold re_inp, re_mid, re_out.
    rewrite (no_match_search _ _ N1), (no_match_search _ _ N2),
      (first_match_search _ _ _ M).
    unfold NUM_INPUT_BLOCKS, NUM_MID_BLOCK. lia.
Qed.

Lemma illegal_block_index_raises_witness :
  merge_key (H := exact_kernels) cfg_weighted_sum
    (str "model.diffusion_model.input_blocks.25.w")
    (dict_of [(model_a, dict_of [(str "model.diffusion_model.input_blocks.25.w",
                                  tensor_of [1]%Z)]);
              (model_b, dict_of [(str "model.diffusion_model.input_blocks.25.w",
                                  tensor_of [2]%Z)])])
    [] bases_half false None =
  Raise (ValueError (str "illegal block index " ++
                     str "model.diffusion_model.input_blocks.25.w")).
Proof.
  destruct (search_first_match (str ".input_blocks.")
              (str "model.diffusion_model.input_blocks.25.w") 25 eq_refl)
    as (ds & M & E).
  apply (proj1 (illegal_block_index_raises (H := exact_kernels) cfg_weighted_sum
                  (str "model.diffusion_model.input_blocks.25.w")
                  (dict_of [(model_a,
                             dict_of [(str "model.diffusion_model.input_blocks.25.w",
                                       tensor_of [1]%Z)]);
                            (model_b,
                             dict_of [(str "model.diffusion_model.input_blocks.25.w",
                                       tensor_of [2]%Z)])])
                  [] bases_half
                  false None eq_refl eq_refl eq_refl eq_refl eq_refl) ds M).
  rewrite <- E. lia.
Defined.

(** ** The coefficients of a block *)

Lemma index_weights_loop (i : nat) (items : list (pystr * list Q))
  (acc : dict Q) :
  NoDup (map fst items) ->
  (forall kw, In kw items -> (i < length (snd kw))%nat) ->
  exists cb,
    for_each items
      (fun kw acc =>
         match nth_error (snd kw) i with
         | Some x => Ok (setitem (fst kw) x acc)
         | None => Raise IndexError
         end) acc = Ok cb /\
    forall k, dict_get k cb =
              match find (fun kw => str_eqb k (fst kw)) items with
              | Some kw => nth_error (snd kw) i
              | None => dict_get k acc
              end.
Proof.
  revert acc. induction items as [|[k0 w0] items IH]; intros acc ND Hlen.
  - exists acc. split; auto.
  - inversion ND as [|? ? Hnotin ND']; subst.
    assert (Hw : (i < length w0)%nat) by (apply (Hlen (k0, w0)); now left).
    destruct (nth_error w0 i) as [x|] eqn:Hx.
    2:{ apply nth_error_None in Hx. lia. }
    destruct (IH (setitem k0 x acc) ND' (fun kw I => Hlen kw (or_intror I)))
      as (cb & E & G).
    exists cb. split.
    + cbn [for_each snd fst]. rewrite Hx. cbn [bind]. exact E.
    + intros k. rewrite G. cbn [find fst snd].
      destruct (str_eqb k k0) eqn:Ek.
      * apply str_eqb_eq in Ek. subst k.
        destruct (find (fun kw => str_eqb k0 (fst kw)) items) as [kw|] eqn:F.
        -- apply find_some in F as [I Ek]. apply str_eqb_eq in Ek.
           exfalso. apply Hnotin. rewrite Ek. now apply in_map.
        -- now rewrite dict_get_setitem, str_eqb_refl.
      * destruct (find (fun kw => str_eqb k (fst kw)) items); auto.
        now rewrite dict_get_setitem, Ek.
Qed.

Lemma index_weights_short (i : nat) (items : list (pystr * list Q))
  (acc : dict Q) :
  (exists kw, In kw items /\ (length (snd kw) <= i)%nat) ->
  for_each items
    (fun kw acc =>
       match nth_error (snd kw) i with
       | Some x => Ok (setitem (fst kw) x acc)
       | None => Raise IndexError
       end) acc = Raise IndexError.
Proof.
  revert acc. induction items as [|kw0 items IH]; intros acc (kw & I & L).
  - contradiction.
  - cbn [for_each]. destruct (nth_error (snd kw0) i) as [x|] eqn:Hx.
    + cbn [bind]. apply IH. destruct I as [->|I]; eauto.
      apply nth_error_None in L. congruence.
    + reflexivity.
Qed.

(** For a key of the diffusion model with a block index from 0 to 24, the
    coefficients of the merge are the entries of the weight vectors at that
    index, one per coefficient name, and the scalar [bases] are not used;
    if a weight vector is too short for the index, [IndexError] is raised. *)
Theorem block_coefficients
  (key : pystr) (weights : dict (list Q)) (bases : dict Q) :
  contains (str "model.diffusion_model.") key = true ->
  (0 <= weight_index key < 25)%Z ->
  NoDup (dict_keys weights) ->
  ((forall k w, dict_get k weights = Some w ->
                (Z.to_nat (weight_index key) < length w)%nat) ->
   exists cb,
     select_bases key weights bases = Ok cb /\
     forall k, dict_get k cb =
               match dict_get k weights with
               | Some w => nth_error w (Z.to_nat (weight_index key))
               | None => None
               end) /\
  (forall k w, dict_get k weights = Some w ->
               (length w <= Z.to_nat (weight_index key))%nat ->
               select_bases key weights bases = Raise IndexError).
Proof.
  intros Hd Hi ND.
  assert (Hsel : select_bases key weights bases =
                 index_weights weights (weight_index key)).
  { unfold select_bases. rewrite Hd.
    replace (weight_index key >=? NUM_TOTAL_BLOCKS)%Z with false
      by (symmetry; rewrite Z.geb_leb; apply Z.leb_gt;
          unfold NUM_TOTAL_BLOCKS, NUM_INPUT_BLOCKS, NUM_MID_BLOCK,
            NUM_OUTPUT_BLOCKS; lia).
    replace (weight_index key >=? 0)%Z with true
      by (symmetry; rewrite Z.geb_leb; apply Z.leb_le; lia).
    reflexivity. }
  assert (Hin : forall k w, dict_get k weights = Some w ->
                            In (k, w) (dict_items weights)).
  { intros k w Hk. rewrite dict_get_find in Hk.
    destruct (find (fun kv => str_eqb k (fst kv)) (dict_items weights))
      as [[k' w']|] eqn:F; [|discriminate].
    apply find_some in F as [I Ek]. apply str_eqb_eq in Ek.
    cbn [fst snd option_map] in *. injection Hk as <-. now subst k'. }
  rewrite Hsel. unfold index_weights. split.
  - intros Hlen.
    destruct (index_weights_loop (Z.to_nat (weight_index key))
                (dict_items weights) [] ND) as (cb & E & G).
    + intros [k w] I. cbn [snd]. apply (Hlen k).
      rewrite dict_get_find.
      destruct (find (fun kv => str_eqb k (fst kv)) (dict_items weights))
        as [[k' w']|] eqn:F.
      * apply find_some in F as [I' Ek]. apply str_eqb_eq in Ek.
        cbn [fst] in Ek. subst k'. cbn [option_map snd]. f_equal.
        unfold dict_keys in ND.
        clear - ND I I'. induction (dict_items weights) as [|[k0 w0] l IH];
          [contradiction|].
        inversion ND as [|? ? Hn ND']; subst. cbn [map fst] in Hn.
        destruct I as [X|I], I' as [X'|I'].
        -- congruence.
        -- injection X as -> ->. exfalso. apply Hn.
           change k with (fst (k, w')). now apply in_map.
        -- injection X' as -> ->. exfalso. apply Hn.
           change k with (fst (k, w)). now apply in_map.
        -- now apply IH.
      * exfalso. apply (find_none _ _ F) in I. cbn [fst] in I.
        rewrite str_eqb_refl in I. discriminate.
    + exists cb. split; [exact E|]. intros k.
      rewrite G, (dict_get_find k weights).
      destruct (find (fun kv => str_eqb k (fst kv)) (dict_items weights));
        reflexivity.
  - intros k w Hk L. apply index_weights_short. exists (k, w). split; auto.
Qed.

Lemma block_coefficients_witness :
  exists cb,
    select_bases (str "model.diffusion_model.input_blocks.1.w")
      (dict_of [(str "alpha", [(1 # 4)%Q; (3 # 4)%Q])]) bases_half = Ok cb /\
    dict_get (str "alpha") cb = Some (3 # 4)%Q.
Proof.
  destruct (proj1 (block_coefficients
                     (str "model.diffusion_model.input_blocks.1.w")
                     (dict_of [(str "alpha", [(1 # 4)%Q; (3 # 4)%Q])])
                     bases_half eq_refl
                     ltac:(vm_compute; split; [discriminate | reflexivity])
                     ltac:(repeat constructor; simpl; tauto)))
    as (cb & E & G).
  - intros k w. simpl. destruct (str_eqb k _); [|discriminate].
    intros X. injection X as <-. vm_compute. lia.
  - exists cb. split; [exact E|]. rewrite G. reflexivity.
Defined.

(** ** The formulas of [merge_block] *)

Lemma zip_with_length (f : Q -> Q -> Q) (x y : list Q) :
  length x = length y -> length (zip_with f x y) = length x.
Proof.
  revert y; induction x as [|a x IH]; intros [|b y] E; simpl in *;
    try discriminate; auto.
Qed.

Lemma zip_with_map_r (f : Q -> Q -> Q) (g : Q -> Q) (x y : list Q) :
  zip_with f x (map g y) = zip_with (fun a b => f a (g b)) x y.
Proof.
  revert y; induction x as [|a x IH]; intros [|b y]; simpl; auto.
  now rewrite IH.
Qed.

Lemma zip_with_ext (f g : Q -> Q -> Q) (x y : list Q) :
  (forall a b, (f a b == g a b)%Q) ->
  Forall2 Qeq (zip_with f x y) (zip_with g x y).
Proof.
  intros Hfg. revert y; induction x as [|a x IH]; intros [|b y]; simpl;
    constructor; auto.
Qed.

Lemma Forall2_Qeq_trans (x y z : list Q) :
  Forall2 Qeq x y -> Forall2 Qeq y z -> Forall2 Qeq x z.
Proof.
  intros R. revert z. induction R as [|a b x y E R IH]; intros z R'.
  - inversion R'. constructor.
  - inversion R' as [|? c ? z' E' R'']; subst. constructor; auto.
    now rewrite E.
Qed.

Lemma zip_with_left_zero (alpha : Q) (x y z : list Q) :
  length x = length y -> length y = length z ->
  Forall2 Qeq y z ->
  Forall2 Qeq
    (zip_with (fun a d => (a + alpha * d)%Q) x (zip_with Qminus y z)) x.
Proof.
  intros L1 L2 R. revert x L1. induction R as [|b c y z E R IH];
    intros [|a x] L1; simpl in *; try discriminate; constructor.
  - rewrite E. ring.
  - apply IH; lia.
Qed.

(** Without cosine mode, [add_difference] returns
    [t0 + alpha * (t1 - t2)], value by value, for tensors of the same size;
    its values are those of [t0] at [alpha = 0], and also when model B and
    model C hold the same values under the key. *)
Theorem add_difference_formula `{Kernels}
  (cfg : config) (current_bases : dict Q) (thetas : model_set) (key : pystr)
  (sims : option (list Q)) (a b c : checkpoint) (t0 t1 t2 : tensor)
  (alpha : Q) :
  cosine_mode cfg = false ->
  merge_mode cfg = add_difference ->
  dict_get model_a thetas = Some a -> dict_get key a = Some t0 ->
  dict_get model_b thetas = Some b -> dict_get key b = Some t1 ->
  dict_get model_c thetas = Some c -> dict_get key c = Some t2 ->
  dict_get (str "alpha") current_bases = Some alpha ->
  length (t_data t0) = length (t_data t1) ->
  length (t_data t1) = length (t_data t2) ->
  exists merged,
    merge_block cfg current_bases thetas key sims = Ok (Some merged) /\
    t_data merged =
      zip_with (fun x d => (x + alpha * d)%Q) (t_data t0)
               (zip_with Qminus (t_data t1) (t_data t2)) /\
    ((alpha == 0)%Q -> teq merged t0) /\
    (teq t1 t2 -> teq merged t0).
Proof.
  intros Hcos Hmode Ha Ht0 Hb Ht1 Hc Ht2 Halpha L1 L2.
  assert (Hsub : tsub t1 t2 =
                 Ok (mkTensor (promote (t_dtype t1) (t_dtype t2))
                              (zip_with Qminus (t_data t1) (t_data t2))))
    by (apply elementwise_same_size; exact L2).
  set (d := mkTensor (promote (t_dtype t1) (t_dtype t2))
                     (zip_with Qminus (t_data t1) (t_data t2))) in *.
  assert (Hadd : tadd t0 (smul alpha d) =
                 Ok (mkTensor (promote (t_dtype t0) (t_dtype (smul alpha d)))
                       (zip_with (fun x d => (x + alpha * d)%Q) (t_data t0)
                          (zip_with Qminus (t_data t1) (t_data t2))))).
  { unfold tadd. rewrite elementwise_same_size.
    - simpl. now rewrite zip_with_map_r.
    - simpl. rewrite length_map, zip_with_length; congruence. }
  eexists. split.
  { unfold merge_block. lookup Ha. lookup Ht0. lookup Hb. lookup Ht1.
    lookup Halpha. rewrite Hcos, Hmode. cbn [mode_eqb]. lookup Hc. lookup Ht2.
    rewrite Hsub. cbn [bind]. rewrite Hadd. reflexivity. }
  split; [reflexivity|]. split.
  - intros E0. unfold teq. cbn [t_data]. apply zip_with_left.
    + rewrite zip_with_length; congruence.
    + intros x y. rewrite E0. ring.
  - intros E12. unfold teq. cbn [t_data]. now apply zip_with_left_zero.
Qed.

Lemma add_difference_formula_witness :
  exists merged,
    merge_block (H := exact_kernels) (cfg_mode add_difference false)
      bases_half thetas_shared3 (str "model.diffusion_model.v") None
      = Ok (Some merged) /\
    t_data merged =
      zip_with (fun x d => (x + (1 # 2) * d)%Q) [5%Q]
               (zip_with Qminus [7%Q] [3%Q]).
Proof.
  destruct (add_difference_formula (H := exact_kernels)
              (cfg_mode add_difference false) bases_half thetas_shared3
              (str "model.diffusion_model.v") None
              (dict_of [(str "model.diffusion_model.v", tensor_of [5]%Z)])
              (dict_of [(str "model.diffusion_model.v", tensor_of [7]%Z)])
              (dict_of [(str "model.diffusion_model.v", tensor_of [3]%Z)])
              (tensor_of [5]%Z) (tensor_of [7]%Z) (tensor_of [3]%Z) (1 # 2)%Q
              eq_refl eq_refl eq_refl eq_refl eq_refl eq_refl eq_refl eq_refl
              eq_refl eq_refl eq_refl)
    as (merged & Hm & Hd & _).
  exists merged. split; [exact Hm | exact Hd].
Defined.

(** At [beta = 0], [sum_twice] and [triple_sum] give the values of the
    weighted sum [(1 - alpha) * t0 + alpha * t1] of model A and model B, for
    tensors of the same size: model C then has no part in the result. *)
Theorem beta_zero_is_weighted_sum `{Kernels}
  (cfg : config) (current_bases : dict Q) (thetas : model_set) (key : pystr)
  (sims : option (list Q)) (a b c : checkpoint) (t0 t1 t2 : tensor)
  (alpha beta : Q) :
  merge_mode cfg = sum_twice \/ merge_mode cfg = triple_sum ->
  dict_get model_a thetas = Some a -> dict_get key a = Some t0 ->
  dict_get model_b thetas = Some b -> dict_get key b = Some t1 ->
  dict_get model_c thetas = Some c -> dict_get key c = Some t2 ->
  dict_get (str "alpha") current_bases = Some alpha ->
  dict_get (str "beta") current_bases = Some beta ->
  length (t_data t0) = length (t_data t1) ->
  length (t_data t1) = length (t_data t2) ->
  exists merged,
    merge_block cfg current_bases thetas key sims = Ok (Some merged) /\
    ((beta == 0)%Q ->
     Forall2 Qeq (t_data merged)
       (zip_with (fun x y => ((1 - alpha) * x + alpha * y)%Q)
                 (t_data t0) (t_data t1))).
Proof.
  intros Hmode Ha Ht0 Hb Ht1 Hc Ht2 Halpha Hbeta L1 L2.
  assert (Hrest : merge_block cfg current_bases thetas key sims =
                  merge_block_rest cfg current_bases thetas key alpha t0 t1).
  { unfold merge_block. lookup Ha. lookup Ht0. lookup Hb. lookup Ht1.
    lookup Halpha.
    destruct Hmode as [Hm|Hm]; rewrite Hm; cbn [mode_eqb];
      destruct (cosine_mode cfg); auto; lookup Hc; lookup Ht2; reflexivity. }
  rewrite Hrest. unfold merge_block_rest. lookup Hc. lookup Ht2.
  set (w := zip_with (fun x y => ((1 - alpha) * x + alpha * y)%Q)
                     (t_data t0) (t_data t1)).
  assert (Lw : length w = length (t_data t2))
    by (unfold w; rewrite zip_with_length; congruence).
  destruct Hmode as [Hm|Hm]; rewrite Hm; cbn [mode_eqb]; lookup Hbeta.
  - unfold tadd at 1. rewrite elementwise_same_size
      by (simpl; now rewrite !length_map).
    cbn [bind]. unfold tadd. rewrite elementwise_same_size.
    2:{ cbn [smul t_data]. rewrite !length_map, zip_with_length.
        - rewrite length_map. congruence.
        - now rewrite !length_map. }
    cbn [bind]. eexists. split; [reflexivity|].
    intros E0. cbn [smul t_data]. rewrite !zip_with_maps. fold w.
    apply zip_with_left; auto. intros x y. rewrite E0. ring.
  - unfold tadd at 1. rewrite elementwise_same_size
      by (simpl; now rewrite !length_map).
    cbn [bind]. unfold tadd. rewrite elementwise_same_size.
    2:{ cbn [smul t_data]. rewrite length_map, zip_with_length.
        - rewrite length_map. congruence.
        - now rewrite !length_map. }
    cbn [bind]. eexists. split; [reflexivity|].
    intros E0. cbn [smul t_data]. rewrite zip_with_maps, zip_with_map_r.
    eapply Forall2_Qeq_trans.
    + apply zip_with_left.
      * rewrite zip_with_length; congruence.
      * intros x y. rewrite E0. ring.
    + unfold w. apply zip_with_ext. intros x y. rewrite E0. ring.
Qed.

Lemma beta_zero_is_weighted_sum_witness :
  exists merged,
    merge_block (H := exact_kernels) (cfg_mode triple_sum false)
      bases_alpha_beta thetas_shared3 (str "model.diffusion_model.v") None
      = Ok (Some merged) /\
    Forall2 Qeq (t_data merged)
      (zip_with (fun x y => ((1 - (1 # 2)) * x + (1 # 2) * y)%Q) [5%Q] [7%Q]).
Proof.
  destruct (beta_zero_is_weighted_sum (H := exact_kernels)
              (cfg_mode triple_sum false) bases_alpha_beta thetas_shared3
              (str "model.diffusion_model.v") None
              (dict_of [(str "model.diffusion_model.v", tensor_of [5]%Z)])
              (dict_of [(str "model.diffusion_model.v", tensor_of [7]%Z)])
              (dict_of [(str "model.diffusion_model.v", tensor_of [3]%Z)])
              (tensor_of [5]%Z) (tensor_of [7]%Z) (tensor_of [3]%Z)
              (1 # 2)%Q 0%Q
              (or_intror eq_refl) eq_refl eq_refl eq_refl eq_refl eq_refl
              eq_refl eq_refl eq_refl eq_refl eq_refl)
    as (merged & Hm & Hd).
  exists merged. split; [exact Hm | apply Hd; reflexivity].
Defined.

(** Every mode but [weighted_sum], and in cosine mode every mode but
    [weighted_sum] and [add_difference], reads model C: when the model set has
    none, [merge_block] raises [KeyError] for a key of model A and model B;
    and the three modes with two coefficients raise [KeyError] when the
    coefficients have no [beta]. *)
Theorem missing_operand_raises `{Kernels}
  (cfg : config) (current_bases : dict Q) (thetas : model_set) (key : pystr)
  (sims : option (list Q)) (a b : checkpoint) (t0 t1 : tensor) (alpha : Q) :
  dict_get model_a thetas = Some a -> dict_get key a = Some t0 ->
  dict_get model_b thetas = Some b -> dict_get key b = Some t1 ->
  dict_get (str "alpha") current_bases = Some alpha ->
  merge_mode cfg <> weighted_sum ->
  (cosine_mode cfg = true -> merge_mode cfg <> add_difference) ->
  (dict_get model_c thetas = None ->
   merge_block cfg current_bases thetas key sims = Raise (KeyError model_c)) /\
  (forall c t2,
     dict_get model_c thetas = Some c -> dict_get key c = Some t2 ->
     merge_mode cfg <> add_difference ->
     merge_mode cfg <> weighted_add_difference ->
     dict_get (str "beta") current_bases = None ->
     merge_block cfg current_bases thetas key sims =
     Raise (KeyError (str "beta"))).
Proof.
  intros Ha Ht0 Hb Ht1 Halpha Hws Hcad. split.
  - intros Hc. unfold merge_block. lookup Ha. lookup Ht0. lookup Hb.
    lookup Ht1. lookup Halpha. unfold merge_block_rest.
    destruct (cosine_mode cfg), (merge_mode cfg); cbn [mode_eqb];
      try (exfalso; apply Hws; reflexivity);
      try (exfalso; apply Hcad; reflexivity);
      unfold getitem; rewrite Hc; reflexivity.
  - intros c t2 Hc Ht2 Had Hwad Hbeta. unfold merge_block.
    lookup Ha. lookup Ht0. lookup Hb. lookup Ht1. lookup Halpha.
    unfold merge_block_rest.
    destruct (cosine_mode cfg), (merge_mode cfg); cbn [mode_eqb];
      try (exfalso; apply Hws; reflexivity);
      try (exfalso; apply Had; reflexivity);
      try (exfalso; apply Hwad; reflexivity);
      unfold getitem; rewrite Hc; cbn [bind]; rewrite Ht2; cbn [bind];
      rewrite ?Hc, ?Ht2; cbn [bind]; rewrite Hbeta; reflexivity.
Qed.

Lemma missing_operand_raises_witness :
  merge_block (H := exact_kernels) (cfg_mode sum_twice false) bases_half
    thetas_x (str "x") None = Raise (KeyError model_c) /\
  merge_block (H := exact_kernels) (cfg_mode sum_twice false) bases_half
    thetas_shared3 (str "model.diffusion_model.v") None =
  Raise (KeyError (str "beta")).
Proof.
  split.
  - apply (proj1 (missing_operand_raises (H := exact_kernels)
                    (cfg_mode sum_twice false) bases_half thetas_x (str "x") None
                    (dict_of [(str "x", tensor_of [1; 2]%Z)])
                    (dict_of [(str "x", tensor_of [3; 4]%Z)])
                    (tensor_of [1; 2]%Z) (tensor_of [3; 4]%Z) (1 # 2)%Q
                    eq_refl eq_refl eq_refl eq_refl eq_refl
                    ltac:(discriminate) ltac:(discriminate))).
    reflexivity.
  - apply (proj2 (missing_operand_raises (H := exact_kernels)
                    (cfg_mode sum_twice false) bases_half thetas_shared3
                    (str "model.diffusion_model.v") None
                    (dict_of [(str "model.diffusion_model.v", tensor_of [5]%Z)])
                    (dict_of [(str "model.diffusion_model.v", tensor_of [7]%Z)])
                    (tensor_of [5]%Z) (tensor_of [7]%Z) (1 # 2)%Q
                    eq_refl eq_refl eq_refl eq_refl eq_refl
                    ltac:(discriminate) ltac:(discriminate))
             (dict_of [(str "model.diffusion_model.v", tensor_of [3]%Z)])
             (tensor_of [3]%Z));
      try reflexivity; discriminate.
Defined.

(** In cosine mode with [weighted_sum], a key of the VAE
    ([first_stage_model]) that model A and model B have keeps model A's
    tensor: [merge_block] returns it whatever the similarities, [alpha] and
    model B's tensor are, and [merge_key] returns it after [narrow]. *)
Theorem cosine_weighted_sum_keeps_vae `{Kernels}
  (cfg : config) (thetas : model_set) (key : pystr)
  (weights : dict (list Q)) (bases : dict Q) (best : bool)
  (sims : option (list Q)) (a b : checkpoint) (t0 t1 : tensor) (alpha : Q) :
  cosine_mode cfg = true ->
  merge_mode cfg = weighted_sum ->
  contains (str "first_stage_model") key = true ->
  dict_get model_a thetas = Some a -> dict_get key a = Some t0 ->
  dict_get model_b thetas = Some b -> dict_get key b = Some t1 ->
  dict_get (str "alpha") bases = Some alpha ->
  merge_block cfg bases thetas key sims = Ok (Some t0) /\
  (contains KEY_POSITION_IDS key = false ->
   contains (str "model.diffusion_model.") key = false ->
   existsb (fun theta => negb (dict_mem key theta)) (dict_values thetas) = false ->
   merge_key cfg key thetas weights bases best sims =
   Ok (Some (key, Some (narrow cfg best t0)), thetas)).
Proof.
  intros Hcos Hmode Hvae Ha Ht0 Hb Ht1 Halpha.
  assert (Hblock : forall s, merge_block cfg bases thetas key s = Ok (Some t0)).
  { intros s. unfold merge_block. lookup Ha. lookup Ht0. lookup Hb. lookup Ht1.
    lookup Halpha. now rewrite Hcos, Hmode, Hvae. }
  split; [apply Hblock|].
  intros Hp Hd Hall. unfold merge_key, select_bases.
  rewrite Hp, Hall, Hd. cbn [andb bind]. now rewrite Hblock.
Qed.

Lemma cosine_weighted_sum_keeps_vae_witness :
  merge_block (H := exact_kernels) (cfg_mode weighted_sum true) bases_half
    (dict_of [ (model_a, dict_of [(str "first_stage_model.decoder.w",
                                   tensor_of [9]%Z)]);
               (model_b, dict_of [(str "first_stage_model.decoder.w",
                                   tensor_of [4]%Z)]) ])
    (str "first_stage_model.decoder.w") (Some [1%Q]) =
  Ok (Some (tensor_of [9]%Z)).
Proof.
  apply (cosine_weighted_sum_keeps_vae (H := exact_kernels)
           (cfg_mode weighted_sum true) _ (str "first_stage_model.decoder.w")
           [] bases_half false (Some [1%Q])
           (dict_of [(str "first_stage_model.decoder.w", tensor_of [9]%Z)])
           (dict_of [(str "first_stage_model.decoder.w", tensor_of [4]%Z)])
           (tensor_of [9]%Z) (tensor_of [4]%Z) (1 # 2)%Q);
    reflexivity.
Defined.

(** In cosine mode with [weighted_sum], when the model set has a model C
    and the coefficients a [beta], [merge_block] falls off its end for a key
    without [model] that the three models have: it returns [None].  Then
    [merge_key] raises [AttributeError] where it narrows ([None.half()]), and
    otherwise returns the pair of the key and [None], which stage 2 stores
    in the output mapping. *)
Theorem cosine_weighted_sum_stores_none `{Kernels}
  (cfg : config) (thetas : model_set) (key : pystr)
  (weights : dict (list Q)) (bases : dict Q) (best : bool)
  (sims : option (list Q)) (a b c : checkpoint) (t0 t1 t2 : tensor)
  (alpha beta : Q) :
  cosine_mode cfg = true ->
  merge_mode cfg = weighted_sum ->
  contains (str "model") key = false ->
  dict_get model_a thetas = Some a -> dict_get key a = Some t0 ->
  dict_get model_b thetas = Some b -> dict_get key b = Some t1 ->
  dict_get model_c thetas = Some c -> dict_get key c = Some t2 ->
  dict_get (str "alpha") bases = Some alpha ->
  dict_get (str "beta") bases = Some beta ->
  existsb (fun theta => negb (dict_mem key theta)) (dict_values thetas) = false ->
  merge_block cfg bases thetas key sims = Ok None /\
  (negb best || str_eqb (best_precision cfg) (str "16") = true ->
   merge_key cfg key thetas weights bases best sims = Raise AttributeError) /\
  (negb best || str_eqb (best_precision cfg) (str "16") = false ->
   merge_key cfg key thetas weights bases best sims =
     Ok (Some (key, None), thetas) /\
   forall merged_model,
     stage2_step cfg weights bases best sims key (merged_model, thetas) =
     Ok (setitem key None merged_model, thetas)).
Proof.
  intros Hcos Hmode Hkey Ha Ht0 Hb Ht1 Hc Ht2 Halpha Hbeta Hall.
  assert (Hvae : contains (str "first_stage_model") key = false)
    by (apply (contains_sub_false (str "model")); [reflexivity | exact Hkey]).
  assert (Hpos : contains KEY_POSITION_IDS key = false)
    by (apply (contains_sub_false (str "model")); [reflexivity | exact Hkey]).
  assert (Hdiff : contains (str "model.diffusion_model.") key = false)
    by (apply (contains_sub_false (str "model")); [reflexivity | exact Hkey]).
  assert (Hblock : forall s, merge_block cfg bases thetas key s = Ok None).
  { intros s. unfold merge_block. lookup Ha. lookup Ht0. lookup Hb. lookup Ht1.
    lookup Halpha. rewrite Hcos, Hmode, Hvae, Hkey. cbn [andb].
    unfold merge_block_rest. lookup Hc. lookup Ht2. rewrite Hmode.
    cbn [mode_eqb]. lookup Hbeta. reflexivity. }
  assert (Hmk : forall n,
             negb best || str_eqb (best_precision cfg) (str "16") = n ->
             merge_key cfg key thetas weights bases best sims =
             if n then Raise AttributeError
             else Ok (Some (key, None), thetas)).
  { intros n Hn. unfold merge_key, select_bases.
    rewrite Hpos, Hall, Hdiff. cbn [andb bind]. rewrite Hblock. cbn [bind].
    now rewrite Hn. }
  split; [apply Hblock|]. split.
  - intros Hn. apply (Hmk true Hn).
  - intros Hn. split; [apply (Hmk false Hn)|].
    intros merged_model. unfold stage2_step. cbn [fst snd].
    rewrite (Hmk false Hn). reflexivity.
Qed.

Lemma cosine_weighted_sum_stores_none_witness :
  merge_key (H := exact_kernels) cfg_cosine_best32 (str "alphas_cumprod")
    thetas_scheduler3 [] bases_alpha_beta true (Some [1%Q]) =
  Ok (Some (str "alphas_cumprod", None), thetas_scheduler3) /\
  merge_key (H := exact_kernels) cfg_cosine_best32 (str "alphas_cumprod")
    thetas_scheduler3 [] bases_alpha_beta false (Some [1%Q]) =
  Raise AttributeError.
Proof.
  destruct (cosine_weighted_sum_stores_none (H := exact_kernels)
              cfg_cosine_best32 thetas_scheduler3 (str "alphas_cumprod")
              [] bases_alpha_beta true (Some [1%Q])
              (dict_of [(str "alphas_cumprod", tensor_of [1; 2]%Z)])
              (dict_of [(str "alphas_cumprod", tensor_of [3; 4]%Z)])
              (dict_of [(str "alphas_cumprod", tensor_of [5; 6]%Z)])
              (tensor_of [1; 2]%Z) (tensor_of [3; 4]%Z) (tensor_of [5; 6]%Z)
              (1 # 2)%Q 0%Q
              eq_refl eq_refl eq_refl eq_refl eq_refl eq_refl eq_refl eq_refl
              eq_refl eq_refl eq_refl eq_refl) as (_ & _ & G).
  split; [exact (proj1 (G eq_refl))|].
  apply (cosine_weighted_sum_stores_none (H := exact_kernels)
           cfg_cosine_best32 thetas_scheduler3 (str "alphas_cumprod")
           [] bases_alpha_beta false (Some [1%Q])
           (dict_of [(str "alphas_cumprod", tensor_of [1; 2]%Z)])
           (dict_of [(str "alphas_cumprod", tensor_of [3; 4]%Z)])
           (dict_of [(str "alphas_cumprod", tensor_of [5; 6]%Z)])
           (tensor_of [1; 2]%Z) (tensor_of [3; 4]%Z) (tensor_of [5; 6]%Z)
           (1 # 2)%Q 0%Q
           eq_refl eq_refl eq_refl eq_refl eq_refl eq_refl eq_refl eq_refl
           eq_refl eq_refl eq_refl eq_refl).
  reflexivity.
Defined.

(** ** The trimmed samples are never empty *)

Lemma percentile_above_some (l : list Q) (q : Z) :
  l <> [] -> (0 <= q <= 100)%Z ->
  exists p a, percentile l q = Ok p /\ In a l /\ (a <= p)%Q.
Proof.
  intros Hne Hq. unfold percentile.
  pose proof (sort_samples_Sorted l) as Hs.
  assert (Hin : forall v, In v (sort_samples l) -> In v l)
    by (intros v; apply In_sort_samples).
  destruct (sort_samples l) as [|x s] eqn:E.
  - destruct l as [|y l]; [contradiction|].
    assert (X : In y (sort_samples (y :: l)))
      by (apply In_sort_samples; now left).
    rewrite E in X. contradiction.
  - set (n := length (x :: s)).
    set (h := ((Z.of_nat n - 1) * q)%Z).
    assert (Hn : (1 <= n)%nat) by (subst n; simpl; lia).
    assert (Hh : (0 <= h <= 100 * (Z.of_nat n - 1))%Z) by (subst h; nia).
    destruct (h mod 100 =? 0)%Z eqn:Hm.
    + exists (nth (Z.to_nat (h / 100)) (x :: s) x),
             (nth (Z.to_nat (h / 100)) (x :: s) x).
      split; [reflexivity|]. split; [|apply Qle_refl].
      apply Hin, nth_In. fold n.
      assert ((h / 100 <= Z.of_nat n - 1)%Z)
        by (apply Z.div_le_upper_bound; lia).
      assert ((0 <= h / 100)%Z) by (apply Z.div_pos; lia).
      lia.
    + apply Z.eqb_neq in Hm.
      assert (Hlo : (0 <= h / 100 < Z.of_nat n - 1)%Z).
      { pose proof (Z.div_mod h 100 ltac:(lia)) as D.
        pose proof (Z.mod_pos_bound h 100 ltac:(lia)) as B.
        split; [apply Z.div_pos; lia | nia]. }
      assert (Hlt : (S (Z.to_nat (h / 100)) < n)%nat) by lia.
      eexists. exists (nth (Z.to_nat (h / 100)) (x :: s) x).
      split; [reflexivity|]. split.
      * apply Hin, nth_In. fold n. lia.
      * pose proof (Sorted_adjacent (x :: s) x _ Hs Hlt) as A.
        set (a := nth (Z.to_nat (h / 100)) (x :: s) x) in *.
        set (b := nth (S (Z.to_nat (h / 100))) (x :: s) x) in *.
        lra.
Qed.

(** On samples with at least one value that is not NaN the trimming
    succeeds and keeps at least one value, so that the minimum and the
    maximum that the per-key coefficient needs exist; every value kept is one
    of the samples. *)
Theorem trim_sims_keeps_a_value (sims : list sample) :
  drop_nan sims <> [] ->
  exists trimmed,
    trim_sims sims = Ok trimmed /\
    trimmed <> [] /\
    forall v, In v trimmed -> In (Fin v) sims.
Proof.
  intros Hne.
  destruct (percentile_below_some (drop_nan sims) 1 Hne ltac:(lia))
    as (p1 & b & Hp1 & Hb & Hle).
  set (s1 := filter (fun v => negb (Qlt_bool v p1)) (drop_nan sims)).
  assert (Hb1 : In b s1)
    by (unfold s1; apply filter_In; split; auto; now apply not_below_iff).
  assert (Hne1 : s1 <> []) by (intros E; rewrite E in Hb1; contradiction).
  destruct (percentile_above_some s1 99 Hne1 ltac:(lia))
    as (p99 & a & Hp99 & Ha & Hge).
  exists (filter (fun v => negb (Qlt_bool p99 v)) s1).
  split; [|split].
  - unfold trim_sims. rewrite Hp1. cbn [bind]. fold s1. now rewrite Hp99.
  - intros E.
    assert (X : In a (filter (fun v => negb (Qlt_bool p99 v)) s1))
      by (apply filter_In; split; auto; now apply not_below_iff).
    rewrite E in X. contradiction.
  - intros v Hv. apply filter_In in Hv as [Hv _]. unfold s1 in Hv.
    apply filter_In in Hv as [Hv _]. now apply In_drop_nan.
Qed.

Lemma trim_sims_keeps_a_value_witness :
  exists trimmed,
    trim_sims [NaN; Fin 3; Fin 1] = Ok trimmed /\ trimmed <> [].
Proof.
  destruct (trim_sims_keeps_a_value [NaN; Fin 3; Fin 1])
    as (trimmed & E & N & _).
  - simpl. discriminate.
  - exists trimmed. split; [exact E | exact N].
Defined.

(** ** Output files *)

Lemma str_injective (s1 s2 : string) : str s1 = str s2 -> s1 = s2.
Proof.
  unfold str. intros E.
  rewrite <- (string_of_list_ascii_of_string s1),
          <- (string_of_list_ascii_of_string s2).
  now rewrite E.
Qed.

Lemma format_int_injective (i j : Z) : format_int i = format_int j -> i = j.
Proof.
  unfold format_int. intros E. apply str_injective in E.
  assert (Hnn : forall z, Z.to_int z <> Decimal.Pos Decimal.Nil /\
                          Z.to_int z <> Decimal.Neg Decimal.Nil).
  { intros [|p|p]; simpl; split; try discriminate;
      intros X; injection X as X;
      now apply (DecimalPos.Unsigned.to_uint_nonnil p). }
  assert (X : Some (Z.to_int i) = Some (Z.to_int j)).
  { rewrite <- (DecimalString.NilZero.isi (Z.to_int i)),
            <- (DecimalString.NilZero.isi (Z.to_int j));
      try apply Hnn. now rewrite E. }
  injection X as X.
  rewrite <- (DecimalZ.of_to i), <- (DecimalZ.of_to j). now rewrite X.
Qed.

(** The working files of two iterations are different files, and none of
    them is the best file: the names of a [Merger] never collide. *)
Theorem output_names_never_collide (cfg : config) (self : merger) (i j : Z) :
  (working_file self i = working_file self j -> i = j) /\
  working_file self i <> create_best_model_out_name cfg self /\
  output_file (create_model_out_name self i) = working_file self i.
Proof.
  unfold working_file, create_best_model_out_name, path_join, out_name.
  split; [|split].
  - intros E. repeat apply app_inv_head in E.
    apply app_inv_tail in E. now apply format_int_injective.
  - intros E. repeat apply app_inv_head in E. discriminate.
  - reflexivity.
Qed.

Lemma file_exists_rename (p src dst : pystr) (fs fs' : filesystem) :
  rename src dst fs = Ok fs' ->
  file_exists p fs' =
  str_eqb dst p || (negb (str_eqb src p) && file_exists p fs).
Proof.
  unfold rename. destruct (file_exists src fs); [|discriminate].
  intros E. injection E as <-. rewrite file_exists_write. f_equal.
  apply eq_true_iff_eq.
  rewrite andb_true_iff, !file_exists_In, filter_In. tauto.
Qed.

(** [keep_best_ckpt] succeeds exactly when the current output file exists.
    Then the best file exists, the output file is gone and no other file has
    appeared or disappeared; an older best file is replaced.  Without the
    output file it raises [FileNotFoundError]. *)
Theorem keep_best_ckpt_promotes (cfg : config) (self : merger)
  (fs : filesystem) (it : Z) :
  output_file self = working_file self it ->
  (file_exists (output_file self) fs = true ->
   exists fs',
     keep_best_ckpt cfg self fs = Ok fs' /\
     file_exists (create_best_model_out_name cfg self) fs' = true /\
     file_exists (output_file self) fs' = false /\
     forall p, p <> create_best_model_out_name cfg self ->
               p <> output_file self ->
               file_exists p fs' = file_exists p fs) /\
  (file_exists (output_file self) fs = false ->
   keep_best_ckpt cfg self fs = Raise (FileNotFoundError (output_file self))).
Proof.
  intros Hout.
  assert (Hne : output_file self <> create_best_model_out_name cfg self).
  { rewrite Hout. unfold working_file, create_best_model_out_name, path_join,
      out_name. intros E. repeat apply app_inv_head in E. discriminate. }
  set (best := create_best_model_out_name cfg self) in *.
  assert (Hfs1 : exists fs1,
             (if file_exists best fs then unlink best fs else Ok fs) = Ok fs1 /\
             forall p, file_exists p fs1 =
                       negb (str_eqb best p) && file_exists p fs).
  { destruct (file_exists best fs) eqn:B.
    - destruct (unlink best fs) as [fs1|e] eqn:U.
      + exists fs1. split; auto. intros p. now apply file_exists_unlink.
      + unfold unlink in U. rewrite B in U. discriminate.
    - exists fs. split; auto. intros p.
      destruct (str_eqb best p) eqn:E; auto.
      apply str_eqb_eq in E. subst p. now rewrite B. }
  destruct Hfs1 as (fs1 & E1 & G1).
  assert (Hsrc : file_exists (output_file self) fs1 =
                 file_exists (output_file self) fs).
  { rewrite G1. replace (str_eqb best (output_file self)) with false; auto.
    symmetry. apply str_eqb_neq. congruence. }
  unfold keep_best_ckpt. fold best. rewrite E1. cbn [bind]. split.
  - intros Hex.
    destruct (rename (output_file self) best fs1) as [fs'|e] eqn:R.
    2:{ unfold rename in R. rewrite Hsrc, Hex in R. discriminate. }
    pose proof (fun p => file_exists_rename p _ _ _ _ R) as G.
    exists fs'. split; auto. split; [|split].
    + now rewrite G, str_eqb_refl.
    + rewrite G, str_eqb_refl. cbn [negb andb].
      rewrite orb_false_r. apply str_eqb_neq. congruence.
    + intros p Hp1 Hp2. rewrite G, G1.
      replace (str_eqb best p) with false
        by (symmetry; apply str_eqb_neq; congruence).
      replace (str_eqb (output_file self) p) with false
        by (symmetry; apply str_eqb_neq; congruence).
      reflexivity.
  - intros Hex. unfold rename. now rewrite Hsrc, Hex.
Qed.

Lemma keep_best_ckpt_promotes_witness :
  exists fs',
    keep_best_ckpt cfg_weighted_sum (create_model_out_name merger_init 3)
      [working_file merger_init 3;
       create_best_model_out_name cfg_weighted_sum merger_init] = Ok fs' /\
    file_exists (create_best_model_out_name cfg_weighted_sum merger_init) fs'
      = true /\
    file_exists (working_file merger_init 3) fs' = false.
Proof.
  destruct (proj1 (keep_best_ckpt_promotes cfg_weighted_sum
                     (create_model_out_name merger_init 3)
                     [working_file merger_init 3;
                      create_best_model_out_name cfg_weighted_sum merger_init]
                     3 eq_refl) eq_refl)
    as (fs' & E & B & W & _).
  exists fs'. split; [exact E|]. split; [exact B | exact W].
Defined.

(** [remove_previous_ckpt(it)] leaves the files alone for [it <= 1], and
    raises [FileNotFoundError] for [it > 1] when the current output file
    exists but the working file of iteration [it - 1] does not. *)
Theorem remove_previous_ckpt_edges (self : merger) (fs : filesystem) (it : Z) :
  ((it <= 1)%Z ->
   remove_previous_ckpt self fs it = Ok (create_model_out_name self it, fs)) /\
  ((it > 1)%Z ->
   file_exists (output_file self) fs = true ->
   file_exists (working_file self (it - 1)) fs = false ->
   remove_previous_ckpt self fs it =
   Raise (FileNotFoundError (working_file self (it - 1)))).
Proof.
  unfold remove_previous_ckpt. split.
  - intros Hit. replace (it >? 1)%Z with false; auto.
    symmetry. rewrite Z.gtb_ltb. apply Z.ltb_ge. lia.
  - intros Hit Hcur Hprev.
    replace (it >? 1)%Z with true by (symmetry; apply Z.gtb_lt; lia).
    rewrite Hcur. cbn [andb].
    change (output_file (create_model_out_name self (it - 1)))
      with (working_file self (it - 1)).
    unfold unlink. now rewrite Hprev.
Qed.

Lemma remove_previous_ckpt_edges_witness :
  remove_previous_ckpt merger_init [working_file merger_init 0] 1 =
    Ok (create_model_out_name merger_init 1, [working_file merger_init 0]) /\
  remove_previous_ckpt merger_init [working_file merger_init 0] 5 =
    Raise (FileNotFoundError (working_file merger_init 4)).
Proof.
  split.
  - apply (proj1 (remove_previous_ckpt_edges merger_init
                    [working_file merger_init 0] 1)). lia.
  - apply (proj2 (remove_previous_ckpt_edges merger_init
                    [working_file merger_init 0] 5)); reflexivity.
Defined.

(** ** [parse_models] *)

(** [parse_models] returns exactly when each model that the merge mode needs
    beyond model A and model B is configured and exists on disk; otherwise
    the process exits.  The models are then those of the first
    [NUM_MODELS_NEEDED] roles, in order, each with its configured path, one
    real name per model; a model configured beyond what the mode needs is
    not part of the set. *)
Theorem parse_models_model_set (stem : pystr -> pystr) (mode : MergeMode)
  (paths : model_paths) (fs : filesystem) :
  ((exists r, parse_models stem mode paths fs = Some r) <->
   forallb (fun role => match dict_get role (cfg_others paths) with
                        | Some p => file_exists p fs
                        | None => false
                        end)
           (firstn (NUM_MODELS_NEEDED mode - 2) [model_c; model_d; model_e])
   = true) /\
  forall r, parse_models stem mode paths fs = Some r ->
    model_keys r =
      firstn (NUM_MODELS_NEEDED mode)
             [model_a; model_b; model_c; model_d; model_e] /\
    dict_keys (models r) = model_keys r /\
    length (model_real_names r) = NUM_MODELS_NEEDED mode /\
    dict_get model_a (models r) = Some (cfg_model_a paths) /\
    dict_get model_b (models r) = Some (cfg_model_b paths) /\
    forall role, In role (skipn 2 (model_keys r)) ->
      exists p, dict_get role (cfg_others paths) = Some p /\
                file_exists p fs = true /\
                dict_get role (models r) = Some p.
Proof.
  unfold parse_models.
  destruct mode; cbn [NUM_MODELS_NEEDED Nat.sub firstn forallb parse_more Nat.eqb];
    repeat match goal with
    | |- context [dict_get ?k (cfg_others paths)] =>
        let E := fresh "E" in
        destruct (dict_get k (cfg_others paths)) eqn:E
    | |- context [file_exists ?p fs] =>
        let E := fresh "F" in
        destruct (file_exists p fs) eqn:E
    end;
    cbn [fst snd length app Nat.eqb andb parse_more].
  all: split; [split; [intros [r X]; first [reflexivity | discriminate X]
                     | intros X; first [discriminate X | eexists; reflexivity]]|].
  all: intros r X; try discriminate X; injection X as <-;
    cbn [model_keys models model_real_names length skipn].
  all: repeat split; try reflexivity.
  all: intros role I; simpl in I.
  all: repeat (destruct I as [<-|I];
                 [eexists; split; [eassumption | split; [eassumption | reflexivity]]|]).
  all: contradiction.
Qed.

Lemma parse_models_model_set_witness :
  exists r,
    parse_models (fun p => p) weighted_sum
      (mkPaths (str "/m/A.safetensors") (str "/m/B.safetensors")
               (dict_of [(model_c, str "/m/C.safetensors")]))
      [str "/m/C.safetensors"] = Some r /\
    model_keys r = [model_a; model_b].
Proof.
  destruct (proj2 (proj1 (parse_models_model_set (fun p => p) weighted_sum
                            (mkPaths (str "/m/A.safetensors")
                                     (str "/m/B.safetensors")
                                     (dict_of [(model_c, str "/m/C.safetensors")]))
                            [str "/m/C.safetensors"])) eq_refl) as [r E].
  exists r. split; [exact E|].
  apply (proj2 (parse_models_model_set (fun p => p) weighted_sum _ _) r E).
Defined.
